(** * Codebase snapshot tools: exclusion filter, tree renderer,
      module-docstring extractor and text truncator.

    Shallow embedding of the functions shared by [codebase_snapshot.py] and
    [docs_pack.py], with the properties stated about them. *)

From Stdlib Require Import List ZArith NArith Lia Bool Ascii String.
From Stdlib Require Import Sorting.Sorted Sorting.Permutation.
From Stdlib Require Import Relations.Relation_Definitions.
Import ListNotations.

Set Implicit Arguments.

Local Open Scope Z_scope.

(** ** Python text

    A Python [str] is a sequence of Unicode code points.  The length of a
    text is its number of code points, so a code point is a number and a
    text is a list of them. *)

Definition char := N.
Definition str := list char.

(** ASCII literals of the sources, as code points. *)
Definition lit (s : string) : str :=
  List.map N_of_ascii (list_ascii_of_string s).

Definition LF : char := 10%N.
Definition CR : char := 13%N.

(** [len(s)] as a Python integer. *)
Definition len {A : Type} (l : list A) : Z := Z.of_nat (List.length l).

(** [s[:k]] for a Python integer [k]: a negative [k] counts from the end,
    and every bound is clipped to the sequence. *)
Definition slice_to {A : Type} (k : Z) (l : list A) : list A :=
  if k <? 0 then firstn (List.length l - Z.to_nat (- k)) l
  else firstn (Z.to_nat k) l.

(** Line boundaries of [str.splitlines]: LF, VT, FF, CR, FS, GS, RS, NEL,
    LINE SEPARATOR, PARAGRAPH SEPARATOR (and CR LF taken as one). *)
Definition is_linebreak (c : char) : bool :=
  match c with
  | 10 | 11 | 12 | 13 | 28 | 29 | 30 | 133 | 8232 | 8233 => true
  | _ => false
  end%N.

(** White space of [str.strip], [str.rstrip] and [str.isspace]. *)
Definition is_space (c : char) : bool :=
  match c with
  | 9 | 10 | 11 | 12 | 13 | 28 | 29 | 30 | 31 | 32 | 133 | 160 | 5760
  | 8192 | 8193 | 8194 | 8195 | 8196 | 8197 | 8198 | 8199 | 8200 | 8201
  | 8202 | 8232 | 8233 | 8239 | 8287 | 12288 => true
  | _ => false
  end%N.

(** Put [c] in front of the first line of [ls]. *)
Definition cons_first (c : char) (ls : list str) : list str :=
  match ls with
  | [] => [[c]]
  | l :: ls' => (c :: l) :: ls'
  end.

(** [s.splitlines()]: the lines of [s] without their terminators; a
    terminator at the very end opens no further line. *)
Fixpoint splitlines (s : str) : list str :=
  match s with
  | [] => []
  | c :: s' =>
      if is_linebreak c then
        [] :: match s' with
              | d :: s'' =>
                  if (N.eqb c CR && N.eqb d LF)%bool then splitlines s''
                  else splitlines s'
              | [] => []
              end
      else cons_first c (splitlines s')
  end.

(** [sep.join(parts)] for a separator of one character. *)
Fixpoint join_on (sep : char) (parts : list str) : str :=
  match parts with
  | [] => []
  | [p] => p
  | p :: ps => p ++ sep :: join_on sep ps
  end.

(** [s.split(sep)] for a separator of one character. *)
Fixpoint split_on (sep : char) (s : str) : list str :=
  match s with
  | [] => [[]]
  | c :: s' =>
      if N.eqb c sep then [] :: split_on sep s'
      else cons_first c (split_on sep s')
  end.

(** ["\n".join(lines)]. *)
Definition join_nl (lines : list str) : str := join_on LF lines.

(** [s.rstrip()]. *)
Fixpoint rstrip (s : str) : str :=
  match s with
  | [] => []
  | c :: s' =>
      match rstrip s' with
      | [] => if is_space c then [] else [c]
      | r => c :: r
      end
  end.

(** [s.lstrip()]. *)
Fixpoint lstrip (s : str) : str :=
  match s with
  | [] => []
  | c :: s' => if is_space c then lstrip s' else s
  end.

(** [s.strip()]. *)
Definition strip (s : str) : str := lstrip (rstrip s).

(** [s.strip("\n")]: only newline characters are removed, at both ends. *)
Fixpoint lstrip_nl (s : str) : str :=
  match s with
  | [] => []
  | c :: s' => if N.eqb c LF then lstrip_nl s' else s
  end.

Fixpoint rstrip_nl (s : str) : str :=
  match s with
  | [] => []
  | c :: s' =>
      match rstrip_nl s' with
      | [] => if N.eqb c LF then [] else [c]
      | r => c :: r
      end
  end.

Definition strip_nl (s : str) : str := lstrip_nl (rstrip_nl s).

(** Truth value of a Python [str]: the empty text is false. *)
Definition truthy (s : str) : bool :=
  match s with [] => false | _ => true end.

(** ** Text truncator ([truncate_block] / [truncate]) *)

(** The marker line ["… (truncated)"]: U+2026, a space, ["(truncated)"]. *)
Definition marker : str := 8230%N :: lit " (truncated)".

Definition truncate (text : str) (max_lines max_chars : Z) : str :=
  let lines := splitlines text in
  let lines :=
    if len lines >? max_lines then slice_to max_lines lines ++ [marker]
    else lines in
  let out := join_nl lines in
  if len out >? max_chars then
    rstrip (slice_to (max_chars - 20) out) ++ LF :: marker
  else out.

(** ** Exceptions

    [result] is the outcome of a call that may raise.  Every class listed is
    a subclass of Python's [Exception], so an [except Exception] clause
    catches each of them. *)

Inductive exn : Type :=
| ValueError | SyntaxError | IndentationError | TokenError
| RecursionError | MemoryError | UnicodeError
| PermissionError | OSError.

Inductive result (A : Type) : Type :=
| Return (a : A)
| Raise (e : exn).

Arguments Return {A} a.
Arguments Raise {A} e.

Definition bind {A B : Type} (m : result A) (k : A -> result B) : result B :=
  match m with
  | Return a => k a
  | Raise e => Raise e
  end.

Notation "x <- m ;; k" := (bind m (fun x => k))
  (at level 61, m at next level, right associativity).

(** ** Paths and glob patterns ([pathlib], POSIX flavour) *)

Definition SEP : char := 47%N.   (* "/" *)
Definition DOT : char := 46%N.   (* "." *)
Definition STAR : char := 42%N.  (* "*" *)
Definition QMARK : char := 63%N. (* "?" *)

Fixpoint str_eqb (a b : str) : bool :=
  match a, b with
  | [], [] => true
  | x :: a', y :: b' => N.eqb x y && str_eqb a' b'
  | _, _ => false
  end.

(** [part in exclude_dirs]: the only use the code makes of the set. *)
Definition mem (part : str) (names : list str) : bool :=
  existsb (str_eqb part) names.

(** [s.split("/")] and ["/".join(parts)]. *)
Definition split_sep (s : str) : list str := split_on SEP s.
Definition join_sep (parts : list str) : str := join_on SEP parts.

Fixpoint lstrip_sep (s : str) : str :=
  match s with
  | [] => []
  | c :: s' => if N.eqb c SEP then lstrip_sep s' else s
  end.

(** [_PosixFlavour.splitroot]: the root (one slash, or two when the text
    starts with exactly two) and the rest. *)
Definition splitroot (part : str) : str * str :=
  match part with
  | c :: _ =>
      if N.eqb c SEP then
        let stripped := lstrip_sep part in
        if Nat.eqb (List.length part - List.length stripped) 2
        then ([SEP; SEP], stripped)
        else ([SEP], stripped)
      else ([], part)
  | [] => ([], [])
  end.

(** A component kept by [parse_parts]: not empty and not ["."]. *)
Definition kept_component (x : str) : bool :=
  truthy x && negb (str_eqb x [DOT]).

(** [parse_parts] of one text: its root and its parts (the root, when there
    is one, is the first part). *)
Definition parse_parts (s : str) : str * list str :=
  let (root, rel) := splitroot s in
  let comps := filter kept_component (split_sep rel) in
  (root, if truthy root then root :: comps else comps).

(** A [Path] object is the list of its parts; the first part of an
    absolute path is its root.  [str(path)]: *)
Definition path_str (parts : list str) : str :=
  match parts with
  | [] => [DOT]
  | first :: rest =>
      if str_eqb first [SEP] || str_eqb first [SEP; SEP]
      then first ++ join_sep rest
      else join_sep parts
  end.

Section Exclusion.

(** [fnmatch.fnmatchcase name pattern], the matcher of one path
    component of the standard library. *)
Variable fnmatchcase : str -> str -> bool.

(** The loop of [PurePath.match] over
    [zip(reversed(parts), reversed(pat_parts))]. *)
Definition match_reversed (parts pat_parts : list str) : bool :=
  forallb (fun pp => fnmatchcase (fst pp) (snd pp))
          (combine (rev parts) (rev pat_parts)).

(** [PurePath(path).match(pattern)]. *)
Definition path_match (path pattern : str) : result bool :=
  let (proot, pat_parts) := parse_parts pattern in
  let (root, parts) := parse_parts path in
  match pat_parts with
  | [] => Raise ValueError
  | _ =>
      if truthy proot && negb (str_eqb proot root) then Return false
      else if truthy proot then
        if negb (Nat.eqb (List.length pat_parts) (List.length parts))
        then Return false
        else Return (match_reversed parts (tl pat_parts))
      else if Nat.ltb (List.length parts) (List.length pat_parts)
        then Return false
      else Return (match_reversed parts pat_parts)
  end.

(** [any(p.match(g) for g in globs)]. *)
Fixpoint _matches_any_glob (rel_path : str) (globs : list str)
  : result bool :=
  match globs with
  | [] => Return false
  | g :: globs' =>
      b <- path_match rel_path g ;;
      if b then Return true else _matches_any_glob rel_path globs'
  end.

Definition _should_skip (rel_path : list str) (is_dir : bool)
    (exclude_dirs : list str) (exclude_globs : list str) : result bool :=
  if existsb (fun part => mem part exclude_dirs) rel_path then Return true
  else if negb is_dir then
    b <- _matches_any_glob (path_str rel_path) exclude_globs ;;
    if b then Return true else Return false
  else Return false.

End Exclusion.

(** ** Tree renderer ([build_tree_lines]) *)

(** What [stat()] gives for a directory entry: a directory, a regular
    file, neither (a socket, a dangling link, for which [pathlib] ignores
    the error), or an error that [pathlib] raises again: [PermissionError]
    for an entry of a directory that can be listed but not searched. *)
Inductive kind : Type := KDir | KFile | KOther | KError (e : exn).

Record dirent : Type := Dirent { d_name : str; d_kind : kind }.

(** [is_dir()] and [is_file()] call [stat()] and raise what it raises.
    The directory state does not change during a run, so the calls on one
    entry all end alike: [stat] stands for the first of them, at the test
    of the filter, and [is_dir], [is_file] are what the calls answer when
    they return. *)
Definition stat (p : dirent) : result unit :=
  match d_kind p with KError e => Raise e | _ => Return tt end.

Definition is_dir (p : dirent) : bool :=
  match d_kind p with KDir => true | _ => false end.

Definition is_file (p : dirent) : bool :=
  match d_kind p with KFile => true | _ => false end.

(** What [iterdir()] gives for a directory: its entries in the order of the
    operating system, or [PermissionError]. *)
Inductive listing : Type :=
| PermissionDenied
| Entries (entries : list dirent).

(** Order of Python texts: lexicographic on code points. *)
Fixpoint str_ltb (a b : str) : bool :=
  match a, b with
  | _, [] => false
  | [], _ :: _ => true
  | x :: a', y :: b' =>
      if N.ltb x y then true
      else if N.ltb y x then false
      else str_ltb a' b'
  end.

(** Order of the sort keys, the tuples [(is_file, lowered name)]. *)
Definition key_ltb (k1 k2 : bool * str) : bool :=
  match fst k1, fst k2 with
  | false, true => true
  | true, false => false
  | _, _ => str_ltb (snd k1) (snd k2)
  end.

(** The connectors and indentations of the tree. *)
Definition corner : str := [9492; 9472; 9472; 32]%N.     (* "└── " *)
Definition branch : str := [9500; 9472; 9472; 32]%N.     (* "├── " *)
Definition indent_last : str := [32; 32; 32; 32]%N.      (* "    " *)
Definition indent_more : str := [9474; 32; 32; 32]%N.    (* "│   " *)
Definition denied : str := lit "[permission denied]".

(** One step of the rendered trace: the line of an entry with the path of
    the entry relative to the root, or the placeholder of an unreadable
    directory. *)
Inductive item : Type :=
| Shown (rel : list str) (p : dirent) (line : str)
| Denied (dir : list str) (line : str).

Definition item_line (it : item) : str :=
  match it with
  | Shown _ _ line => line
  | Denied _ line => line
  end.

Definition item_path (it : item) : list str :=
  match it with
  | Shown rel _ _ => rel
  | Denied dir _ => dir
  end.

Section Tree.

(** [str.lower], and the matcher of one path component. *)
Variable lower : str -> str.
Variable fnmatchcase : str -> str -> bool.

(** The directory state: [iterdir] of the directory at a path relative to
    the root. *)
Variable iterdir : list str -> listing.

Variable exclude_dirs : list str.
Variable exclude_globs : list str.

(** The key of [filtered.sort].  Every entry of [filtered] went through
    the test of the filter, where its [stat()] returned: [is_file()]
    answers [is_file p] here. *)
Definition sort_key (p : dirent) : bool * str :=
  (is_file p, lower (d_name p)).

(** [list.sort(key=...)] is stable: an entry goes in front of the first
    one whose key is not smaller than its own. *)
Fixpoint insert_entry (p : dirent) (l : list dirent) : list dirent :=
  match l with
  | [] => [p]
  | q :: l' =>
      if key_ltb (sort_key q) (sort_key p) then q :: insert_entry p l'
      else p :: l
  end.

Fixpoint sort_entries (l : list dirent) : list dirent :=
  match l with
  | [] => []
  | p :: l' => insert_entry p (sort_entries l')
  end.

(** The loop that fills [filtered] from the entries of the directory
    [dir].  [p.is_dir()], an argument of the call of the filter, is the
    first call of [stat()] on [p]: what it raises leaves the loop, and
    the walk, since no handler but the one around [iterdir()] is there. *)
Fixpoint filter_entries (dir : list str) (entries : list dirent)
  : result (list dirent) :=
  match entries with
  | [] => Return []
  | p :: entries' =>
      _ <- stat p ;;
      skip <- _should_skip fnmatchcase (dir ++ [d_name p]) (is_dir p)
                exclude_dirs exclude_globs ;;
      filtered <- filter_entries dir entries' ;;
      Return (if skip then filtered else p :: filtered)
  end.

(** The line of entry [p], last of its siblings or not. *)
Definition entry_line (prefix : str) (is_last : bool) (p : dirent) : str :=
  let connector := if is_last then corner else branch in
  let name := d_name p ++ (if is_dir p then [SEP] else []) in
  prefix ++ connector ++ name.

Definition extension (is_last : bool) : str :=
  if is_last then indent_last else indent_more.

Definition is_nil {A : Type} (l : list A) : bool :=
  match l with [] => true | _ => false end.

(** The loop [for i, p in enumerate(filtered)], given the recursive call:
    [i == len(filtered) - 1] holds when nothing follows [p].  The entries
    are those of [filtered]: [is_dir()] answers [is_dir p]. *)
Fixpoint emit (walk : list str -> str -> result (list str))
    (dir : list str) (prefix : str) (filtered : list dirent)
  : result (list str) :=
  match filtered with
  | [] => Return []
  | p :: rest =>
      let is_last := is_nil rest in
      sub <- (if is_dir p
              then walk (dir ++ [d_name p]) (prefix ++ extension is_last)
              else Return []) ;;
      more <- emit walk dir prefix rest ;;
      Return (entry_line prefix is_last p :: sub ++ more)
  end.

(** [walk(dir_path, prefix, depth)] by recursion on the levels left,
    [max_depth - depth]: none left is the test [depth >= max_depth]. *)
Fixpoint walk_levels (levels : nat) (dir : list str) (prefix : str)
  : result (list str) :=
  match levels with
  | O => Return []
  | S levels' =>
      match iterdir dir with
      | PermissionDenied => Return [prefix ++ corner ++ denied]
      | Entries entries =>
          filtered <- filter_entries dir entries ;;
          emit (walk_levels levels') dir prefix (sort_entries filtered)
      end
  end.

Definition walk (max_depth : Z) (dir : list str) (prefix : str) (depth : Z)
  : result (list str) :=
  walk_levels (Z.to_nat (max_depth - depth)) dir prefix.

(** [build_tree_lines]; [label] is [str(root)] for the resolved root. *)
Definition build_tree_lines (label : str) (max_depth : Z)
  : result (list str) :=
  lines <- walk max_depth [] [] 0 ;;
  Return (label :: lines).

(** The same traversal, keeping with each line the entry it renders. *)
Fixpoint emit_trace (walk : list str -> str -> result (list item))
    (dir : list str) (prefix : str) (filtered : list dirent)
  : result (list item) :=
  match filtered with
  | [] => Return []
  | p :: rest =>
      let is_last := is_nil rest in
      sub <- (if is_dir p
              then walk (dir ++ [d_name p]) (prefix ++ extension is_last)
              else Return []) ;;
      more <- emit_trace walk dir prefix rest ;;
      Return (Shown (dir ++ [d_name p]) p (entry_line prefix is_last p)
                :: sub ++ more)
  end.

Fixpoint trace_levels (levels : nat) (dir : list str) (prefix : str)
  : result (list item) :=
  match levels with
  | O => Return []
  | S levels' =>
      match iterdir dir with
      | PermissionDenied => Return [Denied dir (prefix ++ corner ++ denied)]
      | Entries entries =>
          filtered <- filter_entries dir entries ;;
          emit_trace (trace_levels levels') dir prefix (sort_entries filtered)
      end
  end.

Definition build_tree_trace (max_depth : Z) : result (list item) :=
  trace_levels (Z.to_nat (max_depth - 0)) [] [].

End Tree.

(** ** Documentation extractor ([extract_module_docstring]) *)

(** A value of a literal: what a [Constant] node holds and what
    [ast.literal_eval] gives. *)
Inductive pyvalue : Type :=
| VStr (s : str)
| VBytes (b : list N)
| VOther.

(** As much of the syntax tree as [ast.get_docstring] looks at. *)
Inductive expr : Type :=
| Constant (value : pyvalue)
| OtherExpr.

Inductive stmt : Type :=
| Expr (value : expr)
| OtherStmt.

(** A [Module] node is its [body]. *)
Definition module_ := list stmt.

(** [ast.get_docstring(module, clean=False)]. *)
Definition get_docstring (module : module_) : option str :=
  match module with
  | Expr (Constant (VStr text)) :: _ => Some text
  | _ => None
  end.

Inductive toktype : Type :=
| ENDMARKER | NAME | NUMBER | STRING | NEWLINE | INDENT | DEDENT | OP
| COMMENT | NL | ENCODING | ERRORTOKEN | FSTRING_START.

Record token : Type := Token { tok_type : toktype; tok_string : str }.

(** The generator of [tokenize.generate_tokens]: asked for the next token
    it yields one, stops, or raises. *)
Inductive tokgen : Type :=
| Stop
| Yield (tok : token) (rest : tokgen)
| Throw (e : exn).

(** The token types the scan steps over. *)
Definition is_trivia (t : toktype) : bool :=
  match t with
  | ENCODING | NL | NEWLINE | COMMENT | INDENT | DEDENT => true
  | _ => false
  end.

Definition is_string (t : toktype) : bool :=
  match t with STRING => true | _ => false end.

(** A generator that yields [toks] and goes on as [g]. *)
Fixpoint yield_all (toks : list token) (g : tokgen) : tokgen :=
  match toks with
  | [] => g
  | tok :: toks' => Yield tok (yield_all toks' g)
  end.

Section Extractor.

(** The standard library: [ast.parse], [tokenize.generate_tokens] on the
    lines of a text, [ast.literal_eval]. *)
Variable ast_parse : str -> result module_.
Variable generate_tokens : str -> result tokgen.
Variable literal_eval : str -> result pyvalue.

(** The loop [for tok in tokgen] of the fallback. *)
Fixpoint scan_tokens (g : tokgen) : result (option str) :=
  match g with
  | Stop => Return None
  | Throw e => Raise e
  | Yield tok rest =>
      if is_trivia (tok_type tok) then scan_tokens rest
      else if is_string (tok_type tok) then
        match literal_eval (tok_string tok) with
        | Return (VStr value) =>
            let value := strip_nl value in
            Return (if truthy (strip value) then Some value else None)
        | Return _ => Return None
        | Raise _ =>
            let raw := strip_nl (tok_string tok) in
            Return (if truthy (strip raw) then Some raw else None)
        end
      else Return None
  end.

Definition extract_module_docstring_fallback (source : str)
  : result (option str) :=
  match generate_tokens source with
  | Raise _ => Return None
  | Return g => scan_tokens g
  end.

(** [extract_module_docstring] of [docs_pack.py]; [codebase_snapshot.py]
    reads the text from a path first and goes on in the same way. *)
Definition extract_module_docstring (source : str) : result (option str) :=
  match ast_parse source with
  | Return module =>
      match get_docstring module with
      | None => Return None
      | Some doc =>
          let doc := strip_nl doc in
          Return (if truthy (strip doc) then Some doc else None)
      end
  | Raise _ => extract_module_docstring_fallback source
  end.

End Extractor.

(** ** File lists ([iter_python_files], [iter_markdown_files]) *)

(** A path that [rglob] yields under the focus: its parts below the
    focus, what [is_file()] does on it (it answers, or raises what
    [stat()] raises), and what [_is_within(p, root)] answers, which is
    false when the path, once resolved, lies outside the root. *)
Record candidate : Type := Candidate {
  c_sub : list str;
  c_is_file : result bool;
  c_within : bool
}.

(** [str(p)] for the path [rel] below a root whose text is [root_text]. *)
Definition full_str (root_text : str) (rel : list str) : str :=
  if str_eqb root_text [SEP] then SEP :: join_sep rel
  else root_text ++ SEP :: join_sep rel.

(** [list.sort(key=...)] on keys that are texts; stable. *)
Fixpoint insert_by {A : Type} (key : A -> str) (x : A) (l : list A)
  : list A :=
  match l with
  | [] => [x]
  | y :: l' =>
      if str_ltb (key y) (key x) then y :: insert_by key x l'
      else x :: l
  end.

Fixpoint sort_by {A : Type} (key : A -> str) (l : list A) : list A :=
  match l with
  | [] => []
  | x :: l' => insert_by key x (sort_by key l')
  end.

Section FileLists.

Variable lower : str -> str.
Variable fnmatchcase : str -> str -> bool.

(** The loop over [focus.rglob(pattern)].  A file is listed by its path
    relative to the root, [focus_rel] being the path of the focus there;
    [filter_path] is the path that is given to the filter. *)
Fixpoint collect_files (filter_path : candidate -> list str)
    (focus_rel : list str) (exclude_dirs : list str)
    (exclude_globs : list str) (found : list candidate)
  : result (list (list str)) :=
  match found with
  | [] => Return []
  | p :: found' =>
      file <- c_is_file p ;;
      if negb file then
        collect_files filter_path focus_rel exclude_dirs exclude_globs found'
      else
        skip <- _should_skip fnmatchcase (filter_path p) false exclude_dirs
                  exclude_globs ;;
        files <- collect_files filter_path focus_rel exclude_dirs
                   exclude_globs found' ;;
        Return (if skip then files else (focus_rel ++ c_sub p) :: files)
  end.

(** [iter_python_files] of [docs_pack.py], given what [rglob] yields: the
    filter is given [p.relative_to(root)].  [iter_markdown_files] is the
    same loop from the root ([focus_rel = []]). *)
Definition iter_python_files (root_text : str) (focus_rel : list str)
    (exclude_dirs : list str) (exclude_globs : list str)
    (found : list candidate) : result (list (list str)) :=
  files <- collect_files (fun p => focus_rel ++ c_sub p) focus_rel
             exclude_dirs exclude_globs found ;;
  Return (sort_by (fun rel => lower (full_str root_text rel)) files).

Definition iter_markdown_files (root_text : str)
    (exclude_dirs : list str) (exclude_globs : list str)
    (found : list candidate) : result (list (list str)) :=
  files <- collect_files (fun p => [] ++ c_sub p) [] exclude_dirs
             exclude_globs found ;;
  Return (sort_by (fun rel => lower (full_str root_text rel)) files).

(** [iter_python_files] of [codebase_snapshot.py]: the filter is given
    [p.relative_to(root)] when [_is_within(p, root)] holds, and [p]
    itself, the absolute path with all the parts of the root, when it
    does not.  [root_parts] are the parts of the resolved root. *)
Definition snapshot_filter_path (root_parts focus_rel : list str)
    (p : candidate) : list str :=
  if c_within p then focus_rel ++ c_sub p
  else root_parts ++ focus_rel ++ c_sub p.

Definition snapshot_iter_python_files (root_parts : list str)
    (focus_rel : list str) (exclude_dirs : list str)
    (exclude_globs : list str) (found : list candidate)
  : result (list (list str)) :=
  files <- collect_files (snapshot_filter_path root_parts focus_rel)
             focus_rel exclude_dirs exclude_globs found ;;
  Return (sort_by (fun rel => lower (path_str (root_parts ++ rel))) files).

End FileLists.

(** ** Reading a source file ([_read_python_source]) *)

Section Reading.

(** The file system: [tokenize.open(path)] followed by [f.read()], and
    [path.read_text(encoding="utf-8", errors="replace")], for the file at
    a path relative to the root.  Each returns a text or raises (the file
    cannot be opened or read, the encoding cookie is wrong). *)
Variable tokenize_open : list str -> result str.
Variable read_text : list str -> result str.

(** The handler catches what the first reading raises; what the second
    raises goes to the caller. *)
Definition _read_python_source (path : list str) : result str :=
  match tokenize_open path with
  | Return text => Return text
  | Raise _ => read_text path
  end.

End Reading.

(** ** The rules of a run ([main]) *)

(** [set(a) | set(b)]: a name is in the union when it is in one of the
    two. *)
Definition names_union (a b : list str) : list str := a ++ b.

Module CodebaseSnapshot.

Definition DEFAULT_EXCLUDE_DIRS : list str :=
  [lit ".git"; lit ".hg"; lit ".svn"; lit ".venv"; lit "venv"; lit ".tox";
   lit ".eggs"; lit "__pycache__"; lit ".pytest_cache"; lit ".mypy_cache";
   lit ".ruff_cache"; lit "node_modules"; lit "dist"; lit "build";
   lit ".idea"; lit ".vscode"].

Definition DEFAULT_EXCLUDE_GLOBS : list str :=
  [lit "**/*.pyc"; lit "**/*.pyo"; lit "**/*.pyd"; lit "**/*.so";
   lit "**/*.dylib"; lit "**/*.dll"; lit "**/.DS_Store"].

(** The rules [main] builds from [--exclude-dir] and [--exclude-glob]. *)
Definition exclude_dirs (exclude_dir : list str) : list str :=
  names_union DEFAULT_EXCLUDE_DIRS exclude_dir.

Definition exclude_globs (exclude_glob : list str) : list str :=
  DEFAULT_EXCLUDE_GLOBS ++ exclude_glob.

(** The depth of the focus tree: [max(1, min(args.max_depth, 6))]. *)
Definition focus_depth (max_depth : Z) : Z := Z.max 1 (Z.min max_depth 6).

Definition iter_python_files := snapshot_iter_python_files.

(** [extract_module_docstring] of [codebase_snapshot.py] takes a path: it
    reads the file, outside its [try], and goes on as the one of
    [docs_pack.py] does on the text. *)
Definition extract_module_docstring
    (ast_parse : str -> result module_)
    (generate_tokens : str -> result tokgen)
    (literal_eval : str -> result pyvalue)
    (tokenize_open read_text : list str -> result str)
    (path : list str) : result (option str) :=
  source <- _read_python_source tokenize_open read_text path ;;
  extract_module_docstring ast_parse generate_tokens literal_eval source.

End CodebaseSnapshot.

Module DocsPack.

Definition DEFAULT_EXCLUDE_DIRS : list str :=
  [lit ".git"; lit ".hg"; lit ".svn"; lit ".venv"; lit "venv"; lit ".tox";
   lit ".eggs"; lit "__pycache__"; lit ".pytest_cache"; lit ".mypy_cache";
   lit ".ruff_cache"; lit "node_modules"; lit "dist"; lit "build";
   lit ".idea"; lit ".vscode"; lit "sessions"].

Definition DEFAULT_EXCLUDE_GLOBS : list str :=
  [lit "**/*.pyc"; lit "**/.DS_Store"].

Definition exclude_dirs (exclude_dir : list str) : list str :=
  names_union DEFAULT_EXCLUDE_DIRS exclude_dir.

Definition exclude_globs (exclude_glob : list str) : list str :=
  DEFAULT_EXCLUDE_GLOBS ++ exclude_glob.

End DocsPack.

(** ** Markdown headings ([extract_headings] of [docs_pack.py]) *)

(** A piece of a regular expression: between [a_min] and [a_max]
    characters of a class, as many as possible when [a_greedy], as few as
    possible otherwise. *)
Record atom : Type := Atom {
  a_class : char -> bool;
  a_min : nat;
  a_max : option nat;
  a_greedy : bool
}.

Definition below (bound : option nat) (count : nat) : bool :=
  match bound with
  | None => true
  | Some m => Nat.ltb count m
  end.

(** [$] without [re.MULTILINE]: the end of the text, or the place before a
    newline that ends it. *)
Definition at_end (s : str) : bool :=
  match s with
  | [] => true
  | [c] => N.eqb c LF
  | _ => false
  end.

(** One piece, by backtracking: [taken] holds, last first, the characters
    it has so far, [k] matches what follows the piece.  A greedy piece
    first tries one character more and comes back to stop here; a lazy one
    first tries to stop. *)
Fixpoint rep (a : atom) (k : str -> option (list str)) (taken : str)
    (count : nat) (s : str) {struct s} : option (list str) :=
  let stop :=
    if Nat.leb (a_min a) count then
      match k s with
      | Some groups => Some (rev taken :: groups)
      | None => None
      end
    else None in
  let more :=
    match s with
    | c :: s' =>
        if a_class a c && below (a_max a) count
        then rep a k (c :: taken) (S count) s'
        else None
    | [] => None
    end in
  if a_greedy a then
    match more with
    | Some groups => Some groups
    | None => stop
    end
  else
    match stop with
    | Some groups => Some groups
    | None => more
    end.

(** [re.match] of a sequence of pieces closed by [$]: the text each piece
    matched, or no match. *)
Fixpoint re_match (atoms : list atom) (s : str) {struct atoms}
  : option (list str) :=
  match atoms with
  | [] => if at_end s then Some [] else None
  | a :: atoms' => rep a (re_match atoms') [] 0 s
  end.

Definition HASH : char := 35%N.

(** [_HEADING_RE], the pattern [^(#{1,6})\s+(.+?)\s*$]: its groups 1 and 2
    are the first and the third piece. *)
Definition _HEADING_RE : list atom :=
  [Atom (N.eqb HASH) 1 (Some 6%nat) true;
   Atom is_space 1 None true;
   Atom (fun c => negb (N.eqb c LF)) 1 None false;
   Atom is_space 0 None true].

(** The line written for a match: two spaces for each level after the
    first, then ["- "] and the title. *)
Definition heading_entry (groups : list str) : str :=
  let level := List.length (nth 0 groups []) in
  let title := nth 2 groups [] in
  List.concat (List.repeat (lit "  ") (level - 1)) ++ lit "- " ++ title.

(** The loop over the lines, with the list [out] built so far. *)
Fixpoint scan_headings (max_headings : Z) (lines : list str)
    (out : list str) : list str :=
  match lines with
  | [] => out
  | line :: lines' =>
      match re_match _HEADING_RE line with
      | Some groups =>
          let out := out ++ [heading_entry groups] in
          if len out >=? max_headings then out
          else scan_headings max_headings lines' out
      | None => scan_headings max_headings lines' out
      end
  end.

Definition extract_headings (md_text : str) (max_headings : Z) : list str :=
  scan_headings max_headings (splitlines md_text) [].

(** ** The docstring section of a report ([main]) *)

(** [f"### {rel}"]. *)
Definition header (rel : list str) : str := lit "### " ++ path_str rel.

Definition body (doc : option str) (max_lines max_chars : Z) : str :=
  match doc with
  | None => lit "_No module docstring found._"
  | Some doc =>
      let trimmed := truncate doc max_lines max_chars in
      lit "```text" ++ LF :: trimmed ++ LF :: lit "```"
  end.

(** [header + "\n\n" + body + "\n"]; [docs_pack.py] writes the same text
    as one formatted literal. *)
Definition rendered_block (rel : list str) (doc : option str)
    (max_lines max_chars : Z) : str :=
  header rel ++ LF :: LF :: body doc max_lines max_chars ++ [LF].

Section Report.

Variable ast_parse : str -> result module_.
Variable generate_tokens : str -> result tokgen.
Variable literal_eval : str -> result pyvalue.

Variable tokenize_open : list str -> result str.
Variable read_text : list str -> result str.

(** The loop [for p in py_files] of [main]: the texts of [missing] and
    of [rendered_blocks] when the loop ends.  [docs_pack.py] reads the
    file in the loop and extracts from the text, which is the same
    sequence of calls; it has no [--missing-only]: its loop is the one
    with [missing_only = false]. *)
Fixpoint docstring_blocks (missing_only : bool) (max_lines max_chars : Z)
    (py_files : list (list str)) : result (list str * list str) :=
  match py_files with
  | [] => Return ([], [])
  | rel :: py_files' =>
      doc <- CodebaseSnapshot.extract_module_docstring ast_parse
               generate_tokens literal_eval tokenize_open read_text rel ;;
      rest <- docstring_blocks missing_only max_lines max_chars py_files' ;;
      let missing :=
        match doc with
        | None => path_str rel :: fst rest
        | Some _ => fst rest
        end in
      if missing_only && (match doc with Some _ => true | None => false end)
      then Return (missing, snd rest)
      else Return (missing,
                   rendered_block rel doc max_lines max_chars :: snd rest)
  end.

End Report.

(** The exit status of [codebase_snapshot.py] once the report is out:
    [if args.fail_on_missing and missing: raise SystemExit(2)]. *)
Definition exit_status (fail_on_missing : bool) (missing : list str) : Z :=
  if fail_on_missing && (match missing with [] => false | _ => true end)
  then 2 else 0.

(** ** Session files ([new_session.py]) *)

Definition DASH : char := 45%N.  (* "-" *)
Definition ZERO : char := 48%N.  (* "0" *)

(** The class [[a-z0-9]]. *)
Definition is_lower_alnum (c : char) : bool :=
  (N.leb 97 c && N.leb c 122) || (N.leb 48 c && N.leb c 57).

(** What replaces a run of the class that has ended. *)
Definition close_run (min : nat) (repl run : str) : str :=
  if Nat.leb min (List.length run) then repl else run.

(** [re.sub] for a pattern that is one class of characters repeated at
    least [min] times, greedily ([min >= 1]): read from the left, every
    maximal run of the class that has [min] characters or more is replaced
    by [repl], a shorter run stays.  [run] is the run read so far. *)
Fixpoint sub_runs (cls : char -> bool) (min : nat) (repl : str)
    (run : str) (s : str) : str :=
  match s with
  | [] => close_run min repl run
  | c :: s' =>
      if cls c then sub_runs cls min repl (run ++ [c]) s'
      else close_run min repl run ++ c :: sub_runs cls min repl [] s'
  end.

(** [s.strip(ch)] for a text [ch] of one character. *)
Fixpoint lstrip_chr (ch : char) (s : str) : str :=
  match s with
  | [] => []
  | c :: s' => if N.eqb c ch then lstrip_chr ch s' else s
  end.

Fixpoint rstrip_chr (ch : char) (s : str) : str :=
  match s with
  | [] => []
  | c :: s' =>
      match rstrip_chr ch s' with
      | [] => if N.eqb c ch then [] else [c]
      | r => c :: r
      end
  end.

Definition strip_chr (ch : char) (s : str) : str :=
  lstrip_chr ch (rstrip_chr ch s).

Section Slug.

Variable lower : str -> str.

Definition slugify (text : str) : str :=
  let text := lower (strip text) in
  let text :=
    sub_runs (fun c => negb (is_lower_alnum c)) 1 [DASH] [] text in
  let text := strip_chr DASH (sub_runs (N.eqb DASH) 2 [DASH] [] text) in
  if truthy text then text else lit "session".

End Slug.

(** The decimal digits of [n >= 0], the most significant first. *)
Fixpoint digits_aux (fuel : nat) (n : Z) (acc : str) : str :=
  match fuel with
  | O => acc
  | S fuel' =>
      let acc := Z.to_N (48 + n mod 10) :: acc in
      if n <? 10 then acc else digits_aux fuel' (n / 10) acc
  end.

Definition digits (n : Z) : str :=
  digits_aux (S (Z.to_nat (Z.log2 n))) n [].

(** [format(n, "0<width>d")]: the digits, filled with zeros on the left up
    to [width] characters, the sign counted. *)
Definition format_0d (width : nat) (n : Z) : str :=
  if n <? 0 then
    let ds := digits (- n) in
    DASH :: repeat ZERO (width - 1 - List.length ds) ++ ds
  else
    let ds := digits n in
    repeat ZERO (width - List.length ds) ++ ds.

(** [datetime.date(year, month, day).isoformat()]. *)
Definition isoformat (year month day : Z) : str :=
  format_0d 4 year ++ DASH :: format_0d 2 month ++ DASH :: format_0d 2 day.

Section Index.

(** The value of a character as a decimal digit: [\d] matches the
    characters that have one, and [int] reads them by it. *)
Variable decimal : char -> option Z.

(** [re.match(r"^(\d{4})-", name)], then [int(m.group(1))]. *)
Definition index_of (name : str) : option Z :=
  match name with
  | a :: b :: c :: d :: e :: _ =>
      match decimal a, decimal b, decimal c, decimal d with
      | Some x, Some y, Some z, Some w =>
          if N.eqb e DASH then Some (((x * 10 + y) * 10 + z) * 10 + w)
          else None
      | _, _, _, _ => None
      end
  | _ => None
  end.

(** The loop of [next_index] over the names that [glob] yields. *)
Fixpoint max_index (max_idx : Z) (names : list str) : Z :=
  match names with
  | [] => max_idx
  | name :: names' =>
      match index_of name with
      | Some idx => max_index (Z.max max_idx idx) names'
      | None => max_index max_idx names'
      end
  end.

Definition next_index (names : list str) : Z := max_index 0 names + 1.

End Index.

(** The name [main] gives the new file: [idx] is [None] under
    [--no-index], [stamp] is the time added when the first name is
    taken. *)
Definition prefix (idx : option Z) : str :=
  match idx with
  | Some idx => format_0d 4 idx ++ [DASH]
  | None => []
  end.

Definition filename (idx : option Z) (today slug : str)
    (stamp : option str) : str :=
  match stamp with
  | None => prefix idx ++ today ++ lit "--" ++ slug ++ lit ".md"
  | Some stamp =>
      prefix idx ++ today ++ lit "--" ++ slug ++ lit "--" ++ stamp
        ++ lit ".md"
  end.

(** ** Definitions used to state the properties *)

(** *** Texts *)

(** [a <= b] for Python texts. *)
Definition str_le (a b : str) : Prop := str_ltb b a = false.

(** A line holds no line boundary. *)
Definition plain (l : str) : Prop :=
  forall c, In c l -> is_linebreak c = false.

(** The last of [lines] is not empty. *)
Definition open_end (lines : list str) : bool :=
  match lines with
  | [] => true
  | l :: ls => truthy (last ls l)
  end.

(** The last line of [text], as [splitlines] cuts it, is not empty. *)
Definition ends_in_open_line (text : str) : bool :=
  open_end (splitlines text).

(** *** Paths and patterns *)

(** A name as a directory holds it: not empty, no separator, not ["."]. *)
Definition wf_name (x : str) : Prop :=
  x <> [] /\ ~ In SEP x /\ x <> [DOT].

(** No pattern is empty once cut into parts. *)
Definition valid_globs (globs : list str) : Prop :=
  Forall (fun g => snd (parse_parts g) <> []) globs.

(** The parts of a pattern match, one by one, the last parts of a path. *)
Definition suffix_match (fnmatchcase : str -> str -> bool)
    (rel pat_parts : list str) : Prop :=
  exists pre suf,
    rel = pre ++ suf
    /\ Forall2 (fun part pat => fnmatchcase part pat = true) suf pat_parts.

(** Glob matching of a whole text as the specification words it: [?] is
    one character other than the separator, [*] a run of such characters,
    [**] a run of any characters. *)
Fixpoint shell_glob (pat s : str) : bool :=
  match pat with
  | [] => is_nil s
  | c :: pat' =>
      if N.eqb c STAR then
        match pat' with
        | c2 :: pat'' =>
            if N.eqb c2 STAR then
              (fix any (n : str) : bool :=
                 shell_glob pat'' n
                 || match n with [] => false | _ :: n' => any n' end) s
            else
              (fix run (n : str) : bool :=
                 shell_glob pat' n
                 || match n with
                    | [] => false
                    | d :: n' => negb (N.eqb d SEP) && run n'
                    end) s
        | [] => forallb (fun d => negb (N.eqb d SEP)) s
        end
      else
        match s with
        | [] => false
        | d :: s' =>
            (if N.eqb c QMARK then negb (N.eqb d SEP) else N.eqb c d)
            && shell_glob pat' s'
        end
  end.

(** [fnmatch.fnmatchcase] on the patterns that have no bracket: [*] is any
    run of characters, [?] any one character, the rest stands for itself. *)
Fixpoint fnmatch_plain (name pat : str) {struct pat} : bool :=
  match pat with
  | [] => is_nil name
  | c :: pat' =>
      if N.eqb c STAR then
        (fix star (n : str) : bool :=
           fnmatch_plain n pat'
           || match n with [] => false | _ :: n' => star n' end) name
      else
        match name with
        | [] => false
        | d :: name' =>
            (N.eqb c QMARK || N.eqb c d) && fnmatch_plain name' pat'
        end
  end.

(** [str.lower] on ASCII text. *)
Definition lower_ascii (s : str) : str :=
  List.map (fun c => if (N.leb 65 c && N.leb c 90)%bool then (c + 32)%N
                     else c) s.

(** *** Directory states and rendered levels *)

(** The names of a listing. *)
Definition names_of (es : list dirent) : list str := List.map d_name es.

(** A directory holds each name once. *)
Definition distinct_names (iterdir : list str -> listing) : Prop :=
  forall dir es, iterdir dir = Entries es -> NoDup (names_of es).

(** Every name a directory lists is well formed. *)
Definition wf_state (iterdir : list str -> listing) : Prop :=
  forall dir es, iterdir dir = Entries es ->
                 Forall (fun p => wf_name (d_name p)) es.

(** No [stat()] of an entry raises. *)
Definition stats_return (iterdir : list str -> listing) : Prop :=
  forall dir es, iterdir dir = Entries es ->
                 Forall (fun p => stat p = Return tt) es.

(** [e] is what the [stat()] of some entry of the state raises. *)
Definition stat_raises (iterdir : list str -> listing) (e : exn) : Prop :=
  exists dir es p, iterdir dir = Entries es /\ In p es /\ stat p = Raise e.

Fixpoint list_eqb (a b : list str) : bool :=
  match a, b with
  | [], [] => true
  | x :: a', y :: b' => str_eqb x y && list_eqb a' b'
  | _, _ => false
  end.

(** The lines of a trace; a raised exception stays. *)
Definition lines_of (r : result (list item)) : result (list str) :=
  items <- r ;; Return (List.map item_line items).

(** The entries of the trace shown directly under [dir], in the order of
    the output. *)
Fixpoint level_of (dir : list str) (items : list item) : list dirent :=
  match items with
  | [] => []
  | Shown rel p _ :: items' =>
      if list_eqb (removelast rel) dir then p :: level_of dir items'
      else level_of dir items'
  | Denied _ _ :: items' => level_of dir items'
  end.

(** The lines of the entries of one directory alone, without what lies
    beneath them. *)
Fixpoint level_lines (prefix : str) (l : list dirent) : list str :=
  match l with
  | [] => []
  | p :: rest => entry_line prefix (is_nil rest) p :: level_lines prefix rest
  end.

(** [a] may stand before [b] after the sort: the key of [b] is not smaller. *)
Definition entry_le (lower : str -> str) (a b : dirent) : Prop :=
  key_ltb (sort_key lower b) (sort_key lower a) = false.

(** No directory comes after a regular file. *)
Definition dirs_first (l : list dirent) : Prop :=
  forall l1 p l2, l = l1 ++ p :: l2 -> is_file p = true ->
                  Forall (fun q => is_dir q = false) l2.

(** The names, lowered, do not decrease along [l]. *)
Definition by_lowered_name (lower : str -> str) (l : list dirent) : Prop :=
  StronglySorted (fun a b => str_le (lower (d_name a)) (lower (d_name b))) l.

(** *** Tokens *)

Definition DQUOTE : char := 34%N.
Definition QUOTE : char := 39%N.

(** The text of a [STRING] token holds a quote character. *)
Definition has_quote (s : str) : bool :=
  existsb (fun c => N.eqb c DQUOTE || N.eqb c QUOTE) s.

(** The token types that are stepped over, as the documentation of the
    fallback lists them: encoding, blank line, end of line, comment,
    indent and dedent. *)
Definition skipped_types : list toktype :=
  [ENCODING; NL; NEWLINE; COMMENT; INDENT; DEDENT].

(** Every token of [toks] is one the scan steps over. *)
Definition all_trivia (toks : list token) : Prop :=
  Forall (fun tok => is_trivia (tok_type tok) = true) toks.

(** An item that lies at most [k] parts beneath the root; a placeholder
    counts one level deeper than the directory it stands for. *)
Definition within (k : nat) (it : item) : bool :=
  match it with
  | Shown rel _ _ => Nat.leb (List.length rel) k
  | Denied dir _ => Nat.ltb (List.length dir) k
  end.

(** The directories the walk can come to: the root, and each directory
    that passes the filter among the entries of one it can come to. *)
Inductive reached (fnmatchcase : str -> str -> bool)
    (iterdir : list str -> listing) (names globs : list str)
  : list str -> Prop :=
| reached_root : reached fnmatchcase iterdir names globs []
| reached_child (dir : list str) (es filtered : list dirent) (p : dirent) :
    reached fnmatchcase iterdir names globs dir ->
    iterdir dir = Entries es ->
    filter_entries fnmatchcase names globs dir es = Return filtered ->
    In p filtered -> is_dir p = true ->
    reached fnmatchcase iterdir names globs (dir ++ [d_name p]).

(** The shape of the line of an item: an indentation, a connector and the
    name of the entry, with the separator after the name of a directory;
    [depth] is the number of parts above the entry. *)
Definition drawn (indent depth : nat) (it : item) : Prop :=
  match it with
  | Shown rel p line =>
      exists pre conn parent,
        line = pre ++ conn ++ d_name p ++ (if is_dir p then [SEP] else [])
        /\ (conn = corner \/ conn = branch)
        /\ rel = parent ++ [d_name p]
        /\ (List.length pre + 4 * depth
            = indent + 4 * List.length parent)%nat
  | Denied dir line =>
      exists pre,
        line = pre ++ corner ++ denied
        /\ (List.length pre + 4 * depth = indent + 4 * List.length dir)%nat
  end.

(** The entries of all the lines that are headings, with no limit. *)
Definition all_headings (lines : list str) : list str :=
  flat_map (fun line =>
              match re_match _HEADING_RE line with
              | Some groups => [heading_entry groups]
              | None => []
              end) lines.

(** [s] is empty or starts with a character that fails [class]. *)
Definition starts_outside (class : char -> bool) (s : str) : Prop :=
  match s with
  | [] => True
  | c :: _ => class c = false
  end.

(** *** Reports *)

(** The files for which [extract] answers [Missing]. *)
Definition no_docstring (ast_parse : str -> result module_)
    (generate_tokens : str -> result tokgen)
    (literal_eval : str -> result pyvalue)
    (tokenize_open read_text : list str -> result str)
    (rel : list str) : bool :=
  match CodebaseSnapshot.extract_module_docstring ast_parse
          generate_tokens literal_eval tokenize_open read_text rel with
  | Return None => true
  | _ => false
  end.

(** *** Slugs and indexes *)

(** A character of a slug: a lower-case letter, a digit or a dash. *)
Definition slug_char (c : char) : Prop :=
  is_lower_alnum c = true \/ c = DASH.

(** The value of an ASCII digit. *)
Definition decimal_ascii (c : char) : option Z :=
  if (N.leb 48 c && N.leb c 57)%bool then Some (Z.of_N c - 48) else None.

(** [decimal] gives digit values, and reads the ASCII digits. *)
Definition digit_values (decimal : char -> option Z) : Prop :=
  forall c v, decimal c = Some v -> 0 <= v <= 9.

Definition reads_ascii (decimal : char -> option Z) : Prop :=
  forall v, 0 <= v <= 9 -> decimal (Z.to_N (48 + v)) = Some v.

(** No two dashes side by side. *)
Fixpoint no_double_dash (s : str) : bool :=
  match s with
  | [] => true
  | c :: s' =>
      match s' with
      | d :: _ => negb (N.eqb c DASH && N.eqb d DASH)
      | [] => true
      end && no_double_dash s'
  end.

(** The text of [slugify] before the default is put in. *)
Definition slug_text (lower : str -> str) (text : str) : str :=
  strip_chr DASH
    (sub_runs (N.eqb DASH) 2 [DASH] []
       (sub_runs (fun c => negb (is_lower_alnum c)) 1 [DASH] []
          (lower (strip text)))).

(** The character of a digit value. *)
Definition digit_char (v : Z) : char := Z.to_N (48 + v).

(** The entry [p] stands in the sorted listing of what the filter keeps of
    the directory [parent], with the entries [after] behind it. *)
Definition placed (lower : str -> str) (fnmatchcase : str -> str -> bool)
    (iterdir : list str -> listing) (exclude_dirs exclude_globs : list str)
    (parent : list str) (p : dirent) (after : list dirent) : Prop :=
  exists entries filtered before,
    iterdir parent = Entries entries
    /\ filter_entries fnmatchcase exclude_dirs exclude_globs parent entries
       = Return filtered
    /\ sort_entries lower filtered = before ++ p :: after.

(** The line of a shown entry has the connector of its place: the corner
    when nothing comes after the entry, the branch otherwise. *)
Definition connected (lower : str -> str) (fnmatchcase : str -> str -> bool)
    (iterdir : list str -> listing) (exclude_dirs exclude_globs : list str)
    (it : item) : Prop :=
  match it with
  | Shown rel p line =>
      exists parent after pre,
        rel = parent ++ [d_name p]
        /\ placed lower fnmatchcase iterdir exclude_dirs exclude_globs
             parent p after
        /\ line = pre ++ (if is_nil after then corner else branch)
                      ++ d_name p ++ (if is_dir p then [SEP] else [])
  | Denied _ _ => True
  end.

(** ** Sample inputs *)

(** A directory state: under the root, [a/], [Z/], [node_modules/],
    [B.txt], [a.txt]; under [a/], [main.py], [x.pyc], [node_modules/], the
    unreadable [locked/] and [sub/], which holds [deep.txt]. *)
Definition sample_state (dir : list str) : listing :=
  if list_eqb dir [] then
    Entries [Dirent (lit "B.txt") KFile; Dirent (lit "a") KDir;
             Dirent (lit "node_modules") KDir; Dirent (lit "Z") KDir;
             Dirent (lit "a.txt") KFile]
  else if list_eqb dir [lit "a"] then
    Entries [Dirent (lit "x.pyc") KFile; Dirent (lit "sub") KDir;
             Dirent (lit "main.py") KFile; Dirent (lit "node_modules") KDir;
             Dirent (lit "locked") KDir]
  else if list_eqb dir [lit "a"; lit "locked"] then PermissionDenied
  else if list_eqb dir [lit "a"; lit "sub"] then
    Entries [Dirent (lit "deep.txt") KFile]
  else if list_eqb dir [lit "node_modules"] then
    Entries [Dirent (lit "pkg.js") KFile]
  else if list_eqb dir [lit "a"; lit "node_modules"] then
    Entries [Dirent (lit "lib.js") KFile]
  else Entries [].

(** The same state with other contents in the two [node_modules]. *)
Definition sample_state_other (dir : list str) : listing :=
  if list_eqb dir [lit "node_modules"] then
    Entries [Dirent (lit "other.js") KFile; Dirent (lit "more") KDir]
  else if list_eqb dir [lit "a"; lit "node_modules"] then PermissionDenied
  else sample_state dir.

(** The same state where [a/sub] can be listed but not searched: the
    [stat()] of [deep.txt] raises [PermissionError]. *)
Definition sample_state_unsearchable (dir : list str) : listing :=
  if list_eqb dir [lit "a"; lit "sub"] then
    Entries [Dirent (lit "deep.txt") (KError PermissionError)]
  else sample_state dir.

(** A directory with a link to nothing among its entries. *)
Definition sample_state_link (dir : list str) : listing :=
  if list_eqb dir [] then
    Entries [Dirent (lit "b.txt") KFile; Dirent (lit "zz") KDir;
             Dirent (lit "dangling") KOther; Dirent (lit "d") KDir]
  else Entries [].

Definition sample_names : list str := [lit "node_modules"; lit ".git"].
Definition sample_globs : list str := [lit "**/*.pyc"; lit "**/.DS_Store"].

(** Source texts, and what CPython's parser, tokenizer and literal
    evaluator do on them.  The tables below record these runs and say
    nothing of other texts: there a default stands in, on which no
    statement relies. *)
Fixpoint lookup {A : Type} (table : list (str * A)) (default : A) (s : str)
  : A :=
  match table with
  | [] => default
  | (k, v) :: table' => if str_eqb k s then v else lookup table' default s
  end.

(** An unterminated triple-quoted string. *)
Definition src_unterminated : str := [DQUOTE; DQUOTE; DQUOTE] ++ lit "abc".

(** A leading literal of two spaces. *)
Definition src_blank_doc : str := DQUOTE :: lit "  " ++ [DQUOTE; LF].

(** A leading literal in triple quotes, then a statement. *)
Definition src_doc : str :=
  [DQUOTE; DQUOTE; DQUOTE] ++ LF :: lit "  computes totals" ++ LF :: LF ::
    [DQUOTE; DQUOTE; DQUOTE] ++ LF :: lit "x = 1" ++ [LF].

(** A statement first, a literal after it. *)
Definition src_late_doc : str :=
  lit "x = 1" ++ LF :: DQUOTE :: lit "doc" ++ [DQUOTE; LF].

(** A comment and a literal, then an open bracket that never closes. *)
Definition src_doc_broken : str :=
  lit "# tool" ++ LF :: DQUOTE :: lit "doc" ++ DQUOTE :: LF :: lit "x = ("
    ++ [LF].

(** A bytes literal, then an open bracket that never closes. *)
Definition src_bytes_broken : str :=
  lit "b" ++ DQUOTE :: lit "data" ++ DQUOTE :: LF :: lit "x = (" ++ [LF].

(** A literal with an unknown character name, then an open bracket. *)
Definition src_badname_broken : str :=
  DQUOTE :: lit "\N{nope}" ++ DQUOTE :: LF :: lit "x = (" ++ [LF].

(** A name first, and an open bracket. *)
Definition src_name_broken : str := lit "x = (" ++ [LF].

Definition tok_doc : token := Token STRING (DQUOTE :: lit "doc" ++ [DQUOTE]).
Definition tok_bytes : token :=
  Token STRING (lit "b" ++ DQUOTE :: lit "data" ++ [DQUOTE]).
Definition tok_badname : token :=
  Token STRING (DQUOTE :: lit "\N{nope}" ++ [DQUOTE]).

(** The tokens of the line [x = (], after which the tokenizer meets the
    end of the text inside the bracket and raises. *)
Definition toks_open_bracket : tokgen :=
  Yield (Token NAME (lit "x"))
    (Yield (Token OP (lit "="))
       (Yield (Token OP (lit "("))
          (Yield (Token NL [LF]) (Throw TokenError)))).

Definition cpython_parse : str -> result module_ :=
  lookup
    [(src_blank_doc, Return [Expr (Constant (VStr (lit "  ")))]);
     (src_doc,
      Return [Expr (Constant (VStr (LF :: lit "  computes totals"
                                       ++ [LF; LF])));
              OtherStmt]);
     (src_late_doc,
      Return [OtherStmt; Expr (Constant (VStr (lit "doc")))])]
    (Raise SyntaxError).

Definition cpython_tokens : str -> result tokgen :=
  lookup
    [(src_unterminated, Return (Throw TokenError));
     (src_doc_broken,
      Return (Yield (Token COMMENT (lit "# tool"))
                (Yield (Token NL [LF])
                   (Yield tok_doc
                      (Yield (Token NEWLINE [LF]) toks_open_bracket)))));
     (src_bytes_broken,
      Return (Yield tok_bytes (Yield (Token NEWLINE [LF]) toks_open_bracket)));
     (src_badname_broken,
      Return (Yield tok_badname
                (Yield (Token NEWLINE [LF]) toks_open_bracket)));
     (src_name_broken, Return toks_open_bracket)]
    (Return Stop).

Definition cpython_eval : str -> result pyvalue :=
  lookup
    [(tok_string tok_doc, Return (VStr (lit "doc")));
     (tok_string tok_bytes, Return (VBytes (lit "data")));
     (tok_string tok_badname, Raise SyntaxError)]
    (Raise ValueError).

(** What [rglob] yields under the focus [a] of the sample state. *)
Definition sample_found : list candidate :=
  [Candidate [lit "sub"; lit "tool.py"] (Return true) true;
   Candidate [lit "node_modules"; lit "lib.py"] (Return true) true;
   Candidate [lit "Main.py"] (Return true) true;
   Candidate [lit "pkg.py"] (Return false) true].

(** The same, with a link to a file outside the root, and with a file
    whose [stat()] raises. *)
Definition sample_found_link : list candidate :=
  sample_found ++ [Candidate [lit "link.py"] (Return true) false].

Definition sample_found_denied : list candidate :=
  sample_found ++ [Candidate [lit "secret.py"] (Raise PermissionError) true].

(** The Python files of a small project, and their texts. *)
Definition sample_py_files : list (list str) :=
  [[lit "a"; lit "main.py"]; [lit "a"; lit "sub"; lit "tool.py"];
   [lit "setup.py"]].

Definition sample_sources (rel : list str) : str :=
  if list_eqb rel [lit "a"; lit "main.py"] then src_doc
  else if list_eqb rel [lit "a"; lit "sub"; lit "tool.py"] then src_late_doc
  else if list_eqb rel [lit "setup.py"] then src_blank_doc
  else src_unterminated.

(** The files open and are read, but for [locked.py], which cannot be
    opened by either call. *)
Definition sample_open (rel : list str) : result str :=
  if list_eqb rel [lit "locked.py"] then Raise PermissionError
  else Return (sample_sources rel).

Definition sample_read_text (rel : list str) : result str :=
  if list_eqb rel [lit "locked.py"] then Raise PermissionError
  else Return (sample_sources rel).

(** The names [glob] yields in a directory of sessions. *)
Definition sample_sessions : list str :=
  [lit "0007-2026-10-30--parser.md"; lit "notes.md";
   lit "0003-2026-10-02--setup.md"; lit "12345-old.md"].

(** * Properties *)

(** ** Texts: lengths, slices, stripping *)

Lemma len_app (A : Type) (l1 l2 : list A) : len (l1 ++ l2) = len l1 + len l2.
Proof. unfold len. rewrite length_app. lia. Qed.

Lemma len_nonneg (A : Type) (l : list A) : 0 <= len l.
Proof. unfold len. lia. Qed.

Lemma slice_to_nonneg (A : Type) (k : Z) (l : list A) :
  0 <= k -> slice_to k l = firstn (Z.to_nat k) l.
Proof.
  intros Hk. unfold slice_to.
  destruct (Z.ltb_spec k 0); [lia | reflexivity].
Qed.

Lemma len_slice_to (A : Type) (k : Z) (l : list A) :
  0 <= k -> len (slice_to k l) <= k.
Proof.
  intros Hk. rewrite slice_to_nonneg by assumption.
  unfold len. rewrite length_firstn. lia.
Qed.

(** [rstrip] keeps a prefix. *)
Lemma rstrip_prefix (s : str) : exists t, s = rstrip s ++ t.
Proof.
  induction s as [|c s [t IH]]; simpl.
  - exists []. reflexivity.
  - destruct (rstrip s) as [|r rs] eqn:E.
    + destruct (is_space c).
      * exists (c :: s). reflexivity.
      * exists t. simpl. simpl in IH. congruence.
    + exists t. simpl. rewrite IH at 1. reflexivity.
Qed.

Lemma len_rstrip (s : str) : len (rstrip s) <= len s.
Proof.
  destruct (rstrip_prefix s) as [t E].
  rewrite E at 2. rewrite len_app. pose proof (len_nonneg t). lia.
Qed.

Lemma len_marker : len marker = 13.
Proof. reflexivity. Qed.

(** The length bound behind the character limit. *)
Lemma truncate_len_bound (text : str) (max_lines max_chars : Z) :
  20 <= max_chars -> len (truncate text max_lines max_chars) <= max_chars.
Proof.
  intros HC. unfold truncate.
  set (out := join_nl _).
  destruct (Z.gtb_spec (len out) max_chars) as [Hgt|Hle]; [|assumption].
  rewrite len_app.
  pose proof (len_rstrip (slice_to (max_chars - 20) out)).
  pose proof (@len_slice_to char (max_chars - 20) out ltac:(lia)).
  change (len (LF :: marker)) with 14. lia.
Qed.

Lemma truncate_short_limit (max_chars : Z) :
  max_chars < 20 ->
  max_chars < len (truncate (lit "aaaaaaaaaaaaaaaaaaaa") 1 max_chars).
Proof.
  intros HC.
  assert (Hcases : max_chars < 14 \/ max_chars = 14 \/ max_chars = 15 \/
                   max_chars = 16 \/ max_chars = 17 \/ max_chars = 18 \/
                   max_chars = 19) by lia.
  destruct Hcases as [Hlow|Hhigh].
  - unfold truncate.
    change (splitlines (lit "aaaaaaaaaaaaaaaaaaaa"))
      with [lit "aaaaaaaaaaaaaaaaaaaa"].
    change (len [lit "aaaaaaaaaaaaaaaaaaaa"] >? 1) with false.
    cbv iota.
    change (join_nl [lit "aaaaaaaaaaaaaaaaaaaa"])
      with (lit "aaaaaaaaaaaaaaaaaaaa").
    change (len (lit "aaaaaaaaaaaaaaaaaaaa")) with 20.
    destruct (Z.gtb_spec 20 max_chars); [|lia].
    rewrite len_app. change (len (LF :: marker)) with 14.
    pose proof (len_nonneg
      (rstrip (slice_to (max_chars - 20) (lit "aaaaaaaaaaaaaaaaaaaa")))).
    lia.
  - repeat (destruct Hhigh as [->|Hhigh]; [vm_compute; reflexivity|]).
    subst. vm_compute. reflexivity.
Qed.

(** C9. For every text and every [max_lines], when [max_chars >= 20] the
    result of [truncate] has at most [max_chars] characters; below 20 the
    bound is lost: for every such limit some text gives a longer result. *)
Theorem truncate_char_bound :
  (forall text max_lines max_chars,
      20 <= max_chars ->
      len (truncate text max_lines max_chars) <= max_chars)
  /\ (forall max_chars,
      max_chars < 20 ->
      exists text max_lines,
        max_chars < len (truncate text max_lines max_chars)).
Proof.
  split.
  - intros. apply truncate_len_bound. assumption.
  - intros C HC. exists (lit "aaaaaaaaaaaaaaaaaaaa"), 1.
    apply truncate_short_limit. assumption.
Qed.

Lemma truncate_char_bound_witness :
  20 <= 25
  /\ len (truncate (lit "one two three four five six seven") 3 25) <= 25
  /\ 10 < 20
  /\ exists text max_lines, 10 < len (truncate text max_lines 10).
Proof.
  split; [lia|]. split; [apply (proj1 truncate_char_bound); lia|].
  split; [lia|]. apply (proj2 truncate_char_bound). lia.
Defined.

(** ** Splitting and joining *)

Lemma cons_first_length (c : char) (ls : list str) :
  ls <> [] -> List.length (cons_first c ls) = List.length ls.
Proof. destruct ls; [congruence | reflexivity]. Qed.

Lemma split_on_nonnil (sep : char) (s : str) : split_on sep s <> [].
Proof.
  induction s as [|c s IH]; simpl; [discriminate|].
  destruct (N.eqb c sep); [discriminate|].
  destruct (split_on sep s); [congruence | discriminate].
Qed.

Lemma join_on_cons (sep : char) (p : str) (ps : list str) :
  ps <> [] -> join_on sep (p :: ps) = p ++ sep :: join_on sep ps.
Proof. destruct ps; [congruence | reflexivity]. Qed.

Lemma join_on_snoc (sep : char) (ps : list str) (m : str) :
  ps <> [] -> join_on sep (ps ++ [m]) = join_on sep ps ++ sep :: m.
Proof.
  induction ps as [|p ps IH]; [congruence|]. intros _.
  destruct ps as [|q ps].
  - reflexivity.
  - change ((p :: q :: ps) ++ [m]) with (p :: ((q :: ps) ++ [m])).
    rewrite join_on_cons by (destruct ps; discriminate).
    rewrite IH by discriminate.
    rewrite (@join_on_cons sep p (q :: ps)) by discriminate.
    rewrite <- app_assoc. reflexivity.
Qed.

Lemma join_split_on (sep : char) (s : str) :
  join_on sep (split_on sep s) = s.
Proof.
  induction s as [|c s IH]; [reflexivity|]. simpl.
  destruct (N.eqb_spec c sep) as [->|Hne].
  - rewrite join_on_cons by apply split_on_nonnil. rewrite IH. reflexivity.
  - pose proof (split_on_nonnil sep s) as Hnn.
    destruct (split_on sep s) as [|l ls]; [congruence|].
    simpl. destruct ls; simpl in *; rewrite <- IH; reflexivity.
Qed.

Lemma split_on_line (sep : char) (l : str) :
  ~ In sep l -> split_on sep l = [l].
Proof.
  induction l as [|c l IH]; intros Hn; [reflexivity|]. simpl.
  destruct (N.eqb_spec c sep) as [->|Hne].
  - exfalso. apply Hn. left. reflexivity.
  - rewrite IH; [reflexivity|]. intros Hin. apply Hn. right. assumption.
Qed.

Lemma split_on_app_sep (sep : char) (l r : str) :
  ~ In sep l -> split_on sep (l ++ sep :: r) = l :: split_on sep r.
Proof.
  induction l as [|c l IH]; intros Hn; simpl.
  - rewrite N.eqb_refl. reflexivity.
  - destruct (N.eqb_spec c sep) as [->|Hne].
    + exfalso. apply Hn. left. reflexivity.
    + rewrite IH; [reflexivity|]. intros Hin. apply Hn. right. assumption.
Qed.

(** Splitting undoes joining when no part holds the separator. *)
Lemma split_join_on (sep : char) (ps : list str) :
  Forall (fun p => ~ In sep p) ps -> ps <> [] ->
  split_on sep (join_on sep ps) = ps.
Proof.
  induction ps as [|p ps IH]; [congruence|]. intros HF _.
  inversion HF as [|? ? Hp HF']; subst.
  destruct ps as [|q ps].
  - simpl. apply split_on_line. assumption.
  - rewrite join_on_cons by discriminate.
    rewrite split_on_app_sep by assumption.
    rewrite IH; [reflexivity | assumption | discriminate].
Qed.

Lemma length_split_on (sep : char) (s : str) :
  List.length (split_on sep s) = S (count_occ N.eq_dec s sep).
Proof.
  induction s as [|c s IH]; [reflexivity|]. simpl.
  destruct (N.eqb_spec c sep) as [->|Hne].
  - destruct (N.eq_dec sep sep); [|congruence]. simpl. rewrite IH. reflexivity.
  - destruct (N.eq_dec c sep); [congruence|].
    rewrite cons_first_length by apply split_on_nonnil. assumption.
Qed.

Lemma split_on_chars (sep : char) (s l : str) (c : char) :
  In l (split_on sep s) -> In c l -> In c s /\ c <> sep.
Proof.
  revert l. induction s as [|d s IH]; intros l Hl Hc; simpl in Hl.
  - destruct Hl as [<-|[]]. destruct Hc.
  - destruct (N.eqb_spec d sep) as [->|Hne].
    + destruct Hl as [<-|Hl]; [destruct Hc|].
      destruct (IH _ Hl Hc). split; [right|]; assumption.
    + pose proof (split_on_nonnil sep s) as Hnn.
      destruct (split_on sep s) as [|l0 ls]; [congruence|].
      simpl in Hl. destruct Hl as [<-|Hl].
      * destruct Hc as [<-|Hc]; [split; [left; reflexivity | assumption]|].
        destruct (IH l0 (or_introl eq_refl) Hc). split; [right|]; assumption.
      * destruct (IH l (or_intror Hl) Hc). split; [right|]; assumption.
Qed.

Lemma join_on_chars (sep : char) (ps : list str) (c : char) :
  In c (join_on sep ps) -> c = sep \/ exists p, In p ps /\ In c p.
Proof.
  induction ps as [|p ps IH]; intros Hc; [destruct Hc|].
  destruct ps as [|q ps].
  - right. exists p. split; [left; reflexivity | assumption].
  - rewrite join_on_cons in Hc by discriminate.
    apply in_app_or in Hc. destruct Hc as [Hc|[<-|Hc]].
    + right. exists p. split; [left; reflexivity | assumption].
    + left. reflexivity.
    + destruct (IH Hc) as [->|[p' [Hp' Hc']]]; [left; reflexivity|].
      right. exists p'. split; [right|]; assumption.
Qed.

Lemma count_occ_firstn (n : nat) (s : str) (c : char) :
  (count_occ N.eq_dec (firstn n s) c <= count_occ N.eq_dec s c)%nat.
Proof.
  pose proof (count_occ_app N.eq_dec (firstn n s) (skipn n s) c) as H.
  rewrite firstn_skipn in H. lia.
Qed.

(** ** Lines *)

Lemma plain_cons (c : char) (l : str) :
  plain (c :: l) -> is_linebreak c = false /\ plain l.
Proof.
  intros H. split.
  - apply H. left. reflexivity.
  - intros d Hd. apply H. right. assumption.
Qed.

Lemma plain_marker : plain marker.
Proof.
  intros c Hc. vm_compute in Hc.
  repeat (destruct Hc as [<-|Hc]; [reflexivity|]). destruct Hc.
Qed.

Lemma plain_no_LF (l : str) : plain l -> ~ In LF l.
Proof. intros H Hin. specialize (H _ Hin). discriminate. Qed.

Lemma splitlines_line (l : str) :
  plain l -> l <> [] -> splitlines l = [l].
Proof.
  induction l as [|c l IH]; intros Hp Hne; [congruence|].
  apply plain_cons in Hp. destruct Hp as [Hc Hp].
  simpl. rewrite Hc.
  destruct l as [|d l]; [reflexivity|].
  rewrite IH by (assumption || discriminate). reflexivity.
Qed.

Lemma splitlines_app_LF (l r : str) :
  plain l -> splitlines (l ++ LF :: r) = l :: splitlines r.
Proof.
  induction l as [|c l IH]; intros Hp.
  - simpl. destruct r; reflexivity.
  - apply plain_cons in Hp. destruct Hp as [Hc Hp].
    change (splitlines ((c :: l) ++ LF :: r))
      with (if is_linebreak c
            then [] :: match l ++ LF :: r with
                       | d :: s'' =>
                           if (N.eqb c CR && N.eqb d LF)%bool
                           then splitlines s''
                           else splitlines (l ++ LF :: r)
                       | [] => []
                       end
            else cons_first c (splitlines (l ++ LF :: r))).
    rewrite Hc, IH by assumption. reflexivity.
Qed.

Lemma last_cons (A : Type) (a d : A) (l : list A) :
  last (a :: l) d = last l a.
Proof.
  revert a d. induction l as [|b l IH]; intros a d; [reflexivity|].
  change (last (a :: b :: l) d) with (last (b :: l) d).
  rewrite !IH. reflexivity.
Qed.

(** Cutting into lines undoes joining, for lines that hold no boundary and
    do not end in an empty line. *)
Lemma splitlines_join (ls : list str) :
  Forall plain ls -> open_end ls = true -> splitlines (join_nl ls) = ls.
Proof.
  unfold join_nl.
  induction ls as [|l ls IH]; intros HF Ho; [reflexivity|].
  inversion HF as [|? ? Hl HF']; subst.
  destruct ls as [|l2 ls].
  - simpl in *. apply splitlines_line; [assumption|].
    destruct l; [discriminate | discriminate].
  - rewrite join_on_cons by discriminate.
    rewrite splitlines_app_LF by assumption.
    rewrite IH; [reflexivity | assumption |].
    unfold open_end in *. rewrite last_cons in Ho. assumption.
Qed.

Lemma cons_first_plain (c : char) (ls : list str) :
  is_linebreak c = false -> Forall plain ls -> Forall plain (cons_first c ls).
Proof.
  intros Hc HF. destruct ls as [|l ls]; simpl.
  - constructor; [|constructor]. intros d [<-|[]]. assumption.
  - inversion HF; subst. constructor; [|assumption].
    intros d [<-|Hd]; [assumption|]. auto.
Qed.

Lemma splitlines_plain_bounded (n : nat) (s : str) :
  (List.length s <= n)%nat -> Forall plain (splitlines s).
Proof.
  revert s. induction n as [|n IH]; intros s Hn.
  - destruct s; [constructor | simpl in Hn; lia].
  - destruct s as [|c s]; [constructor|]. simpl in Hn. simpl.
    destruct (is_linebreak c) eqn:Hc.
    + constructor; [intros d []|].
      destruct s as [|d s]; [constructor|].
      destruct (N.eqb c CR && N.eqb d LF)%bool.
      * apply IH. simpl in Hn. lia.
      * apply IH. lia.
    + apply cons_first_plain; [assumption|]. apply IH. lia.
Qed.

Lemma splitlines_plain (s : str) : Forall plain (splitlines s).
Proof. apply (@splitlines_plain_bounded (List.length s)). lia. Qed.

Lemma Forall_firstn (A : Type) (P : A -> Prop) (n : nat) (l : list A) :
  Forall P l -> Forall P (firstn n l).
Proof.
  intros H. rewrite Forall_forall in *. intros x Hx.
  apply H. rewrite <- (firstn_skipn n l). apply in_or_app. left. assumption.
Qed.

(** ** Truncation is a fixed point on its own results *)

(** A text that [truncate] gives back as it is. *)
Lemma truncate_fixed (s : str) (max_lines max_chars : Z) :
  0 <= max_lines ->
  join_nl (splitlines s) = s ->
  (len (splitlines s) <= max_lines
   \/ exists pre, splitlines s = pre ++ [marker] /\ len pre = max_lines) ->
  len s <= max_chars ->
  truncate s max_lines max_chars = s.
Proof.
  intros HL Hjoin Hlines Hlen. unfold truncate.
  destruct (Z.gtb_spec (len (splitlines s)) max_lines) as [Hgt|Hle].
  - destruct Hlines as [Hle|[pre [Hpre Hn]]]; [lia|].
    rewrite slice_to_nonneg by assumption.
    rewrite Hpre. rewrite firstn_app.
    unfold len in Hn.
    replace (Z.to_nat max_lines) with (List.length pre) by lia.
    rewrite firstn_all, Nat.sub_diag. simpl firstn. rewrite app_nil_r.
    rewrite <- Hpre, Hjoin.
    destruct (Z.gtb_spec (len s) max_chars); [lia | reflexivity].
  - rewrite Hjoin.
    destruct (Z.gtb_spec (len s) max_chars); [lia | reflexivity].
Qed.

Lemma open_end_snoc (pre : list str) (m : str) :
  truthy m = true -> open_end (pre ++ [m]) = true.
Proof.
  intros Hm. destruct pre as [|p pre]; simpl; [assumption|].
  rewrite last_last. assumption.
Qed.

Lemma Forall_no_LF (ls : list str) :
  Forall plain ls -> Forall (fun l => ~ In LF l) ls.
Proof.
  intros H. eapply Forall_impl; [|exact H]. intros l. apply plain_no_LF.
Qed.

Lemma count_LF_join (ls : list str) :
  Forall plain ls -> ls <> [] ->
  S (count_occ N.eq_dec (join_nl ls) LF) = List.length ls.
Proof.
  intros HF Hne. rewrite <- length_split_on. unfold join_nl.
  rewrite split_join_on; [reflexivity | apply Forall_no_LF; assumption | assumption].
Qed.

(** The lines kept by the line limit. *)
Lemma cut_lines (lines : list str) (max_lines : Z) :
  0 <= max_lines -> Forall plain lines -> open_end lines = true ->
  let kept := if len lines >? max_lines
              then slice_to max_lines lines ++ [marker] else lines in
  Forall plain kept /\ open_end kept = true /\
  (len kept <= max_lines
   \/ exists pre, kept = pre ++ [marker] /\ len pre = max_lines).
Proof.
  intros HL HF Ho. cbv zeta.
  destruct (Z.gtb_spec (len lines) max_lines) as [Hgt|Hle].
  - rewrite slice_to_nonneg by assumption. split; [|split].
    + apply Forall_app. split; [apply Forall_firstn; assumption|].
      constructor; [apply plain_marker | constructor].
    + apply open_end_snoc. reflexivity.
    + right. eexists. split; [reflexivity|].
      unfold len in *. rewrite length_firstn. lia.
  - split; [assumption | split; [assumption | left; assumption]].
Qed.

(** A result of [truncate] is a fixed point of the two cuts. *)
Lemma truncate_normal (text : str) (max_lines max_chars : Z) :
  0 <= max_lines -> 20 <= max_chars -> ends_in_open_line text = true ->
  let r := truncate text max_lines max_chars in
  join_nl (splitlines r) = r
  /\ (len (splitlines r) <= max_lines
      \/ exists pre, splitlines r = pre ++ [marker] /\ len pre = max_lines).
Proof.
  intros HL HC Ho. cbv zeta. unfold truncate.
  destruct (@cut_lines (splitlines text) max_lines HL (splitlines_plain text) Ho)
    as [HF [Hoe Hcount]].
  set (kept := if len (splitlines text) >? max_lines
               then slice_to max_lines (splitlines text) ++ [marker]
               else splitlines text) in *.
  set (out := join_nl kept).
  assert (Hsplit : splitlines out = kept) by (apply splitlines_join; assumption).
  destruct (Z.gtb_spec (len out) max_chars) as [Hgt|Hle].
  2:{ rewrite Hsplit. split; [reflexivity | assumption]. }
  rewrite slice_to_nonneg by lia.
  set (k := Z.to_nat (max_chars - 20)).
  destruct (rstrip_prefix (firstn k out)) as [t Ht].
  set (P := rstrip (firstn k out)) in *.
  set (ps := split_on LF P).
  assert (Hps : join_on LF ps = P) by apply join_split_on.
  assert (Hnn : ps <> []) by apply split_on_nonnil.
  assert (HPin : forall c, In c P -> In c out).
  { intros c Hc. rewrite <- (firstn_skipn k out). apply in_or_app. left.
    rewrite Ht. apply in_or_app. left. assumption. }
  assert (HFps : Forall plain ps).
  { rewrite Forall_forall. intros l Hl c Hc.
    destruct (split_on_chars _ _ _ c Hl Hc) as [HcP Hne].
    destruct (join_on_chars _ _ _ (HPin _ HcP)) as [->|[l' [Hl' Hc']]];
      [congruence|].
    rewrite Forall_forall in HF. exact (HF _ Hl' _ Hc'). }
  assert (Hr : P ++ LF :: marker = join_nl (ps ++ [marker])).
  { unfold join_nl. rewrite join_on_snoc by assumption. rewrite Hps.
    reflexivity. }
  rewrite Hr.
  assert (Hsr : splitlines (join_nl (ps ++ [marker])) = ps ++ [marker]).
  { apply splitlines_join.
    - apply Forall_app. split; [assumption|].
      constructor; [apply plain_marker | constructor].
    - apply open_end_snoc. reflexivity. }
  rewrite Hsr. split; [reflexivity|].
  assert (Hcnt : (count_occ N.eq_dec P LF <= count_occ N.eq_dec (firstn k out) LF)%nat).
  { rewrite Ht. rewrite count_occ_app. apply Nat.le_add_r. }
  assert (Hlen : (List.length ps <= Z.to_nat max_lines)%nat).
  { unfold ps. rewrite length_split_on.
    destruct Hcount as [Hle|[pre [Hpre Hn]]].
    - assert (kept <> []).
      { intros E. unfold out in Hgt. rewrite E in Hgt. simpl in Hgt.
        unfold len in Hgt. simpl in Hgt. lia. }
      pose proof (count_LF_join HF H) as Hc.
      pose proof (count_occ_firstn k out LF) as Hf.
      fold out in Hc. unfold len in Hle. lia.
    - destruct pre as [|p pre].
      + exfalso. unfold out in Hgt. rewrite Hpre in Hgt.
        change (len (join_nl ([] ++ [marker]))) with 13 in Hgt. lia.
      + assert (HFpre : Forall plain (p :: pre)).
        { rewrite Hpre in HF. apply Forall_app in HF. tauto. }
        pose proof (@count_LF_join (p :: pre) HFpre ltac:(discriminate)) as Hc.
        assert (Hout : out = join_nl (p :: pre) ++ LF :: marker).
        { unfold out. rewrite Hpre. unfold join_nl.
          apply join_on_snoc. discriminate. }
        assert (Hk : (k <= List.length (join_nl (p :: pre)))%nat).
        { rewrite Hout in Hgt. rewrite len_app in Hgt.
          change (len (LF :: marker)) with 14 in Hgt.
          unfold len in Hgt. unfold k. lia. }
        assert (Hfirst : firstn k out = firstn k (join_nl (p :: pre))).
        { rewrite Hout. rewrite firstn_app.
          replace (k - List.length (join_nl (p :: pre)))%nat with 0%nat by lia.
          simpl firstn at 2. apply app_nil_r. }
        rewrite Hfirst in Hcnt.
        pose proof (count_occ_firstn k (join_nl (p :: pre)) LF) as Hf.
        unfold len in Hn. lia. }
  destruct (Nat.eq_dec (List.length ps) (Z.to_nat max_lines)) as [Heq|Hneq].
  - right. exists ps. split; [reflexivity|]. unfold len. lia.
  - left. unfold len. rewrite length_app. simpl. lia.
Qed.

(** C3, as stated, fails: a text that ends in an empty line loses one
    line terminator at each application; a negative line limit cuts further
    each time; a character limit below 20 counts its cut from the end. *)
Lemma truncate_twice_differs :
  truncate (lit "a" ++ [LF; LF]) 10 100 = lit "a" ++ [LF]
  /\ truncate (truncate (lit "a" ++ [LF; LF]) 10 100) 10 100 = lit "a"
  /\ truncate (truncate (lit "a" ++ LF :: lit "b" ++ LF :: lit "c") (-2) 100)
       (-2) 100
     <> truncate (lit "a" ++ LF :: lit "b" ++ LF :: lit "c") (-2) 100
  /\ truncate (truncate (lit "aaaaaaaaaaaaaaaaaaaa") 10 5) 10 5
     <> truncate (lit "aaaaaaaaaaaaaaaaaaaa") 10 5.
Proof.
  repeat split; try reflexivity; vm_compute; discriminate.
Qed.

(** C3, amended. For every text that does not end in an empty line and all
    limits with [max_lines >= 0] and [max_chars >= 20], applying [truncate]
    to its own result with the same limits gives that result again. *)
Theorem truncate_idempotent (text : str) (max_lines max_chars : Z) :
  0 <= max_lines -> 20 <= max_chars -> ends_in_open_line text = true ->
  truncate (truncate text max_lines max_chars) max_lines max_chars
  = truncate text max_lines max_chars.
Proof.
  intros HL HC Ho.
  destruct (truncate_normal text HL HC Ho) as [Hjoin Hlines].
  apply truncate_fixed; try assumption.
  apply truncate_len_bound. assumption.
Qed.

Lemma truncate_idempotent_witness :
  let text := lit "one" ++ LF :: lit "two" ++ LF :: lit "three and four" in
  0 <= 2 /\ 20 <= 40 /\ ends_in_open_line text = true
  /\ truncate (truncate text 2 40) 2 40 = truncate text 2 40.
Proof.
  cbv zeta. split; [lia|]. split; [lia|]. split; [reflexivity|].
  apply truncate_idempotent; [lia | lia | reflexivity].
Defined.

(** ** Names, membership and path texts *)

Lemma str_eqb_eq (a b : str) : str_eqb a b = true <-> a = b.
Proof.
  revert b. induction a as [|x a IH]; intros [|y b]; simpl;
    try (split; [discriminate | congruence]); [tauto|].
  rewrite andb_true_iff, N.eqb_eq, IH. split.
  - intros [-> ->]. reflexivity.
  - intros E. inversion E. tauto.
Qed.

Lemma mem_In (part : str) (names : list str) :
  mem part names = true <-> In part names.
Proof.
  unfold mem. rewrite existsb_exists. split.
  - intros [x [Hx E]]. apply str_eqb_eq in E. subst. assumption.
  - intros H. exists part. split; [assumption | apply str_eqb_eq; reflexivity].
Qed.

Lemma kept_wf_name (x : str) : wf_name x -> kept_component x = true.
Proof.
  intros [Hne [_ Hdot]]. unfold kept_component.
  destruct (str_eqb x [DOT]) eqn:E.
  - apply str_eqb_eq in E. congruence.
  - destruct x; [congruence | reflexivity].
Qed.

Lemma join_sep_head (p : str) (ps : list str) :
  exists t, join_sep (p :: ps) = p ++ t.
Proof.
  destruct ps as [|q ps].
  - exists []. simpl. rewrite app_nil_r. reflexivity.
  - eexists. apply join_on_cons. discriminate.
Qed.

(** Reading the text of a relative path gives its parts back. *)
Lemma parse_path_str (parts : list str) :
  parts <> [] -> Forall wf_name parts ->
  parse_parts (path_str parts) = ([], parts).
Proof.
  intros Hne HF. destruct parts as [|p ps]; [congruence|].
  unfold path_str.
  assert (Hrel : str_eqb p [SEP] || str_eqb p [SEP; SEP] = false).
  { inversion HF as [|? ? [_ [Hsep _]] _]; subst.
    destruct p as [|c p]; [reflexivity|]. cbn [str_eqb].
    destruct (N.eqb_spec c SEP) as [->|_]; [|reflexivity].
    exfalso. apply Hsep. left. reflexivity. }
  rewrite Hrel. unfold parse_parts.
  assert (Hroot : splitroot (join_sep (p :: ps)) = ([], join_sep (p :: ps))).
  { destruct (join_sep_head p ps) as [t Ht]. rewrite Ht.
    inversion HF as [|? ? [Hp [Hsep _]] _]; subst.
    destruct p as [|c p]; [congruence|]. simpl.
    destruct (N.eqb_spec c SEP) as [->|_]; [|reflexivity].
    exfalso. apply Hsep. left. reflexivity. }
  rewrite Hroot. simpl truthy. cbv iota. f_equal.
  unfold split_sep, join_sep. rewrite split_join_on.
  - apply forallb_filter_id. apply forallb_forall. intros x Hx.
    rewrite Forall_forall in HF. apply kept_wf_name. auto.
  - eapply Forall_impl; [|exact HF]. intros x [_ [H _]]. assumption.
  - discriminate.
Qed.

(** ** Matching from the right *)

Section MatchFromRight.

Variable fnmatchcase : str -> str -> bool.

Local Abbreviation matches := (fun part pat : str => fnmatchcase part pat = true).

Lemma combine_app_same_length (A B : Type) (a b : list A) (c : list B) :
  List.length a = List.length c -> combine (a ++ b) c = combine a c.
Proof.
  revert c. induction a as [|x a IH]; intros [|y c] H; simpl in *;
    try discriminate.
  - destruct b; reflexivity.
  - rewrite IH by lia. reflexivity.
Qed.

Lemma forallb_combine (a b : list str) :
  List.length a = List.length b ->
  (forallb (fun pp => fnmatchcase (fst pp) (snd pp)) (combine a b) = true
   <-> Forall2 matches a b).
Proof.
  revert b. induction a as [|x a IH]; intros [|y b] H; simpl in *;
    try discriminate.
  - split; [constructor | reflexivity].
  - rewrite andb_true_iff, IH by lia. split.
    + intros [Hxy Hab]. constructor; assumption.
    + intros HF. inversion HF; subst. split; assumption.
Qed.

Lemma Forall2_rev (a b : list str) :
  Forall2 matches a b -> Forall2 matches (rev a) (rev b).
Proof.
  induction 1; simpl; [constructor|].
  apply Forall2_app; [assumption|]. constructor; [assumption | constructor].
Qed.

Lemma Forall2_rev_iff (a b : list str) :
  Forall2 matches (rev a) (rev b) <-> Forall2 matches a b.
Proof.
  split; [|apply Forall2_rev].
  intros H. apply Forall2_rev in H. rewrite !rev_involutive in H. assumption.
Qed.

(** The loop of [match] holds exactly when the pattern parts match the
    last parts of the path. *)
Lemma match_reversed_spec (parts pat_parts : list str) :
  (List.length pat_parts <= List.length parts)%nat ->
  (match_reversed fnmatchcase parts pat_parts = true
   <-> suffix_match fnmatchcase parts pat_parts).
Proof.
  intros Hlen. unfold match_reversed, suffix_match.
  set (n := (List.length parts - List.length pat_parts)%nat).
  assert (Hsplit : parts = firstn n parts ++ skipn n parts)
    by (symmetry; apply firstn_skipn).
  assert (Hsuf : List.length (skipn n parts) = List.length pat_parts)
    by (rewrite length_skipn; unfold n; lia).
  assert (Hcomb : combine (rev parts) (rev pat_parts)
                  = combine (rev (skipn n parts)) (rev pat_parts)).
  { rewrite Hsplit at 1. rewrite rev_app_distr.
    apply combine_app_same_length. rewrite !length_rev. assumption. }
  rewrite Hcomb, forallb_combine by (rewrite !length_rev; assumption).
  rewrite Forall2_rev_iff. split.
  - intros HF. exists (firstn n parts), (skipn n parts). split; assumption.
  - intros [pre [suf [E HF]]].
    assert (Hl : List.length suf = List.length pat_parts)
      by (eapply Forall2_length; exact HF).
    assert (Hpre : List.length pre = n).
    { unfold n. rewrite E, length_app. lia. }
    rewrite E, <- Hpre, skipn_app, skipn_all, Nat.sub_diag. assumption.
Qed.

Lemma suffix_match_length (parts pat_parts : list str) :
  suffix_match fnmatchcase parts pat_parts ->
  (List.length pat_parts <= List.length parts)%nat.
Proof.
  intros [pre [suf [E HF]]]. apply Forall2_length in HF.
  rewrite E, length_app. lia.
Qed.

(** [match] on the text of a relative path. *)
Lemma path_match_relative (rel : list str) (pattern : str) :
  rel <> [] -> Forall wf_name rel -> snd (parse_parts pattern) <> [] ->
  exists b,
    path_match fnmatchcase (path_str rel) pattern = Return b
    /\ (b = true <->
        fst (parse_parts pattern) = []
        /\ suffix_match fnmatchcase rel (snd (parse_parts pattern))).
Proof.
  intros Hne HF Hpat. unfold path_match.
  rewrite parse_path_str by assumption.
  destruct (parse_parts pattern) as [proot pats]. simpl in *.
  destruct pats as [|pat pats]; [congruence|].
  destruct proot as [|r proot].
  - simpl truthy. simpl andb. cbv iota.
    destruct (Nat.ltb_spec (List.length rel) (List.length (pat :: pats))).
    + exists false. split; [reflexivity|]. split; [discriminate|].
      intros [_ Hs]. apply suffix_match_length in Hs. lia.
    + eexists. split; [reflexivity|].
      rewrite match_reversed_spec by assumption. tauto.
  - exists false. split; [reflexivity|].
    split; [discriminate | intros [E _]; discriminate].
Qed.

Lemma matches_any_glob_relative (rel : list str) (globs : list str) :
  rel <> [] -> Forall wf_name rel ->
  valid_globs globs ->
  exists b,
    _matches_any_glob fnmatchcase (path_str rel) globs = Return b
    /\ (b = true <->
        exists g, In g globs /\ fst (parse_parts g) = []
                  /\ suffix_match fnmatchcase rel (snd (parse_parts g))).
Proof.
  intros Hne HF HG. unfold valid_globs in HG.
  induction HG as [|g globs Hg HG IH]; simpl.
  - exists false. split; [reflexivity|].
    split; [discriminate | intros [g [[] _]]].
  - destruct (path_match_relative g Hne HF Hg) as [b [Hb Hspec]].
    rewrite Hb. simpl. destruct b.
    + exists true. split; [reflexivity|]. split; [|reflexivity].
      intros _. exists g. split; [left; reflexivity | apply Hspec; reflexivity].
    + destruct IH as [b' [Hb' Hspec']]. exists b'. split; [assumption|].
      rewrite Hspec'. split.
      * intros [g' [Hin H']]. exists g'. split; [right; assumption | assumption].
      * intros [g' [[<-|Hin] H']].
        -- apply Hspec in H'. discriminate.
        -- exists g'. split; assumption.
Qed.

End MatchFromRight.

(** ** Exclusion filter *)

Lemma excluded_segment_iff (rel names : list str) :
  existsb (fun part => mem part names) rel = true
  <-> exists part, In part rel /\ In part names.
Proof.
  rewrite existsb_exists. split; intros [part [H1 H2]]; exists part;
    (split; [assumption | apply mem_In; assumption]).
Qed.

Lemma should_skip_excluded_name (fnmatchcase : str -> str -> bool)
    (rel : list str) (is_dir : bool) (names globs : list str) :
  (exists part, In part rel /\ In part names) ->
  _should_skip fnmatchcase rel is_dir names globs = Return true.
Proof.
  intros H. apply excluded_segment_iff in H. unfold _should_skip.
  rewrite H. reflexivity.
Qed.

Lemma should_skip_kept_segments (fnmatchcase : str -> str -> bool)
    (rel : list str) (is_dir : bool) (names globs : list str) :
  _should_skip fnmatchcase rel is_dir names globs = Return false ->
  forall part, In part rel -> ~ In part names.
Proof.
  unfold _should_skip. intros H part Hin Hnames.
  assert (E : existsb (fun part => mem part names) rel = true)
    by (apply excluded_segment_iff; exists part; split; assumption).
  rewrite E in H. discriminate.
Qed.

(** C2, as stated, fails: the pattern ["b/*.py"] excludes the file
    ["a/b/c.py"], and ["*.pyc"] excludes ["out/x.pyc"], though neither
    pattern matches the whole path text. *)
Lemma glob_excludes_on_suffix :
  path_str [lit "a"; lit "b"; lit "c.py"] = lit "a/b/c.py"
  /\ _should_skip fnmatch_plain [lit "a"; lit "b"; lit "c.py"] false []
       [lit "b/*.py"] = Return true
  /\ shell_glob (lit "b/*.py") (lit "a/b/c.py") = false
  /\ path_str [lit "out"; lit "x.pyc"] = lit "out/x.pyc"
  /\ _should_skip fnmatch_plain [lit "out"; lit "x.pyc"] false []
       [lit "*.pyc"] = Return true
  /\ shell_glob (lit "*.pyc") (lit "out/x.pyc") = false.
Proof. repeat split; vm_compute; reflexivity. Qed.

(** C2, amended. For every relative path of a non-directory with no
    segment among the excluded names, and every list of non-empty patterns,
    the filter answers, and it answers true exactly when some relative
    pattern, cut into its parts, has no more parts than the path and each
    part matches the path part at the same place counted from the right:
    the pattern may cover the base name alone or any trailing run of
    parts. *)
Theorem should_skip_glob_from_right (fnmatchcase : str -> str -> bool)
    (rel names globs : list str) :
  rel <> [] -> Forall wf_name rel ->
  (forall part, In part rel -> ~ In part names) ->
  valid_globs globs ->
  exists b,
    _should_skip fnmatchcase rel false names globs = Return b
    /\ (b = true <->
        exists g, In g globs /\ fst (parse_parts g) = []
                  /\ suffix_match fnmatchcase rel (snd (parse_parts g))).
Proof.
  intros Hne HF Hnames HG. unfold _should_skip.
  destruct (existsb (fun part => mem part names) rel) eqn:E.
  - apply excluded_segment_iff in E. destruct E as [part [H1 H2]].
    exfalso. exact (Hnames _ H1 H2).
  - simpl negb. cbv iota.
    destruct (matches_any_glob_relative fnmatchcase Hne HF HG) as [b [Hb Hspec]].
    rewrite Hb. simpl. exists b. split; [destruct b; reflexivity | assumption].
Qed.

Lemma should_skip_glob_from_right_witness :
  let rel := [lit "a"; lit "b"; lit "c.py"] in
  let names := [lit "node_modules"] in
  let globs := [lit "**/*.pyc"; lit "b/*.py"] in
  rel <> [] /\ Forall wf_name rel
  /\ (forall part, In part rel -> ~ In part names)
  /\ valid_globs globs
  /\ exists b,
      _should_skip fnmatch_plain rel false names globs = Return b
      /\ (b = true <->
          exists g, In g globs /\ fst (parse_parts g) = []
                    /\ suffix_match fnmatch_plain rel (snd (parse_parts g))).
Proof.
  cbv zeta.
  assert (H1 : [lit "a"; lit "b"; lit "c.py"] <> []) by discriminate.
  assert (H2 : Forall wf_name [lit "a"; lit "b"; lit "c.py"]).
  { repeat constructor; try discriminate;
      intros H; vm_compute in H; decompose [or] H; discriminate || assumption. }
  assert (H3 : forall part, In part [lit "a"; lit "b"; lit "c.py"] ->
                            ~ In part [lit "node_modules"]).
  { intros part Hin Hn. vm_compute in Hin, Hn.
    decompose [or] Hn; try assumption. subst.
    decompose [or] Hin; discriminate || assumption. }
  assert (H4 : valid_globs [lit "**/*.pyc"; lit "b/*.py"]).
  { repeat constructor; vm_compute; discriminate. }
  split; [exact H1|]. split; [exact H2|]. split; [exact H3|].
  split; [exact H4|].
  exact (@should_skip_glob_from_right fnmatch_plain _ _ _ H1 H2 H3 H4).
Defined.

(** ** The order of texts and of sort keys *)

Lemma str_ltb_irrefl (a : str) : str_ltb a a = false.
Proof.
  induction a as [|x a IH]; [reflexivity|]. simpl.
  rewrite N.ltb_irrefl. assumption.
Qed.

Lemma str_ltb_asym (a b : str) : str_ltb a b = true -> str_ltb b a = false.
Proof.
  revert b. induction a as [|x a IH]; intros [|y b]; simpl; try congruence.
  destruct (N.ltb_spec x y), (N.ltb_spec y x); try congruence; try lia.
  apply IH.
Qed.

(** If [c < a] then every [b] is above [c] or below [a]. *)
Lemma str_ltb_cotrans (c a b : str) :
  str_ltb c a = true -> str_ltb c b = true \/ str_ltb b a = true.
Proof.
  revert a b. induction c as [|x c IH]; intros [|y a] [|z b]; simpl;
    try discriminate; try tauto.
  destruct (N.ltb_spec x y), (N.ltb_spec y x), (N.ltb_spec x z),
    (N.ltb_spec z x), (N.ltb_spec z y), (N.ltb_spec y z);
    try lia; try tauto; try discriminate.
  apply IH.
Qed.

Lemma key_ltb_asym (k1 k2 : bool * str) :
  key_ltb k1 k2 = true -> key_ltb k2 k1 = false.
Proof.
  destruct k1 as [[] s1], k2 as [[] s2]; unfold key_ltb; simpl;
    try congruence; apply str_ltb_asym.
Qed.

Lemma key_ltb_cotrans (c a b : bool * str) :
  key_ltb c a = true -> key_ltb c b = true \/ key_ltb b a = true.
Proof.
  destruct c as [[] sc], a as [[] sa], b as [[] sb]; unfold key_ltb; simpl;
    try discriminate; try tauto; apply str_ltb_cotrans.
Qed.

(** ** The sort of a directory level *)

Section Sorting.

Variable lower : str -> str.

Lemma entry_le_trans : transitive dirent (entry_le lower).
Proof.
  intros a b c Hab Hbc. unfold entry_le in *.
  destruct (key_ltb (sort_key lower c) (sort_key lower a)) eqn:E;
    [|reflexivity].
  destruct (key_ltb_cotrans _ _ (sort_key lower b) E); congruence.
Qed.

Lemma insert_entry_hd (p q : dirent) (l : list dirent) :
  HdRel (entry_le lower) q l -> entry_le lower q p ->
  HdRel (entry_le lower) q (insert_entry lower p l).
Proof.
  intros Hl Hp. destruct l as [|r l]; simpl.
  - constructor. assumption.
  - destruct (key_ltb (sort_key lower r) (sort_key lower p));
      constructor; [inversion Hl|]; assumption.
Qed.

Lemma insert_entry_sorted (p : dirent) (l : list dirent) :
  Sorted (entry_le lower) l -> Sorted (entry_le lower) (insert_entry lower p l).
Proof.
  induction 1 as [|q l Hs IH Hhd]; simpl.
  - constructor; constructor.
  - destruct (key_ltb (sort_key lower q) (sort_key lower p)) eqn:E.
    + constructor; [assumption|]. apply insert_entry_hd; [assumption|].
      unfold entry_le. apply key_ltb_asym. assumption.
    + constructor; [constructor; assumption|]. constructor. exact E.
Qed.

Lemma sort_entries_sorted (l : list dirent) :
  StronglySorted (entry_le lower) (sort_entries lower l).
Proof.
  apply Sorted_StronglySorted; [exact entry_le_trans|].
  induction l as [|p l IH]; simpl; [constructor|].
  apply insert_entry_sorted. assumption.
Qed.

Lemma insert_entry_perm (p : dirent) (l : list dirent) :
  Permutation (insert_entry lower p l) (p :: l).
Proof.
  induction l as [|q l IH]; simpl; [reflexivity|].
  destruct (key_ltb (sort_key lower q) (sort_key lower p)); [|reflexivity].
  rewrite IH. apply perm_swap.
Qed.

Lemma sort_entries_perm (l : list dirent) :
  Permutation (sort_entries lower l) l.
Proof.
  induction l as [|p l IH]; simpl; [reflexivity|].
  rewrite insert_entry_perm. constructor. assumption.
Qed.

Lemma strongly_sorted_tail (l1 l2 : list dirent) :
  StronglySorted (entry_le lower) (l1 ++ l2) ->
  StronglySorted (entry_le lower) l2.
Proof.
  induction l1 as [|a l1 IH]; simpl; [tauto|].
  intros H. apply StronglySorted_inv in H. tauto.
Qed.

Lemma sorted_dirs_first (l : list dirent) :
  StronglySorted (entry_le lower) l -> dirs_first l.
Proof.
  intros Hs l1 p l2 -> Hp.
  apply strongly_sorted_tail, StronglySorted_inv in Hs.
  destruct Hs as [_ HF]. eapply Forall_impl; [|exact HF].
  intros q Hq. unfold entry_le, sort_key, key_ltb in Hq. simpl in Hq.
  rewrite Hp in Hq. unfold is_dir, is_file in *.
  destruct (d_kind q); try reflexivity. discriminate.
Qed.

Lemma sorted_filter (f : dirent -> bool) (l : list dirent) :
  (forall a b, f a = true -> f b = true -> is_file a = is_file b) ->
  StronglySorted (entry_le lower) l -> by_lowered_name lower (filter f l).
Proof.
  intros Hf. unfold by_lowered_name.
  induction 1 as [|a l Hs IH HF]; simpl; [constructor|].
  destruct (f a) eqn:Ea; [|assumption].
  constructor; [assumption|].
  rewrite Forall_forall in *. intros b Hb. apply filter_In in Hb.
  destruct Hb as [Hb Eb]. specialize (HF _ Hb).
  unfold entry_le, sort_key, key_ltb in HF. simpl in HF.
  rewrite (Hf a b Ea Eb) in HF. unfold str_le.
  destruct (is_file b); assumption.
Qed.

Lemma sorted_files_last (l : list dirent) :
  StronglySorted (entry_le lower) l ->
  forall l1 p l2, l = l1 ++ p :: l2 -> is_file p = true ->
                  Forall (fun q => is_file q = true) l2.
Proof.
  intros Hs l1 p l2 -> Hp.
  apply strongly_sorted_tail, StronglySorted_inv in Hs.
  destruct Hs as [_ HF]. eapply Forall_impl; [|exact HF].
  intros q Hq. unfold entry_le, sort_key, key_ltb in Hq. simpl in Hq.
  rewrite Hp in Hq. destruct (is_file q); [reflexivity | discriminate].
Qed.

(** The order of one sorted level. *)
Lemma sorted_level_order (l : list dirent) :
  let lvl := sort_entries lower l in
  dirs_first lvl
  /\ by_lowered_name lower (filter is_dir lvl)
  /\ by_lowered_name lower (filter is_file lvl).
Proof.
  cbv zeta. pose proof (sort_entries_sorted l) as Hs.
  split; [apply sorted_dirs_first; assumption|].
  split; apply sorted_filter; try assumption.
  - intros a b Ha Hb. unfold is_dir, is_file in *.
    destruct (d_kind a), (d_kind b); congruence.
  - intros a b Ha Hb. congruence.
Qed.

End Sorting.

(** ** Tree renderer *)

Lemma bind_Return (A B : Type) (m : result A) (k : A -> result B) (b : B) :
  bind m k = Return b -> exists a, m = Return a /\ k a = Return b.
Proof.
  destruct m as [a|e]; simpl; [|discriminate].
  intros H. exists a. split; [reflexivity | assumption].
Qed.

Lemma list_eqb_eq (a b : list str) : list_eqb a b = true <-> a = b.
Proof.
  revert b. induction a as [|x a IH]; intros [|y b]; simpl;
    try (split; [discriminate | congruence]); [tauto|].
  rewrite andb_true_iff, str_eqb_eq, IH. split.
  - intros [-> ->]. reflexivity.
  - intros E. inversion E. tauto.
Qed.

Section TreeFacts.

Variable lower : str -> str.
Variable fnmatchcase : str -> str -> bool.
Variable iterdir : list str -> listing.
Variable exclude_dirs : list str.
Variable exclude_globs : list str.

Local Abbreviation filter_entries' :=
  (filter_entries fnmatchcase exclude_dirs exclude_globs).
Local Abbreviation walk_levels' :=
  (walk_levels lower fnmatchcase iterdir exclude_dirs exclude_globs).
Local Abbreviation trace_levels' :=
  (trace_levels lower fnmatchcase iterdir exclude_dirs exclude_globs).
Local Abbreviation kept_in dir p :=
  (_should_skip fnmatchcase (dir ++ [d_name p]) (is_dir p)
     exclude_dirs exclude_globs = Return false).

(** The lines are the lines of the trace. *)
Lemma emit_lines_of (w : list str -> str -> result (list str))
    (t : list str -> str -> result (list item))
    (dir : list str) (prefix : str) (l : list dirent) :
  (forall d p, w d p = lines_of (t d p)) ->
  emit w dir prefix l = lines_of (emit_trace t dir prefix l).
Proof.
  intros Hw. induction l as [|p l IH]; [reflexivity|].
  simpl. rewrite IH. destruct (is_dir p).
  - rewrite Hw.
    destruct (t (dir ++ [d_name p]) (prefix ++ extension (is_nil l)))
      as [sub|e]; [|reflexivity].
    simpl. destruct (emit_trace t dir prefix l) as [more|e]; [|reflexivity].
    simpl. rewrite map_app. reflexivity.
  - simpl. destruct (emit_trace t dir prefix l) as [more|e]; reflexivity.
Qed.

Lemma walk_levels_lines_of (n : nat) (dir : list str) (prefix : str) :
  walk_levels' n dir prefix = lines_of (trace_levels' n dir prefix).
Proof.
  revert dir prefix. induction n as [|n IH]; intros dir prefix;
    [reflexivity|].
  simpl.
  destruct (iterdir dir) as [|es]; [reflexivity|].
  destruct (filter_entries fnmatchcase exclude_dirs exclude_globs dir es)
    as [filtered|e]; [|reflexivity].
  simpl. apply emit_lines_of. exact IH.
Qed.

(** The recursion of [walk] as the source writes it. *)
Lemma walk_eq (max_depth : Z) (dir : list str) (prefix : str) (depth : Z) :
  walk lower fnmatchcase iterdir exclude_dirs exclude_globs
       max_depth dir prefix depth
  = if depth >=? max_depth then Return []
    else match iterdir dir with
         | PermissionDenied => Return [prefix ++ corner ++ denied]
         | Entries entries =>
             filtered <- filter_entries' dir entries ;;
             emit (fun d p =>
                     walk lower fnmatchcase iterdir exclude_dirs
                          exclude_globs max_depth d p (depth + 1))
                  dir prefix (sort_entries lower filtered)
         end.
Proof.
  unfold walk.
  destruct (Z.geb_spec depth max_depth) as [Hge|Hlt].
  - replace (Z.to_nat (max_depth - depth)) with 0%nat by lia. reflexivity.
  - replace (Z.to_nat (max_depth - depth))
      with (S (Z.to_nat (max_depth - (depth + 1)))) by lia.
    reflexivity.
Qed.

(** What the filter keeps. *)
Lemma filter_entries_kept (dir : list str) (es filtered : list dirent) :
  filter_entries' dir es = Return filtered ->
  forall p, In p filtered ->
    In p es
    /\ _should_skip fnmatchcase (dir ++ [d_name p]) (is_dir p)
         exclude_dirs exclude_globs = Return false.
Proof.
  revert filtered. induction es as [|q es IH]; intros filtered H p Hp.
  - inversion H; subst. destruct Hp.
  - simpl in H.
    apply bind_Return in H. destruct H as [[] [Hstat H]].
    apply bind_Return in H. destruct H as [skip [Hskip H]].
    apply bind_Return in H. destruct H as [rest [Hrest H]].
    inversion H; subst; clear H.
    destruct skip.
    + destruct (IH _ Hrest _ Hp). split; [right|]; assumption.
    + destruct Hp as [<-|Hp]; [split; [left; reflexivity | assumption]|].
      destruct (IH _ Hrest _ Hp). split; [right|]; assumption.
Qed.

Lemma filter_entries_NoDup (dir : list str) (es filtered : list dirent) :
  filter_entries' dir es = Return filtered ->
  NoDup (names_of es) -> NoDup (names_of filtered).
Proof.
  revert filtered. induction es as [|q es IH]; intros filtered H Hnd.
  - inversion H; subst. constructor.
  - simpl in H.
    apply bind_Return in H. destruct H as [[] [Hstat H]].
    apply bind_Return in H. destruct H as [skip [Hskip H]].
    apply bind_Return in H. destruct H as [rest [Hrest H]].
    inversion H; subst; clear H.
    simpl in Hnd. inversion Hnd as [|? ? Hq Hnd']; subst.
    destruct skip; [apply IH; assumption|].
    simpl. constructor; [|apply IH; assumption].
    intros Hin. apply Hq. unfold names_of in *.
    apply in_map_iff in Hin. destruct Hin as [r [Er Hr]].
    apply in_map_iff. exists r. split; [assumption|].
    destruct (filter_entries_kept _ _ Hrest _ Hr). assumption.
Qed.

Lemma sorted_filtered_NoDup (dir : list str) (es filtered : list dirent) :
  NoDup (names_of es) -> filter_entries' dir es = Return filtered ->
  NoDup (names_of (sort_entries lower filtered)).
Proof.
  intros Hnd H. unfold names_of.
  eapply Permutation_NoDup.
  - apply Permutation_map. symmetry. apply sort_entries_perm.
  - eapply filter_entries_NoDup; eassumption.
Qed.

Lemma emit_trace_cons (t : list str -> str -> result (list item))
    (dir : list str) (prefix : str) (p : dirent) (rest : list dirent)
    (items : list item) :
  emit_trace t dir prefix (p :: rest) = Return items ->
  exists sub more,
    (if is_dir p
     then t (dir ++ [d_name p]) (prefix ++ extension (is_nil rest))
     else Return []) = Return sub
    /\ emit_trace t dir prefix rest = Return more
    /\ items = Shown (dir ++ [d_name p]) p (entry_line prefix (is_nil rest) p)
                 :: sub ++ more.
Proof.
  simpl. intros H.
  apply bind_Return in H. destruct H as [sub [Hsub H]].
  apply bind_Return in H. destruct H as [more [Hmore H]].
  inversion H; subst. exists sub, more. auto.
Qed.

(** A property of every item of a trace, shown level by level: [Q n dir]
    speaks of the items of a walk of [n] levels from [dir]. *)
Lemma trace_levels_Forall (Pre : list str -> Prop)
    (Q : nat -> list str -> item -> Prop) :
  (forall n dir line, Pre dir -> Q (S n) dir (Denied dir line)) ->
  (forall n dir p line, Pre dir -> kept_in dir p ->
     Q (S n) dir (Shown (dir ++ [d_name p]) p line)) ->
  (forall n dir p it, Pre dir -> kept_in dir p ->
     Q n (dir ++ [d_name p]) it -> Q (S n) dir it) ->
  (forall dir p, Pre dir -> kept_in dir p -> Pre (dir ++ [d_name p])) ->
  forall n dir prefix items,
    Pre dir -> trace_levels' n dir prefix = Return items ->
    Forall (Q n dir) items.
Proof.
  intros HD HS Hstep HPre.
  induction n as [|n IH]; intros dir prefix items Hdir H.
  - inversion H; subst. constructor.
  - simpl in H. destruct (iterdir dir) as [|es].
    { inversion H; subst. constructor; [|constructor]. apply HD. assumption. }
    apply bind_Return in H. destruct H as [filtered [Hf H]].
    assert (Hkept : forall p, In p (sort_entries lower filtered) ->
                              kept_in dir p).
    { intros p Hp. eapply filter_entries_kept; [exact Hf|].
      eapply Permutation_in; [apply sort_entries_perm | exact Hp]. }
    clear Hf. revert items H.
    induction (sort_entries lower filtered) as [|p rest IHrest];
      intros items H.
    + inversion H; subst. constructor.
    + apply emit_trace_cons in H.
      destruct H as [sub [more [Hsub [Hmore ->]]]].
      assert (Hp : kept_in dir p) by (apply Hkept; left; reflexivity).
      constructor; [apply HS; assumption|].
      apply Forall_app. split.
      * revert Hsub. case (is_dir p); intros Hsub.
        -- eapply Forall_impl; [|eapply IH; [|exact Hsub]].
           ++ intros it Hit. eapply Hstep; eassumption.
           ++ apply HPre; assumption.
        -- inversion Hsub; subst. constructor.
      * apply IHrest; [|assumption].
        intros q Hq. apply Hkept. right. assumption.
Qed.

End TreeFacts.

Section TreeTrace.

Variable lower : str -> str.
Variable fnmatchcase : str -> str -> bool.
Variable iterdir : list str -> listing.
Variable exclude_dirs : list str.
Variable exclude_globs : list str.

Local Abbreviation filter_entries' :=
  (filter_entries fnmatchcase exclude_dirs exclude_globs).
Local Abbreviation trace_levels' :=
  (trace_levels lower fnmatchcase iterdir exclude_dirs exclude_globs).
Local Abbreviation build_tree_lines' :=
  (build_tree_lines lower fnmatchcase iterdir exclude_dirs exclude_globs).
Local Abbreviation build_tree_trace' :=
  (build_tree_trace lower fnmatchcase iterdir exclude_dirs exclude_globs).

(** Where an item of a walk of [n] levels from [dir] lies: beneath [dir],
    an entry at most [n] parts deeper, a placeholder less than [n]. *)
Lemma trace_paths_depth (n : nat) (dir : list str) (prefix : str)
    (items : list item) :
  trace_levels' n dir prefix = Return items ->
  Forall (fun it =>
            exists suf, item_path it = dir ++ suf
              /\ match it with
                 | Shown _ _ _ => (1 <= List.length suf <= n)%nat
                 | Denied _ _ => (List.length suf < n)%nat
                 end) items.
Proof.
  apply (@trace_levels_Forall lower fnmatchcase iterdir exclude_dirs
           exclude_globs (fun _ => True)
           (fun n dir it =>
              exists suf, item_path it = dir ++ suf
                /\ match it with
                   | Shown _ _ _ => (1 <= List.length suf <= n)%nat
                   | Denied _ _ => (List.length suf < n)%nat
                   end)); try exact I.
  - intros m d line _. exists []. simpl. rewrite app_nil_r.
    split; [reflexivity | lia].
  - intros m d p line _ _. exists [d_name p]. simpl.
    split; [reflexivity | lia].
  - intros m d p it _ _ [suf [E H]]. exists (d_name p :: suf).
    rewrite E, <- app_assoc. split; [reflexivity|].
    destruct it; simpl; lia.
  - auto.
Qed.

(** No item lies at or beneath an excluded name. *)
Lemma trace_no_excluded (n : nat) (dir : list str) (prefix : str)
    (items : list item) :
  (forall part, In part dir -> ~ In part exclude_dirs) ->
  trace_levels' n dir prefix = Return items ->
  Forall (fun it => forall part, In part (item_path it) ->
                                 ~ In part exclude_dirs) items.
Proof.
  apply (@trace_levels_Forall lower fnmatchcase iterdir exclude_dirs
           exclude_globs
           (fun dir => forall part, In part dir -> ~ In part exclude_dirs)
           (fun _ _ it => forall part, In part (item_path it) ->
                                       ~ In part exclude_dirs)).
  - intros m d line Hd. exact Hd.
  - intros m d p line _ Hk. simpl.
    eapply should_skip_kept_segments. exact Hk.
  - intros m d p it _ _ H. exact H.
  - intros d p _ Hk. eapply should_skip_kept_segments. exact Hk.
Qed.

Lemma build_tree_lines_trace (label : str) (max_depth : Z)
    (lines : list str) :
  build_tree_lines' label max_depth = Return lines ->
  exists items,
    build_tree_trace' max_depth = Return items
    /\ lines = label :: List.map item_line items.
Proof.
  unfold build_tree_lines, build_tree_trace, walk. intros H.
  apply bind_Return in H. destruct H as [ls [Hls H]].
  inversion H; subst; clear H.
  rewrite walk_levels_lines_of in Hls. unfold lines_of in Hls.
  apply bind_Return in Hls. destruct Hls as [items [Hit H]].
  inversion H; subst. exists items. split; [assumption | reflexivity].
Qed.

(** With nothing walked beneath, a level is its own lines. *)
Lemma emit_leaves (dir : list str) (prefix : str) (l : list dirent) :
  emit (fun _ _ => Return []) dir prefix l = Return (level_lines prefix l).
Proof.
  induction l as [|p l IH]; [reflexivity|].
  simpl. rewrite IH. destruct (is_dir p); reflexivity.
Qed.

End TreeTrace.

(** What lies in an excluded directory is never read: two directory
    states that agree outside the excluded names render alike. *)
Section NeverDescends.

Variable lower : str -> str.
Variable fnmatchcase : str -> str -> bool.
Variable exclude_dirs : list str.
Variable exclude_globs : list str.

Local Abbreviation clear_of_excluded dir :=
  (forall part : str, In part dir -> ~ In part exclude_dirs).

Lemma emit_ext (w1 w2 : list str -> str -> result (list str))
    (dir : list str) (prefix : str) (l : list dirent) :
  (forall p pre, In p l -> is_dir p = true ->
     w1 (dir ++ [d_name p]) pre = w2 (dir ++ [d_name p]) pre) ->
  emit w1 dir prefix l = emit w2 dir prefix l.
Proof.
  induction l as [|p l IH]; intros H; [reflexivity|].
  simpl. rewrite IH by (intros q pre Hq; apply H; right; assumption).
  destruct (is_dir p) eqn:E; [|reflexivity].
  rewrite (H p _ (or_introl eq_refl) E). reflexivity.
Qed.

Lemma walk_levels_agree (iterdir1 iterdir2 : list str -> listing) :
  (forall dir, clear_of_excluded dir -> iterdir1 dir = iterdir2 dir) ->
  forall n dir prefix,
    clear_of_excluded dir ->
    walk_levels lower fnmatchcase iterdir1 exclude_dirs exclude_globs
      n dir prefix
    = walk_levels lower fnmatchcase iterdir2 exclude_dirs exclude_globs
        n dir prefix.
Proof.
  intros Hagree. induction n as [|n IH]; intros dir prefix Hdir;
    [reflexivity|].
  simpl. rewrite <- (Hagree dir Hdir).
  destruct (iterdir1 dir) as [|es]; [reflexivity|].
  destruct (filter_entries fnmatchcase exclude_dirs exclude_globs dir es)
    as [filtered|e] eqn:Hf; [|reflexivity].
  simpl. apply emit_ext. intros p pre Hp _. apply IH.
  eapply should_skip_kept_segments.
  eapply filter_entries_kept; [exact Hf|].
  eapply Permutation_in; [apply sort_entries_perm | exact Hp].
Qed.

End NeverDescends.

(** C7. The filter answers true whenever a segment of the relative path is
    an excluded name, for files and directories alike; so no line of the
    tree shows an entry whose path holds an excluded name, at any depth:
    neither an excluded directory nor anything beneath it, and what an
    excluded directory holds is never listed (the output is the same for
    any two directory states that differ only there). *)
Theorem excluded_names_never_rendered :
  (forall fnmatchcase rel is_dir names globs,
     (exists part, In part rel /\ In part names) ->
     _should_skip fnmatchcase rel is_dir names globs = Return true)
  /\ (forall lower fnmatchcase iterdir names globs label max_depth lines,
        build_tree_lines lower fnmatchcase iterdir names globs
          label max_depth = Return lines ->
        exists items,
          build_tree_trace lower fnmatchcase iterdir names globs max_depth
          = Return items
          /\ lines = label :: List.map item_line items
          /\ forall it part,
               In it items -> In part (item_path it) -> ~ In part names)
  /\ (forall lower fnmatchcase iterdir1 iterdir2 names globs label max_depth,
        (forall dir, (forall part, In part dir -> ~ In part names) ->
                     iterdir1 dir = iterdir2 dir) ->
        build_tree_lines lower fnmatchcase iterdir1 names globs
          label max_depth
        = build_tree_lines lower fnmatchcase iterdir2 names globs
            label max_depth).
Proof.
  split; [|split].
  - intros. apply should_skip_excluded_name. assumption.
  - intros lower fnmatchcase iterdir names globs label max_depth lines H.
    destruct (build_tree_lines_trace _ _ _ _ _ _ _ H) as [items [Ht El]].
    exists items. split; [assumption|]. split; [assumption|].
    intros it part Hit. revert part.
    pose proof (@trace_no_excluded lower fnmatchcase iterdir names globs
                  _ [] [] items (fun part (F : In part []) => False_ind _ F) Ht)
      as HF.
    rewrite Forall_forall in HF. apply HF. assumption.
  - intros lower fnmatchcase iterdir1 iterdir2 names globs label max_depth
      Hagree.
    unfold build_tree_lines, walk.
    rewrite (@walk_levels_agree lower fnmatchcase names globs
               iterdir1 iterdir2 Hagree); [reflexivity|].
    intros part [].
Qed.

Lemma excluded_names_never_rendered_witness :
  (exists part, In part [lit "a"; lit "node_modules"; lit "lib.js"]
                /\ In part sample_names)
  /\ _should_skip fnmatch_plain [lit "a"; lit "node_modules"; lit "lib.js"]
       false sample_names sample_globs = Return true
  /\ (exists lines,
        build_tree_lines lower_ascii fnmatch_plain sample_state sample_names
          sample_globs (lit "/repo") 3 = Return lines
        /\ exists items,
            build_tree_trace lower_ascii fnmatch_plain sample_state
              sample_names sample_globs 3 = Return items
            /\ lines = lit "/repo" :: List.map item_line items
            /\ forall it part,
                 In it items -> In part (item_path it) ->
                 ~ In part sample_names)
  /\ (forall dir, (forall part, In part dir -> ~ In part sample_names) ->
                  sample_state dir = sample_state_other dir)
  /\ build_tree_lines lower_ascii fnmatch_plain sample_state sample_names
       sample_globs (lit "/repo") 3
     = build_tree_lines lower_ascii fnmatch_plain sample_state_other
         sample_names sample_globs (lit "/repo") 3.
Proof.
  assert (H1 : exists part,
             In part [lit "a"; lit "node_modules"; lit "lib.js"]
             /\ In part sample_names).
  { exists (lit "node_modules"). split; [right; left|left]; reflexivity. }
  assert (H2 : forall dir,
             (forall part, In part dir -> ~ In part sample_names) ->
             sample_state dir = sample_state_other dir).
  { intros dir Hdir. unfold sample_state_other.
    destruct (list_eqb dir [lit "node_modules"]) eqn:E1.
    { apply list_eqb_eq in E1. subst. exfalso.
      apply (Hdir (lit "node_modules")); left; reflexivity. }
    destruct (list_eqb dir [lit "a"; lit "node_modules"]) eqn:E2.
    { apply list_eqb_eq in E2. subst. exfalso.
      apply (Hdir (lit "node_modules")); [right|]; left; reflexivity. }
    reflexivity. }
  split; [exact H1|].
  split; [exact (proj1 excluded_names_never_rendered _ _ _ _ _ H1)|].
  split.
  - eexists. split; [vm_compute; reflexivity|].
    apply (proj1 (proj2 excluded_names_never_rendered)).
    vm_compute. reflexivity.
  - split; [exact H2|].
    exact (proj2 (proj2 excluded_names_never_rendered) _ _ _ _ _ _ _ _ H2).
Defined.

(** C8. The recursion stops once [depth >= max_depth], the direct children
    of the root being at depth 0: every entry shown lies at most
    [max_depth] parts beneath the root and no placeholder lies deeper; with
    [max_depth = 1] the output is the root line and one line for each
    direct child of the root that passes the filter, and nothing else. *)
Theorem depth_bound :
  forall lower fnmatchcase iterdir names globs,
    (forall max_depth dir prefix depth,
        depth >= max_depth ->
        walk lower fnmatchcase iterdir names globs max_depth dir prefix depth
        = Return [])
    /\ (forall label max_depth lines,
          build_tree_lines lower fnmatchcase iterdir names globs
            label max_depth = Return lines ->
          exists items,
            build_tree_trace lower fnmatchcase iterdir names globs max_depth
            = Return items
            /\ lines = label :: List.map item_line items
            /\ forall it, In it items ->
                 match it with
                 | Shown rel _ _ => 1 <= len rel <= max_depth
                 | Denied dir _ => len dir < max_depth
                 end)
    /\ (forall label,
          build_tree_lines lower fnmatchcase iterdir names globs label 1
          = match iterdir [] with
            | PermissionDenied => Return [label; corner ++ denied]
            | Entries entries =>
                filtered <- filter_entries fnmatchcase names globs [] entries ;;
                Return (label :: level_lines [] (sort_entries lower filtered))
            end).
Proof.
  intros lower fnmatchcase iterdir names globs. split; [|split].
  - intros max_depth dir prefix depth Hge. rewrite walk_eq.
    destruct (Z.geb_spec depth max_depth); [reflexivity | lia].
  - intros label max_depth lines H.
    destruct (build_tree_lines_trace _ _ _ _ _ _ _ H) as [items [Ht El]].
    exists items. split; [assumption|]. split; [assumption|].
    pose proof (trace_paths_depth _ _ _ _ _ _ _ _ Ht) as HF.
    rewrite Forall_forall in HF. intros it Hit.
    destruct (HF it Hit) as [suf [E Hn]]. simpl in E.
    destruct it as [rel p line|d line]; simpl in E; subst; unfold len; lia.
  - intros label. unfold build_tree_lines, walk.
    change (Z.to_nat (1 - 0)) with 1%nat. simpl.
    destruct (iterdir []) as [|es]; [reflexivity|].
    destruct (filter_entries fnmatchcase names globs [] es) as [filtered|e];
      [|reflexivity].
    simpl. rewrite emit_leaves. reflexivity.
Qed.

Lemma depth_bound_witness :
  2 >= 1
  /\ walk lower_ascii fnmatch_plain sample_state sample_names sample_globs
       1 [lit "a"] indent_more 2 = Return []
  /\ (exists lines,
        build_tree_lines lower_ascii fnmatch_plain sample_state sample_names
          sample_globs (lit "/repo") 2 = Return lines
        /\ exists items,
            build_tree_trace lower_ascii fnmatch_plain sample_state
              sample_names sample_globs 2 = Return items
            /\ lines = lit "/repo" :: List.map item_line items
            /\ forall it, In it items ->
                 match it with
                 | Shown rel _ _ => 1 <= len rel <= 2
                 | Denied dir _ => len dir < 2
                 end)
  /\ build_tree_lines lower_ascii fnmatch_plain sample_state sample_names
       sample_globs (lit "/repo") 1
     = Return [lit "/repo"; branch ++ lit "a/"; branch ++ lit "Z/";
               branch ++ lit "a.txt"; corner ++ lit "B.txt"].
Proof.
  pose proof (depth_bound lower_ascii fnmatch_plain sample_state sample_names
                sample_globs) as [Ha [Hb Hc]].
  split; [lia|]. split; [apply Ha; lia|]. split.
  - eexists. split; [vm_compute; reflexivity|].
    apply Hb. vm_compute. reflexivity.
  - rewrite Hc. vm_compute. reflexivity.
Defined.

(** ** The levels of the rendered tree *)

Lemma level_of_app (dir : list str) (a b : list item) :
  level_of dir (a ++ b) = level_of dir a ++ level_of dir b.
Proof.
  induction a as [|it a IH]; [reflexivity|]. simpl.
  destruct it as [rel p line|d line]; [|assumption].
  destruct (list_eqb (removelast rel) dir); simpl; rewrite IH; reflexivity.
Qed.

Lemma level_of_In (dir : list str) (items : list item) (p : dirent) :
  In p (level_of dir items) ->
  exists rel line, In (Shown rel p line) items /\ removelast rel = dir.
Proof.
  induction items as [|it items IH]; simpl; [tauto|].
  destruct it as [rel q line|d line].
  - destruct (list_eqb (removelast rel) dir) eqn:E.
    + intros [<-|H].
      * exists rel, line. split; [left; reflexivity|].
        apply list_eqb_eq. assumption.
      * destruct (IH H) as [r [l [Hin Er]]]. exists r, l. auto.
    + intros H. destruct (IH H) as [r [l [Hin Er]]]. exists r, l. auto.
  - intros H. destruct (IH H) as [r [l [Hin Er]]]. exists r, l. auto.
Qed.

Section Levels.

Variable lower : str -> str.
Variable fnmatchcase : str -> str -> bool.
Variable iterdir : list str -> listing.
Variable exclude_dirs : list str.
Variable exclude_globs : list str.

Local Abbreviation filter_entries' :=
  (filter_entries fnmatchcase exclude_dirs exclude_globs).
Local Abbreviation trace_levels' :=
  (trace_levels lower fnmatchcase iterdir exclude_dirs exclude_globs).

(** The level shown under [dir] is the sorted list of the entries of
    [dir] that pass the filter. *)
Local Abbreviation listed dir lvl :=
  (exists es filtered,
      iterdir dir = Entries es
      /\ filter_entries' dir es = Return filtered
      /\ lvl = sort_entries lower filtered).

(** The walk from [dir0 ++ [name]] shows, under [dir], entries only when
    [dir] goes through [name]. *)
Lemma level_of_beneath (n : nat) (dir0 : list str) (name : str)
    (prefix : str) (items : list item) (dir : list str) :
  trace_levels' n (dir0 ++ [name]) prefix = Return items ->
  level_of dir items <> [] ->
  exists rest, dir = dir0 ++ name :: rest.
Proof.
  intros Ht Hne.
  destruct (level_of dir items) as [|p lvl] eqn:E; [congruence|].
  assert (Hp : In p (level_of dir items)) by (rewrite E; left; reflexivity).
  apply level_of_In in Hp. destruct Hp as [rel [line [Hin Hrel]]].
  pose proof (trace_paths_depth _ _ _ _ _ _ _ _ Ht) as HF.
  rewrite Forall_forall in HF. destruct (HF _ Hin) as [suf [Es Hn]].
  simpl in Es. subst rel.
  destruct suf as [|x suf]; [simpl in Hn; lia|].
  rewrite removelast_app in Hrel by discriminate.
  exists (removelast (x :: suf)). rewrite <- Hrel, <- app_assoc. reflexivity.
Qed.

Lemma emit_trace_level_here (n : nat) (dir : list str) (prefix : str)
    (l : list dirent) (items : list item) :
  emit_trace (trace_levels' n) dir prefix l = Return items ->
  level_of dir items = l.
Proof.
  revert items. induction l as [|p l IH]; intros items H.
  - inversion H; subst. reflexivity.
  - apply emit_trace_cons in H. destruct H as [sub [more [Hsub [Hmore ->]]]].
    simpl. rewrite removelast_last.
    assert (Hrefl : list_eqb dir dir = true) by (apply list_eqb_eq; reflexivity).
    rewrite Hrefl, level_of_app, (IH _ Hmore).
    assert (Hnil : level_of dir sub = []).
    { destruct (is_dir p); [|inversion Hsub; reflexivity].
      destruct (level_of dir sub) as [|q lvl] eqn:E; [reflexivity|].
      destruct (@level_of_beneath n dir (d_name p) _ sub dir Hsub)
        as [rest Hrest]; [rewrite E; discriminate|].
      apply (f_equal (@List.length str)) in Hrest.
      rewrite length_app in Hrest. simpl in Hrest. lia. }
    rewrite Hnil. reflexivity.
Qed.

Lemma emit_trace_level_below (n : nat) (dir0 : list str) (prefix : str)
    (l : list dirent) (items : list item) (dir : list str) :
  (forall d pre its, trace_levels' n d pre = Return its ->
                     level_of dir its = [] \/ listed dir (level_of dir its)) ->
  NoDup (names_of l) ->
  emit_trace (trace_levels' n) dir0 prefix l = Return items ->
  dir <> dir0 ->
  level_of dir items = []
  \/ (listed dir (level_of dir items)
      /\ exists p rest, In p l /\ dir = dir0 ++ d_name p :: rest).
Proof.
  intros IHn. revert items. induction l as [|p l IH]; intros items Hnd H Hdir.
  - inversion H; subst. left. reflexivity.
  - apply emit_trace_cons in H. destruct H as [sub [more [Hsub [Hmore ->]]]].
    simpl in Hnd. inversion Hnd as [|? ? Hp Hnd']; subst.
    simpl. rewrite removelast_last.
    destruct (list_eqb dir0 dir) eqn:E;
      [apply list_eqb_eq in E; congruence|].
    rewrite level_of_app.
    destruct (IH _ Hnd' Hmore Hdir) as [Hm|[Hm [q [rest [Hq Hrest]]]]].
    + rewrite Hm, app_nil_r.
      destruct (is_dir p); [|inversion Hsub; left; reflexivity].
      destruct (IHn _ _ _ Hsub) as [Hs|Hs]; [left; assumption|].
      destruct (level_of dir sub) as [|x lvl] eqn:Es; [left; reflexivity|].
      right. split; [assumption|].
      destruct (@level_of_beneath n dir0 (d_name p) _ sub dir Hsub)
        as [rest Hrest]; [rewrite Es; discriminate|].
      exists p, rest. split; [left; reflexivity | assumption].
    + assert (Hs : level_of dir sub = []).
      { destruct (is_dir p); [|inversion Hsub; reflexivity].
        destruct (level_of dir sub) as [|x lvl] eqn:Es; [reflexivity|].
        destruct (@level_of_beneath n dir0 (d_name p) _ sub dir Hsub)
          as [rest' Hrest']; [rewrite Es; discriminate|].
        exfalso. apply Hp. rewrite Hrest in Hrest'.
        apply app_inv_head in Hrest'. injection Hrest' as En Er.
        unfold names_of. rewrite <- En. apply in_map. assumption. }
      rewrite Hs. simpl. right. split; [assumption|].
      exists q, rest. split; [right; assumption | assumption].
Qed.

(** Every level of the trace is a sorted, filtered listing. *)
Lemma trace_level (n : nat) :
  distinct_names iterdir ->
  forall dir0 prefix items dir,
    trace_levels' n dir0 prefix = Return items ->
    level_of dir items = [] \/ listed dir (level_of dir items).
Proof.
  intros Hdist. induction n as [|n IH]; intros dir0 prefix items dir H.
  - inversion H; subst. left. reflexivity.
  - simpl in H. destruct (iterdir dir0) as [|es] eqn:Els.
    { inversion H; subst. left. reflexivity. }
    apply bind_Return in H. destruct H as [filtered [Hf H]].
    destruct (list_eqb dir dir0) eqn:E.
    + apply list_eqb_eq in E. subst dir0. right.
      exists es, filtered. split; [assumption|]. split; [assumption|].
      eapply emit_trace_level_here. exact H.
    + assert (Hne : dir <> dir0).
      { intros ->. assert (list_eqb dir0 dir0 = true)
          by (apply list_eqb_eq; reflexivity). congruence. }
      destruct (@emit_trace_level_below n dir0 prefix
                  (sort_entries lower filtered) items dir) as [Hl|[Hl _]];
        try assumption.
      * intros d pre its Hits. eapply IH. exact Hits.
      * eapply sorted_filtered_NoDup; [|exact Hf]. eapply Hdist. exact Els.
      * left. assumption.
      * right. assumption.
Qed.

End Levels.


Lemma sample_state_distinct : distinct_names sample_state.
Proof.
  intros dir es. unfold sample_state.
  repeat match goal with
         | |- context [if ?b then _ else _] => destruct b
         end;
    intros H; inversion H; subst; clear H;
    unfold names_of; simpl;
    repeat (constructor;
            [simpl; intros Hin; decompose [or] Hin;
             try discriminate; assumption|]);
    constructor.
Qed.


(** C6. A directory that holds an entry which is neither a directory nor
    a regular file (a link to nothing): the key of the sort is
    [(is_file, lowered name)], so the entry goes with the directories, and
    its line, which has no separator, stands before the line of the
    directory [zz]: a directory comes after an entry that is none. *)
Theorem link_sorts_with_directories :
  build_tree_lines lower_ascii fnmatch_plain sample_state_link [] []
    (lit "/repo") 1
  = Return [lit "/repo"; branch ++ lit "d/"; branch ++ lit "dangling";
            branch ++ lit "zz/"; corner ++ lit "b.txt"]
  /\ exists items before link between dir after,
       build_tree_trace lower_ascii fnmatch_plain sample_state_link [] [] 1
       = Return items
       /\ level_of [] items = before ++ link :: between ++ dir :: after
       /\ is_dir link = false /\ is_dir dir = true.
Proof.
  split; [vm_compute; reflexivity|].
  eexists.
  exists [Dirent (lit "d") KDir], (Dirent (lit "dangling") KOther), [],
    (Dirent (lit "zz") KDir), [Dirent (lit "b.txt") KFile].
  split; [vm_compute; reflexivity|].
  split; [vm_compute; reflexivity|]. split; reflexivity.
Qed.

Example sample_root_level :
  exists items,
    build_tree_trace lower_ascii fnmatch_plain sample_state sample_names
      sample_globs 3 = Return items
    /\ List.map d_name (level_of [] items)
       = [lit "a"; lit "Z"; lit "a.txt"; lit "B.txt"].
Proof. eexists. split; vm_compute; reflexivity. Qed.

(** ** The renderer returns *)

Section Returns.

Variable lower : str -> str.
Variable fnmatchcase : str -> str -> bool.
Variable iterdir : list str -> listing.
Variable exclude_dirs : list str.
Variable exclude_globs : list str.

Hypothesis Hstate : wf_state iterdir.
Hypothesis Hstats : stats_return iterdir.
Hypothesis Hglobs : valid_globs exclude_globs.

Lemma should_skip_returns (rel : list str) (is_dir : bool) :
  rel <> [] -> Forall wf_name rel ->
  exists b,
    _should_skip fnmatchcase rel is_dir exclude_dirs exclude_globs = Return b.
Proof.
  intros Hne HF. unfold _should_skip.
  destruct (existsb (fun part => mem part exclude_dirs) rel);
    [eexists; reflexivity|].
  destruct is_dir; [eexists; reflexivity|]. simpl negb. cbv iota.
  destruct (matches_any_glob_relative fnmatchcase Hne HF Hglobs)
    as [b [Hb _]].
  rewrite Hb. simpl. destruct b; eexists; reflexivity.
Qed.

Lemma filter_entries_returns (dir : list str) (es : list dirent) :
  Forall wf_name dir -> Forall (fun p => wf_name (d_name p)) es ->
  Forall (fun p => stat p = Return tt) es ->
  exists filtered,
    filter_entries fnmatchcase exclude_dirs exclude_globs dir es
    = Return filtered.
Proof.
  intros Hdir Hwf Hst. induction Hwf as [|p es Hp _ IH].
  - exists []. reflexivity.
  - inversion Hst as [|? ? Hsp Hst']; subst.
    destruct (IH Hst') as [filtered IHf]. clear IH. rename IHf into IH.
    simpl. rewrite Hsp. cbn [bind].
    destruct (@should_skip_returns (dir ++ [d_name p]) (is_dir p))
      as [b Hb].
    + destruct dir; discriminate.
    + apply Forall_app. split; [assumption|]. constructor; [assumption|].
      constructor.
    + rewrite Hb, IH. simpl. eexists. reflexivity.
Qed.

Lemma emit_returns (w : list str -> str -> result (list str))
    (dir : list str) (prefix : str) (l : list dirent) :
  (forall p pre, In p l -> exists lines, w (dir ++ [d_name p]) pre = Return lines) ->
  exists lines, emit w dir prefix l = Return lines.
Proof.
  induction l as [|p l IH]; intros Hw.
  - exists []. reflexivity.
  - simpl.
    destruct IH as [more Hmore];
      [intros q pre Hq; apply Hw; right; assumption|].
    rewrite Hmore.
    destruct (is_dir p).
    + destruct (Hw p (prefix ++ extension (is_nil l)) (or_introl eq_refl))
        as [sub Hsub].
      rewrite Hsub. simpl. eexists. reflexivity.
    + simpl. eexists. reflexivity.
Qed.

Lemma walk_levels_returns (n : nat) (dir : list str) (prefix : str) :
  Forall wf_name dir ->
  exists lines,
    walk_levels lower fnmatchcase iterdir exclude_dirs exclude_globs
      n dir prefix = Return lines.
Proof.
  revert dir prefix. induction n as [|n IH]; intros dir prefix Hdir.
  - exists []. reflexivity.
  - simpl. destruct (iterdir dir) as [|es] eqn:Els;
      [eexists; reflexivity|].
    pose proof Hstate as Hes. unfold wf_state in Hes.
    specialize (Hes dir es Els).
    destruct (filter_entries_returns Hdir Hes (Hstats Els))
      as [filtered Hf].
    rewrite Hf. simpl. apply emit_returns. intros p pre Hp. apply IH.
    apply Forall_app. split; [assumption|].
    constructor; [|constructor].
    rewrite Forall_forall in Hes. apply Hes.
    eapply filter_entries_kept; [exact Hf|].
    eapply Permutation_in; [apply sort_entries_perm | exact Hp].
Qed.

(** With well-formed names and no empty pattern the renderer gives its
    lines, the first of which is the label of the root. *)
Lemma build_tree_lines_returns (label : str) (max_depth : Z) :
  exists lines,
    build_tree_lines lower fnmatchcase iterdir exclude_dirs exclude_globs
      label max_depth = Return (label :: lines).
Proof.
  unfold build_tree_lines, walk.
  destruct (@walk_levels_returns (Z.to_nat (max_depth - 0)) [] [])
    as [lines H]; [constructor|].
  rewrite H. exists lines. reflexivity.
Qed.

End Returns.

(** An empty pattern makes the renderer raise at the first entry that is
    no directory and is not excluded by name. *)
Example empty_pattern_raises :
  build_tree_lines lower_ascii fnmatch_plain sample_state sample_names
    [[]] (lit "/repo") 3 = Raise ValueError.
Proof. vm_compute. reflexivity. Qed.

(** ** Documentation extractor *)

Example extract_samples :
  extract_module_docstring cpython_parse cpython_tokens cpython_eval src_doc
  = Return (Some (lit "  computes totals"))
  /\ extract_module_docstring cpython_parse cpython_tokens cpython_eval
       src_late_doc = Return None
  /\ extract_module_docstring cpython_parse cpython_tokens cpython_eval
       src_doc_broken = Return (Some (lit "doc"))
  /\ extract_module_docstring cpython_parse cpython_tokens cpython_eval
       src_name_broken = Return None
  /\ extract_module_docstring cpython_parse cpython_tokens cpython_eval
       src_badname_broken = Return (Some (tok_string tok_badname))
  /\ extract_module_docstring cpython_parse cpython_tokens cpython_eval
       src_bytes_broken = Return None
  /\ extract_module_docstring cpython_parse cpython_tokens cpython_eval
       src_blank_doc = Return None
  /\ extract_module_docstring cpython_parse cpython_tokens cpython_eval
       src_unterminated = Raise TokenError.
Proof. repeat split; vm_compute; reflexivity. Qed.

Lemma rstrip_nil (s : str) : forallb is_space (rstrip s) = true -> rstrip s = [].
Proof.
  induction s as [|c s IH]; [reflexivity|]. simpl.
  destruct (rstrip s) as [|r rs].
  - destruct (is_space c) eqn:E; [reflexivity|]. simpl. rewrite E. discriminate.
  - intros H. simpl in H. apply andb_true_iff in H. destruct H as [_ H].
    specialize (IH H). discriminate.
Qed.

Lemma rstrip_all_space (s : str) : forallb is_space s = true -> rstrip s = [].
Proof.
  induction s as [|c s IH]; [reflexivity|]. simpl.
  intros H. apply andb_true_iff in H. destruct H as [Hc Hs].
  rewrite (IH Hs), Hc. reflexivity.
Qed.

Lemma lstrip_nil (s : str) : lstrip s = [] -> forallb is_space s = true.
Proof.
  induction s as [|c s IH]; [reflexivity|]. simpl.
  destruct (is_space c); [assumption | discriminate].
Qed.

Lemma rstrip_nil_all (s : str) : rstrip s = [] -> forallb is_space s = true.
Proof.
  induction s as [|c s IH]; [reflexivity|]. simpl.
  destruct (rstrip s); [|discriminate].
  destruct (is_space c); [intros _; apply IH; reflexivity | discriminate].
Qed.

(** A text is true after [strip] exactly when it holds a character that is
    not white space. *)
Lemma truthy_strip (s : str) :
  truthy (strip s) = negb (forallb is_space s).
Proof.
  unfold strip. destruct (forallb is_space s) eqn:E.
  - rewrite (rstrip_all_space s E). reflexivity.
  - destruct (lstrip (rstrip s)) eqn:El; [|reflexivity]. exfalso.
    apply lstrip_nil, rstrip_nil, rstrip_nil_all in El. congruence.
Qed.

(** [strip("\n")] takes newlines off both ends and nothing else. *)
Lemma rstrip_nl_spec (s : str) :
  exists b, s = rstrip_nl s ++ b /\ Forall (eq LF) b
            /\ forall r, rstrip_nl s <> r ++ [LF].
Proof.
  induction s as [|c s [b [E [Hb Hlast]]]]; simpl.
  - exists []. split; [reflexivity|]. split; [constructor|].
    intros r. destruct r; discriminate.
  - destruct (rstrip_nl s) as [|x xs] eqn:Er.
    + destruct (N.eqb_spec c LF) as [->|Hne].
      * exists (LF :: b). simpl in E. subst s.
        split; [reflexivity|]. split; [constructor; [reflexivity | assumption]|].
        intros r. destruct r; discriminate.
      * exists b. simpl in E. subst s. split; [reflexivity|].
        split; [assumption|].
        intros [|y r] H; inversion H; [congruence|].
        destruct r; discriminate.
    + exists b. split; [simpl; rewrite E at 1; reflexivity|].
      split; [assumption|].
      intros [|y r] H; inversion H; subst.
      apply (Hlast r). assumption.
Qed.

Lemma lstrip_nl_spec (s : str) :
  exists a, s = a ++ lstrip_nl s /\ Forall (eq LF) a
            /\ forall r, lstrip_nl s <> LF :: r.
Proof.
  induction s as [|c s [a [E [Ha Hhd]]]]; simpl.
  - exists []. split; [reflexivity|]. split; [constructor | discriminate].
  - destruct (N.eqb_spec c LF) as [->|Hne].
    + exists (LF :: a). split; [simpl; rewrite E at 1; reflexivity|].
      split; [constructor; [reflexivity | assumption] | assumption].
    + exists []. split; [reflexivity|]. split; [constructor|].
      intros r H. inversion H. congruence.
Qed.

Lemma strip_nl_spec (s : str) :
  exists a b,
    s = a ++ strip_nl s ++ b
    /\ Forall (eq LF) a /\ Forall (eq LF) b
    /\ (forall r, strip_nl s <> LF :: r)
    /\ (forall r, strip_nl s <> r ++ [LF]).
Proof.
  unfold strip_nl.
  destruct (rstrip_nl_spec s) as [b [Eb [Hb Hlast]]].
  destruct (lstrip_nl_spec (rstrip_nl s)) as [a [Ea [Ha Hhd]]].
  exists a, b. split; [rewrite app_assoc, <- Ea; assumption|].
  split; [assumption|]. split; [assumption|]. split; [assumption|].
  intros r H. apply (Hlast (a ++ r)).
  rewrite Ea at 1. rewrite H, app_assoc. reflexivity.
Qed.

Lemma rstrip_nl_keeps (s : str) (c : char) :
  In c s -> c <> LF -> In c (rstrip_nl s).
Proof.
  intros Hin Hne. destruct (rstrip_nl_spec s) as [b [E [Hb _]]].
  rewrite E in Hin. apply in_app_or in Hin. destruct Hin as [H|H]; [assumption|].
  rewrite Forall_forall in Hb. specialize (Hb _ H). congruence.
Qed.

Lemma lstrip_nl_keeps (s : str) (c : char) :
  In c s -> c <> LF -> In c (lstrip_nl s).
Proof.
  intros Hin Hne. destruct (lstrip_nl_spec s) as [a [E [Ha _]]].
  rewrite E in Hin. apply in_app_or in Hin. destruct Hin as [H|H]; [|assumption].
  rewrite Forall_forall in Ha. specialize (Ha _ H). congruence.
Qed.

(** The text of a [STRING] token stays true once stripped. *)
Lemma quoted_text_truthy (raw : str) :
  has_quote raw = true -> truthy (strip (strip_nl raw)) = true.
Proof.
  intros H. unfold has_quote in H. apply existsb_exists in H.
  destruct H as [c [Hc Hq]].
  rewrite truthy_strip.
  destruct (forallb is_space (strip_nl raw)) eqn:E; [|reflexivity].
  exfalso. rewrite forallb_forall in E.
  assert (Hne : c <> LF).
  { intros ->. vm_compute in Hq. discriminate. }
  assert (Hin : In c (strip_nl raw)).
  { apply lstrip_nl_keeps; [|assumption].
    apply rstrip_nl_keeps; assumption. }
  specialize (E _ Hin). apply orb_true_iff in Hq.
  destruct Hq as [Hq|Hq]; apply N.eqb_eq in Hq; subst; discriminate.
Qed.

Section ExtractorFacts.

Variable ast_parse : str -> result module_.
Variable generate_tokens : str -> result tokgen.
Variable literal_eval : str -> result pyvalue.

Local Abbreviation scan := (scan_tokens literal_eval).
Local Abbreviation fallback :=
  (extract_module_docstring_fallback generate_tokens literal_eval).
Local Abbreviation extract :=
  (extract_module_docstring ast_parse generate_tokens literal_eval).

(** The scan steps over the tokens it skips. *)
Lemma scan_trivia (trivia : list token) (g : tokgen) :
  all_trivia trivia -> scan (yield_all trivia g) = scan g.
Proof.
  induction 1 as [|tok trivia Htok _ IH]; [reflexivity|].
  simpl. rewrite Htok. assumption.
Qed.

(** The scan of one token that is not skipped. *)
Lemma scan_first (tok : token) (rest : tokgen) :
  is_trivia (tok_type tok) = false ->
  scan (Yield tok rest)
  = if is_string (tok_type tok) then
      match literal_eval (tok_string tok) with
      | Return (VStr value) =>
          Return (if truthy (strip (strip_nl value))
                  then Some (strip_nl value) else None)
      | Return _ => Return None
      | Raise _ =>
          Return (if truthy (strip (strip_nl (tok_string tok)))
                  then Some (strip_nl (tok_string tok)) else None)
      end
    else Return None.
Proof. intros H. simpl. rewrite H. reflexivity. Qed.

(** The scan raises only what the generator throws before any token that
    is not skipped. *)
Lemma scan_returns_or_throws (g : tokgen) :
  (exists r, scan g = Return r)
  \/ (exists trivia e, g = yield_all trivia (Throw e) /\ all_trivia trivia).
Proof.
  induction g as [|tok rest IH|e].
  - left. eexists. reflexivity.
  - destruct (is_trivia (tok_type tok)) eqn:Et.
    + destruct IH as [[r Hr]|[trivia [e [Eg Ht]]]].
      * left. exists r. simpl. rewrite Et. assumption.
      * right. exists (tok :: trivia), e. split.
        -- simpl. rewrite Eg. reflexivity.
        -- constructor; assumption.
    + left. rewrite scan_first by assumption.
      destruct (is_string (tok_type tok)); [|eexists; reflexivity].
      destruct (literal_eval (tok_string tok)) as [[v|b|]|e];
        eexists; reflexivity.
  - right. exists [], e. split; [reflexivity | constructor].
Qed.

(** When [extract] returns and when it raises. *)
Lemma extract_returns_or_throws (source : str) :
  (exists r, extract source = Return r)
  \/ (exists e1 trivia e2,
         ast_parse source = Raise e1
         /\ generate_tokens source = Return (yield_all trivia (Throw e2))
         /\ all_trivia trivia
         /\ extract source = Raise e2).
Proof.
  unfold extract_module_docstring, extract_module_docstring_fallback.
  destruct (ast_parse source) as [module|e1].
  - left. destruct (get_docstring module); eexists; reflexivity.
  - destruct (generate_tokens source) as [g|e]; [|left; eexists; reflexivity].
    destruct (scan_returns_or_throws g) as [[r Hr]|[trivia [e2 [Eg Ht]]]].
    + left. exists r. assumption.
    + right. exists e1, trivia, e2. subst g.
      repeat split; try assumption.
      rewrite scan_trivia by assumption. reflexivity.
Qed.

End ExtractorFacts.

Lemma extract_raises_iff
    (ast_parse : str -> result module_)
    (generate_tokens : str -> result tokgen)
    (literal_eval : str -> result pyvalue) (source : str) (e : exn) :
  extract_module_docstring ast_parse generate_tokens literal_eval source
  = Raise e
  <-> exists e1 trivia,
        ast_parse source = Raise e1
        /\ generate_tokens source = Return (yield_all trivia (Throw e))
        /\ all_trivia trivia.
Proof.
  split.
  - intros H.
    destruct (extract_returns_or_throws ast_parse generate_tokens
                literal_eval source)
      as [[r Hr]|[e1 [trivia [e2 [Hp [Hg [Ht He]]]]]]]; [congruence|].
    assert (e2 = e) by congruence. subst e2.
    exists e1, trivia. repeat split; assumption.
  - intros [e1 [trivia [Hp [Hg Ht]]]].
    unfold extract_module_docstring, extract_module_docstring_fallback.
    rewrite Hp, Hg, scan_trivia by assumption. reflexivity.
Qed.

Lemma path_extract_raises_iff
    (ast_parse : str -> result module_)
    (generate_tokens : str -> result tokgen)
    (literal_eval : str -> result pyvalue)
    (tokenize_open read_text : list str -> result str)
    (path : list str) (e : exn) :
  CodebaseSnapshot.extract_module_docstring ast_parse generate_tokens
    literal_eval tokenize_open read_text path = Raise e
  <-> (exists e0, tokenize_open path = Raise e0
                  /\ read_text path = Raise e)
      \/ (exists source e1 trivia,
            _read_python_source tokenize_open read_text path
            = Return source
            /\ ast_parse source = Raise e1
            /\ generate_tokens source
               = Return (yield_all trivia (Throw e))
            /\ all_trivia trivia).
Proof.
  unfold CodebaseSnapshot.extract_module_docstring.
  unfold _read_python_source at 1.
  destruct (tokenize_open path) as [text|e0] eqn:Eo.
  + cbn [bind]. rewrite extract_raises_iff. split.
    * intros [e1 [trivia H]]. right. exists text, e1, trivia.
      split; [unfold _read_python_source; rewrite Eo; reflexivity|].
      exact H.
    * intros [[e0 [H _]]|[source [e1 [trivia [Hr H]]]]]; [discriminate|].
      unfold _read_python_source in Hr. rewrite Eo in Hr.
      injection Hr as <-. exists e1, trivia. exact H.
  + destruct (read_text path) as [text|e'] eqn:Er; cbn [bind].
    * rewrite extract_raises_iff. split.
      -- intros [e1 [trivia H]]. right. exists text, e1, trivia.
         split; [unfold _read_python_source; rewrite Eo, Er;
                 reflexivity|].
         exact H.
      -- intros [[e2 [_ H]]|[source [e1 [trivia [Hr H]]]]];
           [discriminate|].
         unfold _read_python_source in Hr. rewrite Eo, Er in Hr.
         injection Hr as <-. exists e1, trivia. exact H.
    * split.
      -- intros H. injection H as ->. left. exists e0.
         split; reflexivity.
      -- intros [[e2 [_ H]]|[source [e1 [trivia [Hr _]]]]].
         ++ congruence.
         ++ unfold _read_python_source in Hr. rewrite Eo, Er in Hr.
            discriminate.
Qed.

(** C1 fails on the code: the fallback guards the call that builds the
    token generator, not the loop that draws the tokens.  When the parser
    rejects a text and the tokenizer raises before it yields a token that
    is not skipped, [extract] raises that exception. *)
Theorem token_error_escapes
    (ast_parse : str -> result module_)
    (generate_tokens : str -> result tokgen)
    (literal_eval : str -> result pyvalue)
    (source : str) (e1 e2 : exn) (trivia : list token) :
  ast_parse source = Raise e1 ->
  generate_tokens source = Return (yield_all trivia (Throw e2)) ->
  all_trivia trivia ->
  extract_module_docstring ast_parse generate_tokens literal_eval source
  = Raise e2.
Proof.
  intros Hp Hg Ht.
  unfold extract_module_docstring, extract_module_docstring_fallback.
  rewrite Hp, Hg, scan_trivia by assumption. reflexivity.
Qed.

Lemma token_error_escapes_witness :
  cpython_parse src_unterminated = Raise SyntaxError
  /\ cpython_tokens src_unterminated = Return (yield_all [] (Throw TokenError))
  /\ all_trivia []
  /\ extract_module_docstring cpython_parse cpython_tokens cpython_eval
       src_unterminated = Raise TokenError.
Proof.
  assert (H1 : cpython_parse src_unterminated = Raise SyntaxError)
    by reflexivity.
  assert (H2 : cpython_tokens src_unterminated
               = Return (yield_all [] (Throw TokenError))) by reflexivity.
  assert (H3 : all_trivia []) by constructor.
  split; [exact H1|]. split; [exact H2|]. split; [exact H3|].
  exact (@token_error_escapes cpython_parse cpython_tokens cpython_eval
           src_unterminated SyntaxError TokenError [] H1 H2 H3).
Defined.

(** C4, as stated, fails: a leading literal of two spaces is not empty
    once its newlines are stripped, yet the result is [Missing]. *)
Lemma blank_docstring_is_missing :
  cpython_parse src_blank_doc = Return [Expr (Constant (VStr (lit "  ")))]
  /\ strip_nl (lit "  ") = lit "  "
  /\ lit "  " <> []
  /\ extract_module_docstring cpython_parse cpython_tokens cpython_eval
       src_blank_doc = Return None.
Proof. repeat split; try reflexivity. discriminate. Qed.

(** C4, amended. For every text that parses, when the first statement is a
    string literal standing alone, [extract] gives the value of the literal
    without the newlines at its two ends (and with every other character
    kept) if a character other than white space remains, and [Missing] if
    the stripped value is empty or white space only; when the body starts
    with no such literal, it gives [Missing]. *)
Theorem docstring_of_parsed_source
    (ast_parse : str -> result module_)
    (generate_tokens : str -> result tokgen)
    (literal_eval : str -> result pyvalue)
    (source : str) (module : module_) :
  ast_parse source = Return module ->
  (forall text rest,
      module = Expr (Constant (VStr text)) :: rest ->
      ((exists c, In c (strip_nl text) /\ is_space c = false) ->
       extract_module_docstring ast_parse generate_tokens literal_eval source
       = Return (Some (strip_nl text)))
      /\ ((forall c, In c (strip_nl text) -> is_space c = true) ->
          extract_module_docstring ast_parse generate_tokens literal_eval
            source = Return None)
      /\ exists a b,
           text = a ++ strip_nl text ++ b
           /\ Forall (eq LF) a /\ Forall (eq LF) b
           /\ (forall r, strip_nl text <> LF :: r)
           /\ (forall r, strip_nl text <> r ++ [LF]))
  /\ ((forall text rest, module <> Expr (Constant (VStr text)) :: rest) ->
      extract_module_docstring ast_parse generate_tokens literal_eval source
      = Return None).
Proof.
  intros Hp. unfold extract_module_docstring. rewrite Hp. split.
  - intros text rest ->. simpl. rewrite truthy_strip. split; [|split].
    + intros [c [Hc Hs]].
      destruct (forallb is_space (strip_nl text)) eqn:E; [|reflexivity].
      rewrite forallb_forall in E. specialize (E _ Hc). congruence.
    + intros Hall.
      assert (E : forallb is_space (strip_nl text) = true)
        by (apply forallb_forall; assumption).
      rewrite E. reflexivity.
    + apply strip_nl_spec.
  - intros Hno.
    destruct module as [|[[[text| |]|]|] rest]; try reflexivity.
    exfalso. exact (Hno text rest eq_refl).
Qed.

Lemma docstring_of_parsed_source_witness :
  cpython_parse src_doc
  = Return [Expr (Constant (VStr (LF :: lit "  computes totals" ++ [LF; LF])));
            OtherStmt]
  /\ (exists c, In c (strip_nl (LF :: lit "  computes totals" ++ [LF; LF]))
                /\ is_space c = false)
  /\ extract_module_docstring cpython_parse cpython_tokens cpython_eval
       src_doc
     = Return (Some (strip_nl (LF :: lit "  computes totals" ++ [LF; LF])))
  /\ strip_nl (LF :: lit "  computes totals" ++ [LF; LF])
     = lit "  computes totals".
Proof.
  assert (H1 : cpython_parse src_doc
               = Return [Expr (Constant
                                 (VStr (LF :: lit "  computes totals"
                                          ++ [LF; LF])));
                         OtherStmt]) by reflexivity.
  assert (H2 : exists c,
             In c (strip_nl (LF :: lit "  computes totals" ++ [LF; LF]))
             /\ is_space c = false).
  { exists 99%N. split; [vm_compute; tauto | reflexivity]. }
  split; [exact H1|]. split; [exact H2|]. split; [|reflexivity].
  exact (proj1 (proj1 (@docstring_of_parsed_source cpython_parse
                         cpython_tokens cpython_eval src_doc _ H1)
                  _ _ eq_refl) H2).
Defined.

Lemma is_trivia_skipped (t : toktype) :
  is_trivia t = true <-> In t skipped_types.
Proof.
  unfold skipped_types. split.
  - destruct t; simpl; intros H; try discriminate; tauto.
  - intros H. simpl in H. decompose [or] H; subst; try reflexivity.
    contradiction.
Qed.

(** C5. In the fallback only the first token that is not of a skipped type
    (encoding, blank line, end of line, comment, indent, dedent) is looked
    at: what follows it changes nothing; a token that is no string literal
    gives [Missing]; a string token whose literal cannot be decoded gives
    no failure but a result, which is the raw text of the token with the
    newlines at its two ends, and nothing else, taken off (a text with its
    quotes, as every [STRING] token has, is never blank); and a stream
    that ends after skipped tokens only gives [Missing]. *)
Theorem fallback_first_token
    (generate_tokens : str -> result tokgen)
    (literal_eval : str -> result pyvalue)
    (source : str) (trivia : list token) :
  Forall (fun t => In (tok_type t)
                      [ENCODING; NL; NEWLINE; COMMENT; INDENT; DEDENT])
    trivia ->
  (forall tok rest,
      generate_tokens source = Return (yield_all trivia (Yield tok rest)) ->
      ~ In (tok_type tok) [ENCODING; NL; NEWLINE; COMMENT; INDENT; DEDENT] ->
      (forall generate_tokens' rest',
          generate_tokens' source
          = Return (yield_all trivia (Yield tok rest')) ->
          extract_module_docstring_fallback generate_tokens' literal_eval
            source
          = extract_module_docstring_fallback generate_tokens literal_eval
              source)
      /\ (tok_type tok <> STRING ->
          extract_module_docstring_fallback generate_tokens literal_eval
            source = Return None)
      /\ (forall e,
            tok_type tok = STRING ->
            literal_eval (tok_string tok) = Raise e ->
            exists raw a b,
              tok_string tok = a ++ raw ++ b
              /\ Forall (eq LF) a /\ Forall (eq LF) b
              /\ (forall r, raw <> LF :: r)
              /\ (forall r, raw <> r ++ [LF])
              /\ ((exists c, In c raw /\ is_space c = false) ->
                  extract_module_docstring_fallback generate_tokens
                    literal_eval source = Return (Some raw))
              /\ ((forall c, In c raw -> is_space c = true) ->
                  extract_module_docstring_fallback generate_tokens
                    literal_eval source = Return None)
              /\ (has_quote (tok_string tok) = true ->
                  extract_module_docstring_fallback generate_tokens
                    literal_eval source = Return (Some raw))))
  /\ (generate_tokens source = Return (yield_all trivia Stop) ->
      extract_module_docstring_fallback generate_tokens literal_eval source
      = Return None).
Proof.
  intros Hin.
  assert (Ht : all_trivia trivia).
  { eapply Forall_impl; [|exact Hin]. intros t H.
    apply is_trivia_skipped. exact H. }
  unfold extract_module_docstring_fallback. split.
  - intros tok rest Hg Hnot.
    assert (Htok : is_trivia (tok_type tok) = false).
    { destruct (is_trivia (tok_type tok)) eqn:E; [|reflexivity].
      exfalso. apply Hnot. apply is_trivia_skipped. exact E. }
    rewrite Hg, scan_trivia, scan_first by assumption.
    split; [|split].
    + intros g' rest' Hg'. rewrite Hg', scan_trivia, scan_first
        by assumption. reflexivity.
    + intros Hns. destruct (tok_type tok); try reflexivity. congruence.
    + intros e Hs He. rewrite Hs, He. simpl.
      destruct (strip_nl_spec (tok_string tok))
        as [a [b [E [Ha [Hb [Hhd Hlast]]]]]].
      exists (strip_nl (tok_string tok)), a, b.
      split; [exact E|]. split; [exact Ha|]. split; [exact Hb|].
      split; [exact Hhd|]. split; [exact Hlast|].
      rewrite truthy_strip. split; [|split].
      * intros [c [Hc Hsp]].
        destruct (forallb is_space (strip_nl (tok_string tok))) eqn:Ef;
          [|reflexivity].
        rewrite forallb_forall in Ef. specialize (Ef _ Hc). congruence.
      * intros Hall.
        assert (Ef : forallb is_space (strip_nl (tok_string tok)) = true)
          by (apply forallb_forall; assumption).
        rewrite Ef. reflexivity.
      * intros Hq. rewrite <- truthy_strip.
        rewrite quoted_text_truthy by assumption. reflexivity.
  - intros Hg. rewrite Hg, scan_trivia by assumption. reflexivity.
Qed.

Lemma fallback_first_token_witness :
  let skipped := [ENCODING; NL; NEWLINE; COMMENT; INDENT; DEDENT] in
  let trivia := [Token COMMENT (lit "# tool"); Token NL [LF]] in
  Forall (fun t => In (tok_type t) skipped) []
  /\ cpython_tokens src_badname_broken
     = Return (yield_all []
                 (Yield tok_badname
                    (Yield (Token NEWLINE [LF]) toks_open_bracket)))
  /\ ~ In (tok_type tok_badname) skipped
  /\ tok_type tok_badname = STRING
  /\ cpython_eval (tok_string tok_badname) = Raise SyntaxError
  /\ (exists raw a b,
        tok_string tok_badname = a ++ raw ++ b
        /\ Forall (eq LF) a /\ Forall (eq LF) b
        /\ (forall r, raw <> LF :: r)
        /\ (forall r, raw <> r ++ [LF])
        /\ ((exists c, In c raw /\ is_space c = false) ->
            extract_module_docstring_fallback cpython_tokens cpython_eval
              src_badname_broken = Return (Some raw))
        /\ ((forall c, In c raw -> is_space c = true) ->
            extract_module_docstring_fallback cpython_tokens cpython_eval
              src_badname_broken = Return None)
        /\ (has_quote (tok_string tok_badname) = true ->
            extract_module_docstring_fallback cpython_tokens cpython_eval
              src_badname_broken = Return (Some raw)))
  /\ extract_module_docstring_fallback cpython_tokens cpython_eval
       src_badname_broken = Return (Some (tok_string tok_badname))
  /\ Forall (fun t => In (tok_type t) skipped) trivia
  /\ extract_module_docstring_fallback
       (fun _ => Return (yield_all trivia Stop)) cpython_eval (lit "# tool")
     = Return None.
Proof.
  cbv zeta.
  assert (H0 : Forall (fun t => In (tok_type t)
                                  [ENCODING; NL; NEWLINE; COMMENT; INDENT;
                                   DEDENT]) []) by constructor.
  assert (H1 : cpython_tokens src_badname_broken
               = Return (yield_all []
                           (Yield tok_badname
                              (Yield (Token NEWLINE [LF]) toks_open_bracket))))
    by reflexivity.
  assert (H2 : ~ In (tok_type tok_badname)
                 [ENCODING; NL; NEWLINE; COMMENT; INDENT; DEDENT]).
  { simpl. intros H. decompose [or] H; try discriminate. assumption. }
  assert (H3 : tok_type tok_badname = STRING) by reflexivity.
  assert (H5 : cpython_eval (tok_string tok_badname) = Raise SyntaxError)
    by reflexivity.
  assert (H6 : Forall (fun t => In (tok_type t)
                                  [ENCODING; NL; NEWLINE; COMMENT; INDENT;
                                   DEDENT])
                 [Token COMMENT (lit "# tool"); Token NL [LF]]).
  { constructor; [simpl; tauto|]. constructor; [simpl; tauto|].
    constructor. }
  split; [exact H0|]. split; [exact H1|]. split; [exact H2|].
  split; [exact H3|]. split; [exact H5|]. split.
  - exact (proj2 (proj2 (proj1 (@fallback_first_token cpython_tokens
                                  cpython_eval src_badname_broken [] H0)
                           _ _ H1 H2)) _ H3 H5).
  - split; [reflexivity|]. split; [exact H6|].
    exact (proj2 (@fallback_first_token
                    (fun _ => Return (yield_all
                                        [Token COMMENT (lit "# tool");
                                         Token NL [LF]] Stop))
                    cpython_eval (lit "# tool") _ H6) eq_refl).
Defined.

(** C10. In the fallback, when the first token that is not skipped is a
    string token whose literal decodes to a value that is no text (a bytes
    literal), the result is [Missing]: neither the value nor the raw text
    of the token is returned. *)
Theorem fallback_non_text_literal
    (ast_parse : str -> result module_)
    (generate_tokens : str -> result tokgen)
    (literal_eval : str -> result pyvalue)
    (source : str) (e : exn) (trivia : list token) (tok : token)
    (rest : tokgen) (value : pyvalue) :
  ast_parse source = Raise e ->
  generate_tokens source = Return (yield_all trivia (Yield tok rest)) ->
  all_trivia trivia ->
  tok_type tok = STRING ->
  literal_eval (tok_string tok) = Return value ->
  (forall text, value <> VStr text) ->
  extract_module_docstring_fallback generate_tokens literal_eval source
  = Return None
  /\ extract_module_docstring ast_parse generate_tokens literal_eval source
     = Return None.
Proof.
  intros Hp Hg Ht Hs Hv Hno.
  assert (Hf : extract_module_docstring_fallback generate_tokens literal_eval
                 source = Return None).
  { unfold extract_module_docstring_fallback.
    rewrite Hg, scan_trivia by assumption.
    rewrite scan_first by (rewrite Hs; reflexivity).
    rewrite Hs, Hv. simpl.
    destruct value as [text| |]; try reflexivity.
    exfalso. exact (Hno text eq_refl). }
  split; [assumption|].
  unfold extract_module_docstring. rewrite Hp. assumption.
Qed.

Lemma fallback_non_text_literal_witness :
  cpython_parse src_bytes_broken = Raise SyntaxError
  /\ cpython_tokens src_bytes_broken
     = Return (yield_all []
                 (Yield tok_bytes
                    (Yield (Token NEWLINE [LF]) toks_open_bracket)))
  /\ all_trivia []
  /\ tok_type tok_bytes = STRING
  /\ cpython_eval (tok_string tok_bytes) = Return (VBytes (lit "data"))
  /\ (forall text, VBytes (lit "data") <> VStr text)
  /\ extract_module_docstring_fallback cpython_tokens cpython_eval
       src_bytes_broken = Return None
  /\ extract_module_docstring cpython_parse cpython_tokens cpython_eval
       src_bytes_broken = Return None.
Proof.
  assert (H1 : cpython_parse src_bytes_broken = Raise SyntaxError)
    by reflexivity.
  assert (H2 : cpython_tokens src_bytes_broken
               = Return (yield_all []
                           (Yield tok_bytes
                              (Yield (Token NEWLINE [LF]) toks_open_bracket))))
    by reflexivity.
  assert (H3 : all_trivia []) by constructor.
  assert (H4 : tok_type tok_bytes = STRING) by reflexivity.
  assert (H5 : cpython_eval (tok_string tok_bytes)
               = Return (VBytes (lit "data"))) by reflexivity.
  assert (H6 : forall text, VBytes (lit "data") <> VStr text)
    by (intros text; discriminate).
  repeat (split; [assumption|]).
  exact (@fallback_non_text_literal cpython_parse cpython_tokens cpython_eval
           src_bytes_broken SyntaxError [] tok_bytes _ _ H1 H2 H3 H4 H5 H6).
Defined.

(** * Further properties of the code *)

(** The answer of the filter on a non-directory with no excluded
    segment. *)
Lemma should_skip_glob_from_right_aux (fnmatchcase : str -> str -> bool)
    (rel names globs : list str) :
  rel <> [] -> Forall wf_name rel ->
  (forall part, In part rel -> ~ In part names) ->
  valid_globs globs ->
  exists b,
    _should_skip fnmatchcase rel false names globs = Return b
    /\ (b = true <->
        exists g, In g globs /\ fst (parse_parts g) = []
                  /\ suffix_match fnmatchcase rel (snd (parse_parts g))).
Proof.
  intros Hne HF Hnames HG. unfold _should_skip.
  destruct (existsb (fun part => mem part names) rel) eqn:E.
  - apply existsb_exists in E. destruct E as [part [H1 H2]].
    exfalso. apply (Hnames _ H1). apply mem_In. assumption.
  - simpl negb. cbv iota.
    destruct (matches_any_glob_relative fnmatchcase Hne HF HG) as [b [Hb Hspec]].
    rewrite Hb. simpl. exists b. split; [destruct b; reflexivity | assumption].
Qed.


(** ** What the extractor gives *)

Lemma found_shape (value text : str) :
  (if truthy (strip (strip_nl value)) then Some (strip_nl value) else None)
  = Some text ->
  (exists c, In c text /\ is_space c = false)
  /\ (forall r, text <> LF :: r)
  /\ (forall r, text <> r ++ [LF]).
Proof.
  rewrite truthy_strip.
  destruct (forallb is_space (strip_nl value)) eqn:E; [discriminate|].
  intros H. inversion H; subst; clear H. split.
  - clear - E. induction (strip_nl value) as [|c s IH]; [discriminate|].
    simpl in E. destruct (is_space c) eqn:Ec.
    + destruct (IH E) as [d [Hd Hs]]. exists d. split; [right|]; assumption.
    + exists c. split; [left; reflexivity | assumption].
  - destruct (strip_nl_spec value) as [a [b [_ [_ [_ [Hhd Hlast]]]]]].
    split; assumption.
Qed.

Lemma scan_found_shape (literal_eval : str -> result pyvalue) (g : tokgen)
    (text : str) :
  scan_tokens literal_eval g = Return (Some text) ->
  (exists c, In c text /\ is_space c = false)
  /\ (forall r, text <> LF :: r)
  /\ (forall r, text <> r ++ [LF]).
Proof.
  induction g as [|tok rest IH|e]; simpl; try discriminate.
  destruct (is_trivia (tok_type tok)); [assumption|].
  destruct (is_string (tok_type tok)); [|discriminate].
  destruct (literal_eval (tok_string tok)) as [[value|b|]|e];
    try discriminate;
    intros H; injection H as H; exact (found_shape _ H).
Qed.

(** X2. Whatever the parser, the tokenizer and the literal evaluator do, a
    text that [extract] gives as [Found] holds a character that is not
    white space, and neither starts nor ends with a newline. *)
Theorem found_text_is_stripped
    (ast_parse : str -> result module_)
    (generate_tokens : str -> result tokgen)
    (literal_eval : str -> result pyvalue)
    (source text : str) :
  extract_module_docstring ast_parse generate_tokens literal_eval source
  = Return (Some text) ->
  (exists c, In c text /\ is_space c = false)
  /\ (forall r, text <> LF :: r)
  /\ (forall r, text <> r ++ [LF]).
Proof.
  unfold extract_module_docstring, extract_module_docstring_fallback.
  destruct (ast_parse source) as [module|e].
  - destruct (get_docstring module) as [doc|]; [|discriminate].
    intros H. injection H as H. exact (found_shape _ H).
  - destruct (generate_tokens source) as [g|e']; [|discriminate].
    apply scan_found_shape.
Qed.

Lemma found_text_is_stripped_witness :
  extract_module_docstring cpython_parse cpython_tokens cpython_eval src_doc
  = Return (Some (lit "  computes totals"))
  /\ (exists c, In c (lit "  computes totals") /\ is_space c = false)
  /\ (forall r, lit "  computes totals" <> LF :: r)
  /\ (forall r, lit "  computes totals" <> r ++ [LF]).
Proof.
  assert (H : extract_module_docstring cpython_parse cpython_tokens
                cpython_eval src_doc
              = Return (Some (lit "  computes totals"))) by reflexivity.
  split; [exact H|].
  exact (@found_text_is_stripped cpython_parse cpython_tokens cpython_eval
           src_doc _ H).
Defined.

(** X3. When the parser rejects a text and the first token that is not
    skipped is a string token whose literal decodes to a text, [extract]
    gives [Found] of that text without the newlines at its ends if a
    character other than white space remains, and [Missing] otherwise:
    a syntax error further down does not hide a leading literal. *)
Theorem fallback_text_literal
    (ast_parse : str -> result module_)
    (generate_tokens : str -> result tokgen)
    (literal_eval : str -> result pyvalue)
    (source : str) (e : exn) (trivia : list token) (tok : token)
    (rest : tokgen) (value : str) :
  ast_parse source = Raise e ->
  generate_tokens source = Return (yield_all trivia (Yield tok rest)) ->
  all_trivia trivia ->
  tok_type tok = STRING ->
  literal_eval (tok_string tok) = Return (VStr value) ->
  ((exists c, In c (strip_nl value) /\ is_space c = false) ->
   extract_module_docstring ast_parse generate_tokens literal_eval source
   = Return (Some (strip_nl value)))
  /\ ((forall c, In c (strip_nl value) -> is_space c = true) ->
      extract_module_docstring ast_parse generate_tokens literal_eval source
      = Return None).
Proof.
  intros Hp Hg Ht Hs Hv.
  unfold extract_module_docstring, extract_module_docstring_fallback.
  rewrite Hp, Hg, scan_trivia by assumption.
  rewrite scan_first by (rewrite Hs; reflexivity).
  rewrite Hs, Hv. simpl. rewrite truthy_strip. split.
  - intros [c [Hc Hsp]].
    destruct (forallb is_space (strip_nl value)) eqn:E; [|reflexivity].
    rewrite forallb_forall in E. specialize (E _ Hc). congruence.
  - intros Hall.
    assert (E : forallb is_space (strip_nl value) = true)
      by (apply forallb_forall; assumption).
    rewrite E. reflexivity.
Qed.

Lemma fallback_text_literal_witness :
  let trivia := [Token COMMENT (lit "# tool"); Token NL [LF]] in
  cpython_parse src_doc_broken = Raise SyntaxError
  /\ cpython_tokens src_doc_broken
     = Return (yield_all trivia
                 (Yield tok_doc
                    (Yield (Token NEWLINE [LF]) toks_open_bracket)))
  /\ all_trivia trivia
  /\ tok_type tok_doc = STRING
  /\ cpython_eval (tok_string tok_doc) = Return (VStr (lit "doc"))
  /\ (exists c, In c (strip_nl (lit "doc")) /\ is_space c = false)
  /\ extract_module_docstring cpython_parse cpython_tokens cpython_eval
       src_doc_broken = Return (Some (strip_nl (lit "doc"))).
Proof.
  cbv zeta.
  assert (H1 : cpython_parse src_doc_broken = Raise SyntaxError)
    by reflexivity.
  assert (H2 : cpython_tokens src_doc_broken
               = Return (yield_all
                           [Token COMMENT (lit "# tool"); Token NL [LF]]
                           (Yield tok_doc
                              (Yield (Token NEWLINE [LF]) toks_open_bracket))))
    by reflexivity.
  assert (H3 : all_trivia [Token COMMENT (lit "# tool"); Token NL [LF]])
    by (repeat constructor).
  assert (H4 : tok_type tok_doc = STRING) by reflexivity.
  assert (H5 : cpython_eval (tok_string tok_doc) = Return (VStr (lit "doc")))
    by reflexivity.
  assert (H6 : exists c, In c (strip_nl (lit "doc")) /\ is_space c = false).
  { exists 100%N. split; [vm_compute; tauto | reflexivity]. }
  repeat (split; [assumption|]).
  exact (proj1 (@fallback_text_literal cpython_parse cpython_tokens
                  cpython_eval src_doc_broken _ _ _ _ _ H1 H2 H3 H4 H5) H6).
Defined.

(** ** What the truncator keeps *)

Lemma open_end_split_on (sep : char) (t : str) :
  open_end (split_on sep t) = false ->
  t = [] \/ exists r, t = r ++ [sep].
Proof.
  induction t as [|c t IH]; intros H; [left; reflexivity|]. right.
  cbn [split_on] in H. pose proof (split_on_nonnil sep t) as Hnn.
  destruct (split_on sep t) as [|l0 ls] eqn:E; [congruence|].
  destruct (N.eqb_spec c sep) as [->|Hne].
  - unfold open_end in H. rewrite last_cons in H.
    destruct (IH H) as [->|[r ->]]; [exists []; reflexivity|].
    exists (sep :: r). reflexivity.
  - cbn [cons_first] in H.
    destruct ls as [|l1 ls]; [discriminate H|].
    assert (Ho : open_end (l0 :: l1 :: ls) = false).
    { unfold open_end in *. rewrite last_cons in *. exact H. }
    destruct (IH Ho) as [->|[r ->]]; [discriminate E|].
    exists (c :: r). reflexivity.
Qed.

(** A text whose only line boundary is the newline and that does not end
    with one is the join of its lines. *)
Lemma join_splitlines_same (t : str) :
  (forall c, In c t -> is_linebreak c = true -> c = LF) ->
  (forall r, t <> r ++ [LF]) ->
  join_nl (splitlines t) = t.
Proof.
  intros Hlf Hend. destruct t as [|c0 t0]; [reflexivity|].
  set (t := c0 :: t0) in *.
  assert (HF : Forall plain (split_on LF t)).
  { rewrite Forall_forall. intros l Hl c Hc.
    destruct (split_on_chars _ _ _ c Hl Hc) as [Hin Hne].
    destruct (is_linebreak c) eqn:E; [|reflexivity].
    exfalso. apply Hne. apply Hlf; assumption. }
  assert (Ho : open_end (split_on LF t) = true).
  { destruct (open_end (split_on LF t)) eqn:E; [reflexivity|].
    apply open_end_split_on in E. destruct E as [E|[r E]].
    - discriminate E.
    - exfalso. exact (Hend r E). }
  rewrite <- (join_split_on LF t) at 1.
  change (join_on LF (split_on LF t)) with (join_nl (split_on LF t)).
  rewrite splitlines_join by assumption.
  apply join_split_on.
Qed.

Lemma join_snoc_marker (xs : list str) :
  exists pre, join_nl (xs ++ [marker]) = pre ++ marker.
Proof.
  destruct xs as [|x xs].
  - exists []. reflexivity.
  - exists (join_nl (x :: xs) ++ [LF]). unfold join_nl.
    rewrite join_on_snoc by discriminate. rewrite <- app_assoc. reflexivity.
Qed.

(** X4. For all limits, a text within both limits comes back as its lines
    joined by newlines, so unchanged when the newline is its only line
    boundary and it does not end with one; a text beyond a limit comes
    back ending with the marker: a cut is never silent. *)
Theorem truncate_marks_every_cut (text : str) (max_lines max_chars : Z) :
  (len (splitlines text) <= max_lines ->
   len (join_nl (splitlines text)) <= max_chars ->
   truncate text max_lines max_chars = join_nl (splitlines text)
   /\ ((forall c, In c text -> is_linebreak c = true -> c = LF) ->
       (forall r, text <> r ++ [LF]) ->
       truncate text max_lines max_chars = text))
  /\ (max_lines < len (splitlines text)
      \/ max_chars < len (join_nl (splitlines text)) ->
      exists pre, truncate text max_lines max_chars = pre ++ marker).
Proof.
  unfold truncate. split.
  - intros HL HC.
    destruct (Z.gtb_spec (len (splitlines text)) max_lines); [lia|].
    destruct (Z.gtb_spec (len (join_nl (splitlines text))) max_chars); [lia|].
    split; [reflexivity|]. intros Hlf Hend.
    apply join_splitlines_same; assumption.
  - intros Hover.
    destruct (Z.gtb_spec (len (splitlines text)) max_lines) as [Hgt|Hle].
    + destruct (Z.gtb_spec
                  (len (join_nl (slice_to max_lines (splitlines text)
                                   ++ [marker]))) max_chars).
      * eexists (_ ++ [LF]). rewrite <- app_assoc. reflexivity.
      * apply join_snoc_marker.
    + destruct Hover as [Hover|Hover]; [lia|].
      destruct (Z.gtb_spec (len (join_nl (splitlines text))) max_chars);
        [|lia].
      eexists (_ ++ [LF]). rewrite <- app_assoc. reflexivity.
Qed.

Lemma truncate_marks_every_cut_witness :
  let text := lit "one" ++ LF :: lit "two" ++ LF :: lit "three" in
  len (splitlines text) <= 5
  /\ len (join_nl (splitlines text)) <= 40
  /\ (forall c, In c text -> is_linebreak c = true -> c = LF)
  /\ (forall r, text <> r ++ [LF])
  /\ truncate text 5 40 = text
  /\ 2 < len (splitlines text)
  /\ exists pre, truncate text 2 40 = pre ++ marker.
Proof.
  cbv zeta.
  set (text := lit "one" ++ LF :: lit "two" ++ LF :: lit "three").
  assert (H1 : len (splitlines text) <= 5) by (vm_compute; discriminate).
  assert (H2 : len (join_nl (splitlines text)) <= 40)
    by (vm_compute; discriminate).
  assert (H3 : forall c, In c text -> is_linebreak c = true -> c = LF).
  { intros c Hin. vm_compute in Hin.
    decompose [or] Hin; subst; try reflexivity; try discriminate;
      contradiction. }
  assert (H4 : forall r, text <> r ++ [LF]).
  { intros r E. apply (f_equal (@rev char)) in E.
    rewrite rev_app_distr in E. vm_compute in E. discriminate. }
  assert (H5 : 2 < len (splitlines text)) by (vm_compute; reflexivity).
  split; [exact H1|]. split; [exact H2|]. split; [exact H3|].
  split; [exact H4|].
  split; [exact (proj2 (proj1 (truncate_marks_every_cut text 5 40) H1 H2)
                   H3 H4)|].
  split; [exact H5|].
  exact (proj2 (truncate_marks_every_cut text 2 40) (or_introl H5)).
Defined.

Lemma splitlines_join_le (ls : list str) :
  Forall plain ls ->
  (List.length (splitlines (join_nl ls)) <= List.length ls)%nat.
Proof.
  unfold join_nl. induction 1 as [|l ls Hl HF IH]; [apply Nat.le_refl|].
  destruct ls as [|l2 ls].
  - simpl join_on. destruct l as [|c l]; [simpl; lia|].
    rewrite splitlines_line by (assumption || discriminate). apply Nat.le_refl.
  - rewrite join_on_cons by discriminate.
    rewrite splitlines_app_LF by assumption.
    simpl List.length in *. lia.
Qed.

Lemma kept_lines (lines : list str) (max_lines : Z) :
  0 <= max_lines -> Forall plain lines ->
  let kept := if len lines >? max_lines
              then slice_to max_lines lines ++ [marker] else lines in
  Forall plain kept
  /\ (len kept <= max_lines
      \/ exists pre, kept = pre ++ [marker] /\ len pre = max_lines).
Proof.
  intros HL HF. cbv zeta.
  destruct (Z.gtb_spec (len lines) max_lines) as [Hgt|Hle].
  - rewrite slice_to_nonneg by assumption. split.
    + apply Forall_app. split; [apply Forall_firstn; assumption|].
      constructor; [apply plain_marker | constructor].
    + right. eexists. split; [reflexivity|].
      unfold len in *. rewrite length_firstn. lia.
  - split; [assumption | left; assumption].
Qed.

(** The lines left by the cut at the character limit. *)
Lemma char_cut_lines (kept : list str) (max_lines max_chars : Z) :
  0 <= max_lines -> 20 <= max_chars -> Forall plain kept ->
  (len kept <= max_lines
   \/ exists pre, kept = pre ++ [marker] /\ len pre = max_lines) ->
  max_chars < len (join_nl kept) ->
  len (splitlines (rstrip (slice_to (max_chars - 20) (join_nl kept))
                     ++ LF :: marker)) <= max_lines + 1.
Proof.
  intros HL HC HF Hcount Hgt.
  set (out := join_nl kept) in *.
  rewrite slice_to_nonneg by lia.
  set (k := Z.to_nat (max_chars - 20)).
  destruct (rstrip_prefix (firstn k out)) as [t Ht].
  set (P := rstrip (firstn k out)) in *.
  set (ps := split_on LF P).
  assert (Hps : join_on LF ps = P) by apply join_split_on.
  assert (Hnn : ps <> []) by apply split_on_nonnil.
  assert (HPin : forall c, In c P -> In c out).
  { intros c Hc. rewrite <- (firstn_skipn k out). apply in_or_app. left.
    rewrite Ht. apply in_or_app. left. assumption. }
  assert (HFps : Forall plain ps).
  { rewrite Forall_forall. intros l Hl c Hc.
    destruct (split_on_chars _ _ _ c Hl Hc) as [HcP Hne].
    destruct (join_on_chars _ _ _ (HPin _ HcP)) as [->|[l' [Hl' Hc']]];
      [congruence|].
    rewrite Forall_forall in HF. exact (HF _ Hl' _ Hc'). }
  assert (Hr : P ++ LF :: marker = join_nl (ps ++ [marker])).
  { unfold join_nl. rewrite join_on_snoc by assumption. rewrite Hps.
    reflexivity. }
  rewrite Hr.
  assert (Hle : (List.length (splitlines (join_nl (ps ++ [marker])))
                 <= List.length (ps ++ [marker]))%nat).
  { apply splitlines_join_le. apply Forall_app. split; [assumption|].
    constructor; [apply plain_marker | constructor]. }
  rewrite length_app in Hle. simpl in Hle.
  assert (Hcnt : (count_occ N.eq_dec P LF
                  <= count_occ N.eq_dec (firstn k out) LF)%nat).
  { rewrite Ht. rewrite count_occ_app. apply Nat.le_add_r. }
  assert (Hlen : (List.length ps <= Z.to_nat max_lines)%nat).
  { unfold ps. rewrite length_split_on.
    destruct Hcount as [Hle'|[pre [Hpre Hn]]].
    - assert (kept <> []).
      { intros E. unfold out in Hgt. rewrite E in Hgt. simpl in Hgt.
        unfold len in Hgt. simpl in Hgt. lia. }
      pose proof (count_LF_join HF H) as Hc.
      pose proof (count_occ_firstn k out LF) as Hf.
      fold out in Hc. unfold len in Hle'. lia.
    - destruct pre as [|p pre].
      + exfalso. unfold out in Hgt. rewrite Hpre in Hgt.
        change (len (join_nl ([] ++ [marker]))) with 13 in Hgt. lia.
      + assert (HFpre : Forall plain (p :: pre)).
        { rewrite Hpre in HF. apply Forall_app in HF. tauto. }
        pose proof (@count_LF_join (p :: pre) HFpre ltac:(discriminate)) as Hc.
        assert (Hout : out = join_nl (p :: pre) ++ LF :: marker).
        { unfold out. rewrite Hpre. unfold join_nl.
          apply join_on_snoc. discriminate. }
        assert (Hk : (k <= List.length (join_nl (p :: pre)))%nat).
        { rewrite Hout in Hgt. rewrite len_app in Hgt.
          change (len (LF :: marker)) with 14 in Hgt.
          unfold len in Hgt. unfold k. lia. }
        assert (Hfirst : firstn k out = firstn k (join_nl (p :: pre))).
        { rewrite Hout. rewrite firstn_app.
          replace (k - List.length (join_nl (p :: pre)))%nat with 0%nat by lia.
          simpl firstn at 2. apply app_nil_r. }
        rewrite Hfirst in Hcnt.
        pose proof (count_occ_firstn k (join_nl (p :: pre)) LF) as Hf.
        unfold len in Hn. lia. }
  unfold len. lia.
Qed.

(** X5. With [max_lines >= 0] and [max_chars >= 20] the result of
    [truncate] has at most [max_lines + 1] lines, for every text: the lines
    kept and one marker line. *)
Theorem truncate_line_bound (text : str) (max_lines max_chars : Z) :
  0 <= max_lines -> 20 <= max_chars ->
  len (splitlines (truncate text max_lines max_chars)) <= max_lines + 1.
Proof.
  intros HL HC. unfold truncate.
  destruct (@kept_lines (splitlines text) max_lines HL (splitlines_plain text))
    as [HF Hcount].
  set (kept := if len (splitlines text) >? max_lines
               then slice_to max_lines (splitlines text) ++ [marker]
               else splitlines text) in *.
  destruct (Z.gtb_spec (len (join_nl kept)) max_chars) as [Hgt|Hle].
  - apply char_cut_lines; assumption.
  - pose proof (splitlines_join_le HF) as Hjoin.
    destruct Hcount as [Hc|[pre [Hpre Hn]]].
    + unfold len in *. lia.
    + rewrite Hpre in Hjoin. rewrite length_app in Hjoin. simpl in Hjoin.
      rewrite <- Hpre in Hjoin. unfold len in *. lia.
Qed.

Lemma truncate_line_bound_witness :
  0 <= 2 /\ 20 <= 30
  /\ len (splitlines
            (truncate (lit "one two three four five six" ++ LF :: lit "b"
                         ++ LF :: LF :: lit "c" ++ [LF; LF]) 2 30))
     <= 2 + 1.
Proof.
  split; [lia|]. split; [lia|].
  apply truncate_line_bound; lia.
Defined.

(** ** When the renderer returns *)

Section RendererErrors.

Variable lower : str -> str.
Variable fnmatchcase : str -> str -> bool.
Variable iterdir : list str -> listing.
Variable exclude_dirs : list str.
Variable exclude_globs : list str.

Lemma bind_Raise (A B : Type) (m : result A) (k : A -> result B) (e : exn) :
  bind m k = Raise e -> m = Raise e \/ exists a, m = Return a /\ k a = Raise e.
Proof.
  destruct m as [a|e']; simpl; intros H.
  - right. exists a. split; [reflexivity | assumption].
  - left. injection H as ->. reflexivity.
Qed.

Lemma path_match_raises (path pattern : str) (e : exn) :
  path_match fnmatchcase path pattern = Raise e -> e = ValueError.
Proof.
  unfold path_match.
  destruct (parse_parts pattern) as [proot pats].
  destruct (parse_parts path) as [root parts].
  destruct pats; [intros H; inversion H; reflexivity|].
  repeat match goal with
         | |- context [if ?b then _ else _] => destruct b
         end; discriminate.
Qed.

Lemma matches_any_glob_raises (rel_path : str) (globs : list str) (e : exn) :
  _matches_any_glob fnmatchcase rel_path globs = Raise e -> e = ValueError.
Proof.
  induction globs as [|g globs IH]; simpl; [discriminate|].
  intros H. apply bind_Raise in H. destruct H as [H|[b [_ H]]].
  - eapply path_match_raises. exact H.
  - destruct b; [discriminate | auto].
Qed.

Lemma should_skip_raises (rel : list str) (is_dir : bool) (e : exn) :
  _should_skip fnmatchcase rel is_dir exclude_dirs exclude_globs = Raise e ->
  e = ValueError.
Proof.
  unfold _should_skip.
  destruct (existsb (fun part => mem part exclude_dirs) rel); [discriminate|].
  destruct (negb is_dir); [|discriminate].
  intros H. apply bind_Raise in H. destruct H as [H|[b [_ H]]].
  - eapply matches_any_glob_raises. exact H.
  - destruct b; discriminate.
Qed.

Lemma filter_entries_raises (dir : list str) (es : list dirent) (e : exn) :
  filter_entries fnmatchcase exclude_dirs exclude_globs dir es = Raise e ->
  e = ValueError \/ exists p, In p es /\ stat p = Raise e.
Proof.
  induction es as [|p es IH]; simpl; [discriminate|].
  intros H. apply bind_Raise in H. destruct H as [H|[[] [_ H]]].
  { right. exists p. split; [left; reflexivity | assumption]. }
  apply bind_Raise in H. destruct H as [H|[b [_ H]]].
  - left. eapply should_skip_raises. exact H.
  - apply bind_Raise in H. destruct H as [H|[l [_ H]]]; [|discriminate].
    destruct (IH H) as [->|[q [Hq Hs]]]; [left; reflexivity|].
    right. exists q. split; [right|]; assumption.
Qed.

Lemma emit_raises (P : exn -> Prop)
    (w : list str -> str -> result (list str))
    (dir : list str) (prefix : str) (l : list dirent) (e : exn) :
  (forall d p e', w d p = Raise e' -> P e') ->
  emit w dir prefix l = Raise e -> P e.
Proof.
  intros Hw. induction l as [|p l IH]; simpl; [discriminate|].
  intros H. apply bind_Raise in H. destruct H as [H|[sub [_ H]]].
  - destruct (is_dir p); [eapply Hw; exact H | discriminate].
  - apply bind_Raise in H. destruct H as [H|[more [_ H]]];
      [auto | discriminate].
Qed.

Lemma walk_levels_raises (n : nat) (dir : list str) (prefix : str)
    (e : exn) :
  walk_levels lower fnmatchcase iterdir exclude_dirs exclude_globs
    n dir prefix = Raise e ->
  e = ValueError \/ stat_raises iterdir e.
Proof.
  revert dir prefix e. induction n as [|n IH]; intros dir prefix e;
    simpl; [discriminate|].
  destruct (iterdir dir) as [|es] eqn:Els; [discriminate|].
  intros H. apply bind_Raise in H. destruct H as [H|[filtered [_ H]]].
  - destruct (filter_entries_raises _ _ H) as [->|[p [Hp Hs]]];
      [left; reflexivity|].
    right. exists dir, es, p. repeat split; assumption.
  - apply (@emit_raises (fun e0 => e0 = ValueError \/ stat_raises iterdir e0)
             _ _ _ _ e (fun d p e' => IH d p e') H).
Qed.

End RendererErrors.


Lemma sample_state_wf : wf_state sample_state.
Proof.
  intros dir es. unfold sample_state.
  repeat match goal with
         | |- context [if ?b then _ else _] => destruct b
         end;
    intros H; inversion H; subst; clear H;
    repeat (constructor;
            [unfold wf_name; simpl d_name;
             split; [discriminate|];
             split; [|discriminate];
             intros Hin; vm_compute in Hin; decompose [or] Hin;
             try discriminate; assumption|]);
    constructor.
Qed.

Lemma sample_globs_valid : valid_globs sample_globs.
Proof. repeat constructor; vm_compute; discriminate. Qed.

Lemma sample_state_stats : stats_return sample_state.
Proof.
  intros dir es. unfold sample_state.
  repeat match goal with
         | |- context [if ?b then _ else _] => destruct b
         end;
    intros H; inversion H; subst; clear H;
    repeat (constructor; [reflexivity|]); constructor.
Qed.


(** ** Rendering to a smaller depth *)

Section Shallower.

Variable lower : str -> str.
Variable fnmatchcase : str -> str -> bool.
Variable iterdir : list str -> listing.
Variable exclude_dirs : list str.
Variable exclude_globs : list str.

Local Abbreviation trace_levels' :=
  (trace_levels lower fnmatchcase iterdir exclude_dirs exclude_globs).

Lemma emit_trace_filter (t1 t2 : list str -> str -> result (list item))
    (dir : list str) (prefix : str) (l : list dirent) (k : nat)
    (items : list item) :
  (forall p pre its,
      t1 (dir ++ [d_name p]) pre = Return its ->
      t2 (dir ++ [d_name p]) pre = Return (filter (within k) its)) ->
  (List.length dir + 1 <= k)%nat ->
  emit_trace t1 dir prefix l = Return items ->
  emit_trace t2 dir prefix l = Return (filter (within k) items).
Proof.
  intros Ht Hk. revert items. induction l as [|p l IH]; intros items H.
  - inversion H; subst. reflexivity.
  - apply emit_trace_cons in H. destruct H as [sub [more [Hsub [Hmore ->]]]].
    simpl. rewrite (IH _ Hmore).
    assert (Hin : Nat.leb (List.length (dir ++ [d_name p])) k = true).
    { apply Nat.leb_le. rewrite length_app. simpl. lia. }
    rewrite Hin, filter_app.
    destruct (is_dir p).
    + rewrite (Ht _ _ _ Hsub). reflexivity.
    + inversion Hsub; subst. reflexivity.
Qed.

Lemma trace_shallower (n : nat) (dir : list str) (prefix : str)
    (items : list item) :
  trace_levels' (S n) dir prefix = Return items ->
  trace_levels' n dir prefix
  = Return (filter (within (List.length dir + n)) items).
Proof.
  revert dir prefix items. induction n as [|n IH]; intros dir prefix items H.
  - simpl trace_levels at 1.
    pose proof (trace_paths_depth _ _ _ _ _ _ _ _ H) as HF.
    assert (E : filter (within (List.length dir + 0)) items = []).
    { clear H. induction HF as [|it items [suf [Es Hn]] _ IHF];
        [reflexivity|].
      simpl. rewrite IHF.
      destruct it as [rel p line|d line]; simpl in *; subst.
      - rewrite length_app.
        destruct (Nat.leb_spec (List.length dir + List.length suf)
                    (List.length dir + 0)); [lia | reflexivity].
      - rewrite length_app.
        destruct (Nat.ltb_spec (List.length dir + List.length suf)
                    (List.length dir + 0)); [lia | reflexivity]. }
    rewrite E. reflexivity.
  - cbn [trace_levels] in H. cbn [trace_levels].
    destruct (iterdir dir) as [|es].
    + inversion H; subst. simpl.
      destruct (Nat.ltb_spec (List.length dir) (List.length dir + S n));
        [reflexivity | lia].
    + apply bind_Return in H. destruct H as [filtered [Hf H]].
      rewrite Hf. simpl bind.
      eapply emit_trace_filter; [|lia|exact H].
      intros p pre its Hits. rewrite (IH _ _ _ Hits).
      rewrite length_app. simpl.
      replace (List.length dir + 1 + n)%nat
        with (List.length dir + S n)%nat by lia.
      reflexivity.
Qed.

End Shallower.

(** X7. Rendering one level less gives the deeper rendering without its
    deepest lines: for [max_depth >= 0], the lines at depth [max_depth] are
    the lines at depth [max_depth + 1] that show an entry at most
    [max_depth] parts beneath the root (or stand for a directory less than
    [max_depth] parts beneath it), unchanged and in the same order. *)
Theorem shallower_render_is_filtered
    (lower : str -> str) (fnmatchcase : str -> str -> bool)
    (iterdir : list str -> listing) (names globs : list str)
    (label : str) (max_depth : Z) (items : list item) :
  0 <= max_depth ->
  build_tree_trace lower fnmatchcase iterdir names globs (max_depth + 1)
  = Return items ->
  build_tree_lines lower fnmatchcase iterdir names globs
    label (max_depth + 1)
  = Return (label :: List.map item_line items)
  /\ build_tree_lines lower fnmatchcase iterdir names globs label max_depth
     = Return (label :: List.map item_line
                          (filter (within (Z.to_nat max_depth)) items)).
Proof.
  intros Hm Ht. unfold build_tree_lines, build_tree_trace, walk in *.
  rewrite !walk_levels_lines_of.
  replace (Z.to_nat (max_depth + 1 - 0)) with (S (Z.to_nat (max_depth - 0)))
    in * by lia.
  rewrite (trace_shallower _ _ _ _ _ _ _ _ Ht), Ht. simpl.
  replace (Z.to_nat (max_depth - 0)) with (Z.to_nat max_depth) by lia.
  split; reflexivity.
Qed.

Lemma shallower_render_is_filtered_witness :
  0 <= 2
  /\ exists items,
      build_tree_trace lower_ascii fnmatch_plain sample_state sample_names
        sample_globs (2 + 1) = Return items
      /\ build_tree_lines lower_ascii fnmatch_plain sample_state
           sample_names sample_globs (lit "/repo") (2 + 1)
         = Return (lit "/repo" :: List.map item_line items)
      /\ build_tree_lines lower_ascii fnmatch_plain sample_state
           sample_names sample_globs (lit "/repo") 2
         = Return (lit "/repo" :: List.map item_line
                                    (filter (within (Z.to_nat 2)) items)).
Proof.
  split; [lia|]. eexists. split; [vm_compute; reflexivity|].
  apply shallower_render_is_filtered; [lia|].
  vm_compute. reflexivity.
Defined.

(** ** Nothing within reach is left out *)

Section Complete.

Variable lower : str -> str.
Variable fnmatchcase : str -> str -> bool.
Variable iterdir : list str -> listing.
Variable exclude_dirs : list str.
Variable exclude_globs : list str.

Local Abbreviation trace_levels' :=
  (trace_levels lower fnmatchcase iterdir exclude_dirs exclude_globs).
Local Abbreviation reached' :=
  (reached fnmatchcase iterdir exclude_dirs exclude_globs).

Lemma emit_trace_member (t : list str -> str -> result (list item))
    (dir : list str) (prefix : str) (l : list dirent) (items : list item)
    (p : dirent) :
  emit_trace t dir prefix l = Return items -> In p l ->
  (exists line, In (Shown (dir ++ [d_name p]) p line) items)
  /\ (is_dir p = true ->
      exists pre sub,
        t (dir ++ [d_name p]) pre = Return sub /\ incl sub items).
Proof.
  revert items. induction l as [|q l IH]; intros items H Hp; [destruct Hp|].
  apply emit_trace_cons in H. destruct H as [sub [more [Hsub [Hmore ->]]]].
  destruct Hp as [->|Hp].
  - split.
    + eexists. left. reflexivity.
    + intros Hd. rewrite Hd in Hsub. eexists. exists sub.
      split; [exact Hsub|]. intros it Hit. right. apply in_or_app.
      left. assumption.
  - destruct (IH _ Hmore Hp) as [[line Hline] Hdir]. split.
    + exists line. right. apply in_or_app. right. assumption.
    + intros Hd. destruct (Hdir Hd) as [pre [s [Hs Hincl]]].
      exists pre, s. split; [assumption|]. intros it Hit. right.
      apply in_or_app. right. apply Hincl. assumption.
Qed.

(** The walk of a directory within reach is part of the whole walk. *)
Lemma sub_trace (n : nat) (items : list item) (dir : list str) :
  trace_levels' n [] [] = Return items ->
  reached' dir -> (List.length dir <= n)%nat ->
  exists prefix its,
    trace_levels' (n - List.length dir) dir prefix = Return its
    /\ incl its items.
Proof.
  intros Ht Hr. induction Hr as [|dir es filtered p Hr IH Hes Hf Hp Hd];
    intros Hlen.
  - exists [], items. rewrite Nat.sub_0_r. split; [assumption|].
    apply incl_refl.
  - rewrite length_app in *. simpl in Hlen.
    destruct IH as [prefix [its [Hits Hincl]]]; [lia|].
    replace (n - List.length dir)%nat
      with (S (n - (List.length dir + List.length [d_name p])))%nat in Hits
      by (simpl; lia).
    cbn [trace_levels] in Hits. rewrite Hes, Hf in Hits.
    simpl bind in Hits.
    destruct (emit_trace_member _ _ _ _ p Hits) as [_ Hsub].
    { eapply Permutation_in; [symmetry; apply sort_entries_perm | exact Hp]. }
    destruct (Hsub Hd) as [pre [sub [Hs Hsi]]].
    exists pre, sub. split; [exact Hs|].
    intros it Hit. apply Hincl. apply Hsi. assumption.
Qed.

End Complete.

(** What is within reach is in the trace. *)
Lemma reached_entries_in_trace
    (lower : str -> str) (fnmatchcase : str -> str -> bool)
    (iterdir : list str -> listing) (names globs : list str)
    (max_depth : Z) (items : list item) (dir : list str) :
  build_tree_trace lower fnmatchcase iterdir names globs max_depth
  = Return items ->
  reached fnmatchcase iterdir names globs dir ->
  len dir < max_depth ->
  (iterdir dir = PermissionDenied ->
   exists line, In (Denied dir line) items)
  /\ (forall es filtered p,
        iterdir dir = Entries es ->
        filter_entries fnmatchcase names globs dir es = Return filtered ->
        In p filtered ->
        exists line, In (Shown (dir ++ [d_name p]) p line) items).
Proof.
  unfold build_tree_trace. intros Ht Hr Hlen.
  destruct (@sub_trace lower fnmatchcase iterdir names globs _ items dir
              Ht Hr) as [prefix [its [Hits Hincl]]];
    [unfold len in Hlen; lia|].
  replace (Z.to_nat (max_depth - 0) - List.length dir)%nat
    with (S (Z.to_nat (max_depth - 0) - List.length dir - 1))%nat in Hits
    by (unfold len in Hlen; lia).
  cbn [trace_levels] in Hits. split.
  - intros Hden. rewrite Hden in Hits. inversion Hits; subst.
    eexists. apply Hincl. left. reflexivity.
  - intros es filtered p Hes Hf Hp. rewrite Hes, Hf in Hits.
    simpl bind in Hits.
    destruct (emit_trace_member _ _ _ _ p Hits) as [[line Hline] _].
    { eapply Permutation_in; [symmetry; apply sort_entries_perm | exact Hp]. }
    exists line. apply Hincl. assumption.
Qed.

Lemma sample_reached_locked :
  reached fnmatch_plain sample_state sample_names sample_globs
    [lit "a"; lit "locked"].
Proof.
  change [lit "a"; lit "locked"]
    with (([] ++ [d_name (Dirent (lit "a") KDir)])
            ++ [d_name (Dirent (lit "locked") KDir)]).
  eapply reached_child.
  - eapply reached_child.
    + apply reached_root.
    + reflexivity.
    + vm_compute. reflexivity.
    + right. left. reflexivity.
    + reflexivity.
  - reflexivity.
  - vm_compute. reflexivity.
  - right. right. left. reflexivity.
  - reflexivity.
Qed.


(** ** The shape of the lines *)

Section Shape.

Variable lower : str -> str.
Variable fnmatchcase : str -> str -> bool.
Variable iterdir : list str -> listing.
Variable exclude_dirs : list str.
Variable exclude_globs : list str.

Local Abbreviation trace_levels' :=
  (trace_levels lower fnmatchcase iterdir exclude_dirs exclude_globs).

Lemma length_extension (is_last : bool) :
  List.length (extension is_last) = 4%nat.
Proof. destruct is_last; reflexivity. Qed.

Lemma drawn_deeper (indent depth : nat) (it : item) :
  drawn (indent + 4) (S depth) it -> drawn indent depth it.
Proof.
  destruct it as [rel p line|d line]; simpl.
  - intros [pre [conn [parent [E [Hc [Er Hl]]]]]].
    exists pre, conn, parent. repeat split; try assumption. lia.
  - intros [pre [E Hl]]. exists pre. split; [assumption | lia].
Qed.

Lemma trace_drawn (n : nat) (dir : list str) (prefix : str)
    (items : list item) :
  trace_levels' n dir prefix = Return items ->
  Forall (drawn (List.length prefix) (List.length dir)) items.
Proof.
  revert dir prefix items. induction n as [|n IH]; intros dir prefix items H.
  - inversion H; subst. constructor.
  - cbn [trace_levels] in H. destruct (iterdir dir) as [|es].
    { inversion H; subst. constructor; [|constructor].
      exists prefix. split; [reflexivity | lia]. }
    apply bind_Return in H. destruct H as [filtered [_ H]].
    revert items H.
    induction (sort_entries lower filtered) as [|p rest IHrest];
      intros items H.
    + inversion H; subst. constructor.
    + apply emit_trace_cons in H.
      destruct H as [sub [more [Hsub [Hmore ->]]]].
      constructor; [|apply Forall_app; split].
      * exists prefix, (if is_nil rest then corner else branch), dir.
        split; [reflexivity|].
        split; [destruct (is_nil rest); [left | right]; reflexivity|].
        split; [reflexivity | lia].
      * destruct (is_dir p); [|inversion Hsub; constructor].
        apply IH in Hsub. eapply Forall_impl; [|exact Hsub].
        intros it Hit. apply drawn_deeper.
        rewrite !length_app, length_extension in Hit. simpl in Hit.
        replace (S (List.length dir)) with (List.length dir + 1)%nat by lia.
        exact Hit.
      * apply IHrest. assumption.
Qed.

End Shape.

(** X9. Every line of the tree below the root line is an indentation of
    four characters for each directory above the entry, then a connector
    (the corner or the branch), then the name of the entry itself, followed
    by the separator exactly when the entry is a directory; a placeholder
    is indented like the entries of the directory it stands for. *)
Theorem lines_are_indented_names
    (lower : str -> str) (fnmatchcase : str -> str -> bool)
    (iterdir : list str -> listing) (names globs : list str)
    (label : str) (max_depth : Z) (lines : list str) :
  build_tree_lines lower fnmatchcase iterdir names globs label max_depth
  = Return lines ->
  exists items,
    build_tree_trace lower fnmatchcase iterdir names globs max_depth
    = Return items
    /\ lines = label :: List.map item_line items
    /\ forall it, In it items ->
         match it with
         | Shown rel p line =>
             exists pre conn parent,
               line = pre ++ conn ++ d_name p
                          ++ (if is_dir p then [SEP] else [])
               /\ (conn = corner \/ conn = branch)
               /\ rel = parent ++ [d_name p]
               /\ len pre = 4 * len parent
         | Denied dir line =>
             exists pre,
               line = pre ++ corner ++ denied /\ len pre = 4 * len dir
         end.
Proof.
  intros H.
  destruct (build_tree_lines_trace _ _ _ _ _ _ _ H) as [items [Ht El]].
  exists items. split; [assumption|]. split; [assumption|].
  pose proof (trace_drawn _ _ _ _ _ _ _ _ Ht) as HF.
  rewrite Forall_forall in HF. intros it Hit. specialize (HF it Hit).
  destruct it as [rel p line|d line]; simpl in HF.
  - destruct HF as [pre [conn [parent [E [Hc [Er Hl]]]]]].
    exists pre, conn, parent. repeat split; try assumption.
    unfold len. lia.
  - destruct HF as [pre [E Hl]]. exists pre. split; [assumption|].
    unfold len. lia.
Qed.

Lemma lines_are_indented_names_witness :
  exists lines,
    build_tree_lines lower_ascii fnmatch_plain sample_state sample_names
      sample_globs (lit "/repo") 3 = Return lines
    /\ exists items,
        build_tree_trace lower_ascii fnmatch_plain sample_state sample_names
          sample_globs 3 = Return items
        /\ lines = lit "/repo" :: List.map item_line items
        /\ forall it, In it items ->
             match it with
             | Shown rel p line =>
                 exists pre conn parent,
                   line = pre ++ conn ++ d_name p
                              ++ (if is_dir p then [SEP] else [])
                   /\ (conn = corner \/ conn = branch)
                   /\ rel = parent ++ [d_name p]
                   /\ len pre = 4 * len parent
             | Denied dir line =>
                 exists pre,
                   line = pre ++ corner ++ denied /\ len pre = 4 * len dir
             end.
Proof.
  eexists. split; [vm_compute; reflexivity|].
  apply lines_are_indented_names. vm_compute. reflexivity.
Defined.

(** ** The default rules *)

(** X10. The default names cannot be switched off: whatever names and
    patterns a run adds, in either tool, a path with a segment among the
    default names is excluded, file or directory; and [docs_pack] excludes
    [sessions] besides. *)
Theorem default_names_always_excluded
    (fnmatchcase : str -> str -> bool) (rel : list str) (is_dir : bool)
    (exclude_dir exclude_glob : list str) :
  ((exists part, In part rel
                 /\ In part CodebaseSnapshot.DEFAULT_EXCLUDE_DIRS) ->
   _should_skip fnmatchcase rel is_dir
     (CodebaseSnapshot.exclude_dirs exclude_dir)
     (CodebaseSnapshot.exclude_globs exclude_glob) = Return true
   /\ _should_skip fnmatchcase rel is_dir
        (DocsPack.exclude_dirs exclude_dir)
        (DocsPack.exclude_globs exclude_glob) = Return true)
  /\ (In (lit "sessions") rel ->
      _should_skip fnmatchcase rel is_dir
        (DocsPack.exclude_dirs exclude_dir)
        (DocsPack.exclude_globs exclude_glob) = Return true).
Proof.
  split.
  - intros [part [Hrel Hdef]]. split; apply should_skip_excluded_name;
      exists part; (split; [assumption|]); apply in_or_app; left;
      [assumption|].
    simpl in Hdef. simpl.
    repeat (destruct Hdef as [Hdef|Hdef]; [auto 20|]). destruct Hdef.
  - intros Hrel. apply should_skip_excluded_name.
    exists (lit "sessions"). split; [assumption|].
    apply in_or_app. left. simpl. auto 20.
Qed.

Lemma default_names_always_excluded_witness :
  (exists part, In part [lit "src"; lit "__pycache__"; lit "m.py"]
                /\ In part CodebaseSnapshot.DEFAULT_EXCLUDE_DIRS)
  /\ _should_skip fnmatch_plain [lit "src"; lit "__pycache__"; lit "m.py"]
       false (CodebaseSnapshot.exclude_dirs [lit "tmp"])
       (CodebaseSnapshot.exclude_globs []) = Return true
  /\ In (lit "sessions") [lit "sessions"; lit "0001.md"]
  /\ _should_skip fnmatch_plain [lit "sessions"; lit "0001.md"] false
       (DocsPack.exclude_dirs []) (DocsPack.exclude_globs [])
     = Return true.
Proof.
  assert (H1 : exists part,
             In part [lit "src"; lit "__pycache__"; lit "m.py"]
             /\ In part CodebaseSnapshot.DEFAULT_EXCLUDE_DIRS).
  { exists (lit "__pycache__"). split; [right; left; reflexivity|].
    do 7 right. left. reflexivity. }
  assert (H2 : In (lit "sessions") [lit "sessions"; lit "0001.md"])
    by (left; reflexivity).
  split; [exact H1|].
  split; [exact (proj1 (proj1 (default_names_always_excluded fnmatch_plain
                                 _ false [lit "tmp"] []) H1))|].
  split; [exact H2|].
  exact (proj2 (default_names_always_excluded fnmatch_plain _ false [] [])
           H2).
Defined.

Lemma fnmatch_plain_star_nil (n : str) : fnmatch_plain n [STAR] = true.
Proof.
  induction n as [|c n IH]; [reflexivity|].
  cbn in *. exact IH.
Qed.

Lemma fnmatch_plain_star_skip (a b pat : str) :
  fnmatch_plain b pat = true -> fnmatch_plain (a ++ b) (STAR :: pat) = true.
Proof.
  intros H. induction a as [|c a IH].
  - cbn. destruct b; cbn; rewrite H; reflexivity.
  - cbn in *. rewrite IH. apply orb_true_r.
Qed.

Lemma first_glob_matches (fnmatchcase : str -> str -> bool)
    (rel names rest : list str) (g : str) :
  rel <> [] -> Forall wf_name rel ->
  snd (parse_parts g) <> [] -> fst (parse_parts g) = [] ->
  suffix_match fnmatchcase rel (snd (parse_parts g)) ->
  _should_skip fnmatchcase rel false names (g :: rest) = Return true.
Proof.
  intros Hne HF Hg Hroot Hs. unfold _should_skip.
  destruct (existsb (fun part => mem part names) rel); [reflexivity|].
  simpl negb. cbv iota. simpl _matches_any_glob.
  destruct (path_match_relative fnmatchcase g Hne HF Hg) as [b [Hb Hspec]].
  rewrite Hb.
  assert (b = true) by (apply Hspec; split; assumption). subst b.
  reflexivity.
Qed.

Lemma short_path_matches_no_glob (fnmatchcase : str -> str -> bool)
    (name : str) (names globs : list str) :
  wf_name name -> ~ In name names ->
  Forall (fun g => exists a b, snd (parse_parts g) = [a; b]) globs ->
  _should_skip fnmatchcase [name] false names globs = Return false.
Proof.
  intros Hw Hn Hg.
  assert (Hv : valid_globs globs).
  { eapply Forall_impl; [|exact Hg]. intros g [a [b E]]. rewrite E.
    discriminate. }
  destruct (@should_skip_glob_from_right_aux fnmatchcase [name] names globs)
    as [b [Hb Hspec]]; try assumption.
  - discriminate.
  - constructor; [assumption | constructor].
  - intros part [<-|[]]. assumption.
  - rewrite Hb. destruct b; [|reflexivity]. exfalso.
    destruct (proj1 Hspec eq_refl) as [g [Hin [_ Hs]]].
    rewrite Forall_forall in Hg. destruct (Hg _ Hin) as [a [c E]].
    rewrite E in Hs. apply suffix_match_length in Hs. simpl in Hs. lia.
Qed.

Lemma default_globs_two_parts :
  Forall (fun g => exists a b, snd (parse_parts g) = [a; b])
    CodebaseSnapshot.DEFAULT_EXCLUDE_GLOBS
  /\ Forall (fun g => exists a b, snd (parse_parts g) = [a; b])
       DocsPack.DEFAULT_EXCLUDE_GLOBS.
Proof.
  split; repeat constructor; eexists; eexists; vm_compute; reflexivity.
Qed.

(** X11. Every default pattern has two parts, and a pattern is matched
    part by part from the right.  So, under the default patterns of either
    tool, no file directly under the root is excluded by a pattern,
    whatever its name (a top-level [x.pyc] stays); and, matching each part
    as bracket-free [fnmatch] does, every file that has a directory above
    it and a name ending in [.pyc] is excluded. *)
Theorem default_globs_reach_below_top :
  (forall fnmatchcase name names,
      wf_name name -> ~ In name names ->
      _should_skip fnmatchcase [name] false names
        CodebaseSnapshot.DEFAULT_EXCLUDE_GLOBS = Return false
      /\ _should_skip fnmatchcase [name] false names
           DocsPack.DEFAULT_EXCLUDE_GLOBS = Return false)
  /\ (forall dirs d stem names,
        Forall wf_name (dirs ++ [d; stem ++ lit ".pyc"]) ->
        _should_skip fnmatch_plain (dirs ++ [d; stem ++ lit ".pyc"]) false
          names CodebaseSnapshot.DEFAULT_EXCLUDE_GLOBS = Return true
        /\ _should_skip fnmatch_plain (dirs ++ [d; stem ++ lit ".pyc"]) false
             names DocsPack.DEFAULT_EXCLUDE_GLOBS = Return true).
Proof.
  split.
  - intros fnmatchcase name names Hw Hn.
    destruct default_globs_two_parts as [H1 H2].
    split; apply short_path_matches_no_glob; assumption.
  - intros dirs d stem names HF.
    assert (Hs : suffix_match fnmatch_plain (dirs ++ [d; stem ++ lit ".pyc"])
                   [[STAR; STAR]; STAR :: lit ".pyc"]).
    { exists dirs, [d; stem ++ lit ".pyc"]. split; [reflexivity|].
      constructor; [|constructor; [|constructor]].
      - apply (fnmatch_plain_star_skip [] d [STAR]).
        apply fnmatch_plain_star_nil.
      - apply fnmatch_plain_star_skip. reflexivity. }
    split; apply first_glob_matches; try assumption;
      try (destruct dirs; discriminate); try reflexivity;
      vm_compute; discriminate.
Qed.

Lemma default_globs_reach_below_top_witness :
  wf_name (lit "x.pyc") /\ ~ In (lit "x.pyc") [lit "node_modules"]
  /\ _should_skip fnmatch_plain [lit "x.pyc"] false [lit "node_modules"]
       CodebaseSnapshot.DEFAULT_EXCLUDE_GLOBS = Return false
  /\ Forall wf_name ([lit "src"] ++ [lit "pkg"; lit "x" ++ lit ".pyc"])
  /\ _should_skip fnmatch_plain
       ([lit "src"] ++ [lit "pkg"; lit "x" ++ lit ".pyc"]) false
       [lit "node_modules"] CodebaseSnapshot.DEFAULT_EXCLUDE_GLOBS
     = Return true.
Proof.
  assert (H1 : wf_name (lit "x.pyc")).
  { split; [discriminate|]. split; [|discriminate].
    intros H. vm_compute in H. decompose [or] H; discriminate || assumption. }
  assert (H2 : ~ In (lit "x.pyc") [lit "node_modules"]).
  { intros [H|[]]. discriminate. }
  assert (H3 : Forall wf_name
                 ([lit "src"] ++ [lit "pkg"; lit "x" ++ lit ".pyc"])).
  { repeat constructor; try discriminate;
      intros H; vm_compute in H; decompose [or] H; discriminate || assumption. }
  split; [exact H1|]. split; [exact H2|].
  split; [exact (proj1 (proj1 default_globs_reach_below_top fnmatch_plain
                          _ _ H1 H2))|].
  split; [exact H3|].
  exact (proj1 (proj2 default_globs_reach_below_top [lit "src"] (lit "pkg")
                  (lit "x") [lit "node_modules"] H3)).
Defined.

(** X12. The focus tree of [codebase_snapshot] is rendered to the depth
    [max(1, min(max_depth, 6))]: whatever [--max-depth] says, it shows no
    entry more than six parts beneath the focus; and with
    [--max-depth <= 0], where the tree of the root is the root line alone,
    the focus tree still shows the entries of the focus that pass the
    filter, one line each. *)
Theorem focus_tree_depth
    (lower : str -> str) (fnmatchcase : str -> str -> bool)
    (iterdir : list str -> listing) (names globs : list str)
    (label : str) (max_depth : Z) :
  (forall lines,
      build_tree_lines lower fnmatchcase iterdir names globs label
        (CodebaseSnapshot.focus_depth max_depth) = Return lines ->
      exists items,
        build_tree_trace lower fnmatchcase iterdir names globs
          (CodebaseSnapshot.focus_depth max_depth) = Return items
        /\ lines = label :: List.map item_line items
        /\ forall it, In it items ->
             match it with
             | Shown rel _ _ => 1 <= len rel <= 6
             | Denied dir _ => len dir < 6
             end)
  /\ (max_depth <= 0 ->
      build_tree_lines lower fnmatchcase iterdir names globs label max_depth
      = Return [label]
      /\ build_tree_lines lower fnmatchcase iterdir names globs label
           (CodebaseSnapshot.focus_depth max_depth)
         = match iterdir [] with
           | PermissionDenied => Return [label; corner ++ denied]
           | Entries entries =>
               filtered <- filter_entries fnmatchcase names globs []
                             entries ;;
               Return (label
                         :: level_lines [] (sort_entries lower filtered))
           end).
Proof.
  unfold CodebaseSnapshot.focus_depth. split.
  - intros lines H.
    destruct (build_tree_lines_trace _ _ _ _ _ _ _ H) as [items [Ht El]].
    exists items. split; [assumption|]. split; [assumption|].
    pose proof (trace_paths_depth _ _ _ _ _ _ _ _ Ht) as HF.
    rewrite Forall_forall in HF. intros it Hit.
    destruct (HF it Hit) as [suf [E Hn]]. simpl in E.
    destruct it as [rel p line|d line]; simpl in E; subst; unfold len; lia.
  - intros Hm. split.
    + unfold build_tree_lines, walk.
      replace (Z.to_nat (max_depth - 0)) with 0%nat by lia. reflexivity.
    + replace (Z.max 1 (Z.min max_depth 6)) with 1 by lia.
      unfold build_tree_lines, walk.
      change (Z.to_nat (1 - 0)) with 1%nat. simpl.
      destruct (iterdir []) as [|es]; [reflexivity|].
      destruct (filter_entries fnmatchcase names globs [] es)
        as [filtered|e]; [|reflexivity].
      simpl. rewrite emit_leaves. reflexivity.
Qed.

Lemma focus_tree_depth_witness :
  (exists lines,
      build_tree_lines lower_ascii fnmatch_plain sample_state sample_names
        sample_globs (lit "/repo") (CodebaseSnapshot.focus_depth 40)
      = Return lines
      /\ exists items,
          build_tree_trace lower_ascii fnmatch_plain sample_state
            sample_names sample_globs (CodebaseSnapshot.focus_depth 40)
          = Return items
          /\ lines = lit "/repo" :: List.map item_line items
          /\ forall it, In it items ->
               match it with
               | Shown rel _ _ => 1 <= len rel <= 6
               | Denied dir _ => len dir < 6
               end)
  /\ 0 <= 0
  /\ build_tree_lines lower_ascii fnmatch_plain sample_state sample_names
       sample_globs (lit "/repo") 0 = Return [lit "/repo"]
  /\ build_tree_lines lower_ascii fnmatch_plain sample_state sample_names
       sample_globs (lit "/repo") (CodebaseSnapshot.focus_depth 0)
     = Return [lit "/repo"; branch ++ lit "a/"; branch ++ lit "Z/";
               branch ++ lit "a.txt"; corner ++ lit "B.txt"].
Proof.
  pose proof (focus_tree_depth lower_ascii fnmatch_plain sample_state
                sample_names sample_globs (lit "/repo")) as H.
  split.
  - eexists. split; [vm_compute; reflexivity|].
    apply (proj1 (H 40)). vm_compute. reflexivity.
  - split; [lia|].
    split; [exact (proj1 (proj2 (H 0) ltac:(lia)))|].
    rewrite (proj2 (proj2 (H 0) ltac:(lia))). vm_compute. reflexivity.
Defined.

(** ** Markdown headings *)

Section Pieces.

Variable a : atom.
Variable k : str -> option (list str).

(** The count of a piece stays under its bound. *)
Local Abbreviation bounded n :=
  (forall m, a_max a = Some m -> (n <= m)%nat).

Lemma below_bounded (count : nat) :
  bounded count -> below (a_max a) count = true -> bounded (S count).
Proof.
  intros Hb H m Hm. unfold below in H. rewrite Hm in H.
  apply Nat.ltb_lt in H. lia.
Qed.

(** A piece fails when what follows it fails at every place it can stop. *)
Lemma rep_none (s taken : str) (count : nat) :
  bounded count ->
  (forall x s',
      s = x ++ s' -> forallb (a_class a) x = true ->
      (a_min a <= count + List.length x)%nat ->
      bounded (count + List.length x) ->
      k s' = None) ->
  rep a k taken count s = None.
Proof.
  revert taken count. induction s as [|c s IH]; intros taken count Hb H.
  - assert (Hk : (a_min a <= count)%nat -> k [] = None).
    { intros Hle. apply (H [] []); try reflexivity; simpl;
        rewrite ?Nat.add_0_r; assumption. }
    simpl. destruct (Nat.leb_spec (a_min a) count) as [Hle|Hlt].
    + rewrite (Hk Hle). destruct (a_greedy a); reflexivity.
    + destruct (a_greedy a); reflexivity.
  - assert (Hk : (a_min a <= count)%nat -> k (c :: s) = None).
    { intros Hle. apply (H [] (c :: s)); try reflexivity; simpl;
        rewrite ?Nat.add_0_r; assumption. }
    assert (Hmore : (if a_class a c && below (a_max a) count
                     then rep a k (c :: taken) (S count) s else None)
                    = None).
    { destruct (a_class a c) eqn:Ec; [|reflexivity].
      destruct (below (a_max a) count) eqn:Eb; [|reflexivity].
      simpl. apply IH; [apply below_bounded; assumption|].
      intros x s' E Hx Hmin Hmax. apply (H (c :: x) s').
      - simpl. rewrite E. reflexivity.
      - simpl. rewrite Ec. assumption.
      - simpl. lia.
      - simpl. replace (count + S (List.length x))%nat
          with (S count + List.length x)%nat by lia. assumption. }
    cbn [rep]. rewrite Hmore.
    destruct (Nat.leb_spec (a_min a) count) as [Hle|Hlt].
    + rewrite (Hk Hle). destruct (a_greedy a); reflexivity.
    + destruct (a_greedy a); reflexivity.
Qed.

(** A greedy piece takes the whole run [x] when it cannot take more and
    what follows matches after the run. *)
Lemma rep_greedy_exact (x s2 taken : str) (count : nat)
    (groups : list str) :
  a_greedy a = true ->
  forallb (a_class a) x = true ->
  bounded (count + List.length x) ->
  (a_min a <= count + List.length x)%nat ->
  match s2 with
  | [] => True
  | c :: _ => a_class a c = false
  end ->
  k s2 = Some groups ->
  rep a k taken count (x ++ s2) = Some ((rev taken ++ x) :: groups).
Proof.
  intros Hg. revert taken count.
  induction x as [|c x IH]; intros taken count Hx Hb Hmin Hnext Hk.
  - simpl app. rewrite app_nil_r. simpl in Hmin. rewrite Nat.add_0_r in Hmin.
    assert (Hmore : match s2 with
                    | c :: s' =>
                        if a_class a c && below (a_max a) count
                        then rep a k (c :: taken) (S count) s' else None
                    | [] => None
                    end = None).
    { destruct s2 as [|c s']; [reflexivity|]. rewrite Hnext. reflexivity. }
    destruct s2 as [|c s']; cbn [rep]; cbn [rep] in Hmore;
      rewrite ?Hmore, Hg;
      apply Nat.leb_le in Hmin; rewrite Hmin, Hk; reflexivity.
  - simpl in Hx. apply andb_true_iff in Hx. destruct Hx as [Hc Hx].
    simpl List.length in *.
    assert (Hbelow : below (a_max a) count = true).
    { unfold below. destruct (a_max a) as [m|] eqn:Em; [|reflexivity].
      apply Nat.ltb_lt. specialize (Hb m eq_refl). lia. }
    simpl app. cbn [rep]. rewrite Hc, Hbelow. simpl andb. cbv iota.
    rewrite (IH (c :: taken) (S count)); try assumption.
    + rewrite Hg. simpl rev. rewrite <- app_assoc. reflexivity.
    + intros m Hm. specialize (Hb m Hm). lia.
    + lia.
Qed.

(** A lazy piece takes the whole run [x] when what follows fails at every
    earlier stop and matches after the run. *)
Lemma rep_lazy_exact (x s2 taken : str) (count : nat) (groups : list str) :
  a_greedy a = false ->
  forallb (a_class a) x = true ->
  bounded (count + List.length x) ->
  (a_min a <= count + List.length x)%nat ->
  (forall x1 x2, x = x1 ++ x2 -> x2 <> [] -> k (x2 ++ s2) = None) ->
  k s2 = Some groups ->
  rep a k taken count (x ++ s2) = Some ((rev taken ++ x) :: groups).
Proof.
  intros Hg. revert taken count.
  induction x as [|c x IH]; intros taken count Hx Hb Hmin Hearly Hk.
  - simpl app. rewrite app_nil_r. simpl in Hmin. rewrite Nat.add_0_r in Hmin.
    apply Nat.leb_le in Hmin.
    destruct s2 as [|c s']; cbn [rep]; rewrite Hg, Hmin, Hk; reflexivity.
  - simpl in Hx. apply andb_true_iff in Hx. destruct Hx as [Hc Hx].
    simpl List.length in *.
    assert (Hbelow : below (a_max a) count = true).
    { unfold below. destruct (a_max a) as [m|] eqn:Em; [|reflexivity].
      apply Nat.ltb_lt. specialize (Hb m eq_refl). lia. }
    assert (Hstop : k ((c :: x) ++ s2) = None).
    { apply (Hearly [] (c :: x)); [reflexivity | discriminate]. }
    simpl app in *. cbn [rep]. rewrite Hg, Hc, Hbelow, Hstop.
    simpl andb. cbv iota.
    assert (Hrest : rep a k (c :: taken) (S count) (x ++ s2)
                    = Some ((rev (c :: taken) ++ x) :: groups)).
    { apply IH; try assumption.
      - intros m Hm. specialize (Hb m Hm). lia.
      - lia.
      - intros x1 x2 E Hne. apply (Hearly (c :: x1) x2); [|assumption].
        simpl. rewrite E. reflexivity. }
    rewrite Hrest. simpl rev. rewrite <- app_assoc.
    destruct (Nat.leb (a_min a) count); reflexivity.
Qed.

End Pieces.

Lemma re_match_cons (a : atom) (atoms : list atom) (s : str) :
  re_match (a :: atoms) s = rep a (re_match atoms) [] 0 s.
Proof. reflexivity. Qed.

Lemma needs_space (atoms : list atom) (s : str) :
  starts_outside is_space s ->
  re_match (Atom is_space 1 None true :: atoms) s = None.
Proof.
  intros Hs. rewrite re_match_cons. apply rep_none; [discriminate|].
  intros x s' E Hx Hmin _. simpl in Hmin.
  destruct x as [|c x]; [simpl in Hmin; lia|].
  subst s. simpl in Hs, Hx. rewrite Hs in Hx. discriminate.
Qed.

Lemma trailing_space_fails (x2 trail : str) (z : char) (front : str) :
  x2 = front ++ [z] -> is_space z = false ->
  re_match [Atom is_space 0 None true] (x2 ++ trail) = None.
Proof.
  intros -> Hz. rewrite re_match_cons. apply rep_none; [discriminate|].
  intros x s' E Hx _ _.
  assert (Hin : In z (x ++ s')).
  { rewrite <- E. apply in_or_app. left. apply in_or_app. right.
    left. reflexivity. }
  apply in_app_or in Hin. destruct Hin as [Hin|Hin].
  - rewrite forallb_forall in Hx. specialize (Hx _ Hin). simpl in Hx.
    congruence.
  - destruct s' as [|c [|d s']]; [destruct Hin | | reflexivity].
    destruct Hin as [->|[]]. simpl.
    destruct (N.eqb_spec z LF) as [->|]; [discriminate Hz | reflexivity].
Qed.

Lemma hash_prefix (n : nat) (rest x s' : str) :
  starts_outside (N.eqb HASH) rest ->
  List.repeat HASH n ++ rest = x ++ s' ->
  forallb (N.eqb HASH) x = true ->
  (List.length x <= n)%nat
  /\ s' = List.repeat HASH (n - List.length x) ++ rest.
Proof.
  intros Hrest. revert x. induction n as [|n IH]; intros x E Hx.
  - simpl in E.
    destruct x as [|c x]; [split; [simpl; lia | symmetry; exact E]|].
    exfalso. subst rest. simpl in Hrest, Hx.
    rewrite Hrest in Hx. discriminate.
  - destruct x as [|c x]; [split; [simpl; lia | symmetry; exact E]|].
    simpl in E. injection E as Ec E. simpl in Hx.
    apply andb_true_iff in Hx. destruct Hx as [_ Hx].
    destruct (IH x E Hx) as [Hlen Hs]. split; [simpl; lia | exact Hs].
Qed.

Lemma forallb_repeat_hash (n : nat) :
  forallb (N.eqb HASH) (List.repeat HASH n) = true.
Proof. induction n as [|n IH]; [reflexivity | exact IH]. Qed.

(** The groups of a heading line. *)
Lemma heading_groups (h : nat) (ws body trail front : str) (b0 z : char)
    (back : str) :
  (1 <= h <= 6)%nat ->
  ws <> [] -> forallb is_space ws = true -> forallb is_space trail = true ->
  body = b0 :: back -> is_space b0 = false ->
  body = front ++ [z] -> is_space z = false ->
  forallb (fun c => negb (N.eqb c LF)) body = true ->
  re_match _HEADING_RE (List.repeat HASH h ++ ws ++ body ++ trail)
  = Some [List.repeat HASH h; ws; body; trail].
Proof.
  intros Hh Hws Hsp Htr Hb0 Hs0 Hz Hsz Hdot.
  unfold _HEADING_RE. rewrite re_match_cons.
  rewrite (@rep_greedy_exact _ _ (List.repeat HASH h) (ws ++ body ++ trail)
             [] 0 [ws; body; trail]); try reflexivity.
  - apply forallb_repeat_hash.
  - intros m Hm. injection Hm as <-. rewrite repeat_length. simpl. lia.
  - rewrite repeat_length. simpl. lia.
  - destruct ws as [|c ws]; [congruence|].
    assert (Hc : is_space c = true)
      by (simpl in Hsp; apply andb_true_iff in Hsp; tauto).
    change (N.eqb HASH c = false). apply N.eqb_neq. intros <-.
    discriminate Hc.
  - rewrite re_match_cons.
    rewrite (@rep_greedy_exact _ _ ws (body ++ trail) [] 0 [body; trail]);
      try reflexivity; try assumption.
    + discriminate.
    + simpl. destruct ws; [congruence | simpl; lia].
    + rewrite Hb0. simpl. assumption.
    + rewrite re_match_cons.
      rewrite (@rep_lazy_exact _ _ body trail [] 0 [trail]);
        try reflexivity; try assumption.
      * discriminate.
      * simpl. rewrite Hb0. simpl. lia.
      * intros x1 x2 E Hne.
        destruct (exists_last Hne) as [f2 [z2 E2]].
        assert (z2 = z).
        { rewrite E2 in E. rewrite Hz in E. rewrite app_assoc in E.
          apply app_inj_tail in E. destruct E as [_ E]. congruence. }
        subst z2. eapply trailing_space_fails; eassumption.
      * rewrite re_match_cons. rewrite <- (app_nil_r trail) at 1.
        rewrite (@rep_greedy_exact _ _ trail [] [] 0 []);
          try reflexivity; try assumption.
        -- discriminate.
        -- simpl. lia.
Qed.

(** Lines that are no heading. *)
Lemma heading_none (n : nat) (rest : str) :
  starts_outside (N.eqb HASH) rest ->
  n = 0%nat \/ (7 <= n)%nat \/ starts_outside is_space rest ->
  re_match _HEADING_RE (List.repeat HASH n ++ rest) = None.
Proof.
  intros Hrest Hcase. unfold _HEADING_RE. rewrite re_match_cons.
  apply rep_none.
  - intros m Hm. lia.
  - intros x s' E Hx Hmin Hmax. simpl in Hmin, Hmax.
    specialize (Hmax 6%nat eq_refl).
    destruct (@hash_prefix n rest x s' Hrest E Hx) as [Hlen Hs].
    subst s'. apply needs_space.
    destruct (Nat.eq_dec (List.length x) n) as [Heq|Hneq].
    + rewrite Heq, Nat.sub_diag. simpl.
      destruct Hcase as [->|[H7|Hsp]]; [lia | lia | assumption].
    + destruct (n - List.length x)%nat as [|j] eqn:Ej; [lia|].
      simpl. reflexivity.
Qed.

(** X13. A line is a heading when it starts with one to six [#] followed
    by white space and a text that starts and ends with a character other
    than white space: its entry is two spaces for each level after the
    first, then ["- "] and that text, without the white space around it.
    A line that does not start with [#], or starts with seven or more, or
    whose [#] are not followed by white space, gives no entry. *)
Theorem heading_line_entry :
  (forall (h : nat) (ws body trail front back : str) (b0 z : char)
          (max_headings : Z),
      (1 <= h <= 6)%nat ->
      ws <> [] -> forallb is_space ws = true ->
      forallb is_space trail = true ->
      body = b0 :: back -> is_space b0 = false ->
      body = front ++ [z] -> is_space z = false ->
      plain (List.repeat HASH h ++ ws ++ body ++ trail) ->
      extract_headings (List.repeat HASH h ++ ws ++ body ++ trail)
        max_headings
      = [List.concat (List.repeat (lit "  ") (h - 1)) ++ lit "- " ++ body])
  /\ (forall (n : nat) (rest : str) (max_headings : Z),
        starts_outside (N.eqb HASH) rest ->
        n = 0%nat \/ (7 <= n)%nat \/ starts_outside is_space rest ->
        plain (List.repeat HASH n ++ rest) ->
        extract_headings (List.repeat HASH n ++ rest) max_headings = []).
Proof.
  split.
  - intros h ws body trail front back b0 z max_headings
      Hh Hws Hsp Htr Hb0 Hs0 Hz Hsz Hplain.
    assert (Hdot : forallb (fun c => negb (N.eqb c LF)) body = true).
    { apply forallb_forall. intros c Hc.
      assert (Hl : is_linebreak c = false).
      { apply Hplain. apply in_or_app. right. apply in_or_app. right.
        apply in_or_app. left. assumption. }
      destruct (N.eqb_spec c LF) as [->|]; [discriminate Hl | reflexivity]. }
    unfold extract_headings.
    rewrite splitlines_line;
      [|assumption | destruct h; [lia | discriminate]].
    cbn [scan_headings].
    rewrite (@heading_groups h ws body trail front b0 z back) by assumption.
    unfold heading_entry. cbn [nth]. rewrite repeat_length.
    cbn [app].
    match goal with
    | |- (if ?b then _ else _) = _ => destruct b
    end; reflexivity.
  - intros n rest max_headings Hrest Hcase Hplain.
    unfold extract_headings.
    destruct (List.repeat HASH n ++ rest) as [|c line] eqn:E;
      [reflexivity|].
    rewrite splitlines_line by (assumption || discriminate).
    cbn [scan_headings]. rewrite <- E.
    rewrite heading_none by assumption. reflexivity.
Qed.

Lemma heading_line_entry_witness :
  extract_headings (List.repeat HASH 3 ++ lit " " ++ lit "Set up" ++ lit "  ")
    25
  = [List.concat (List.repeat (lit "  ") (3 - 1)) ++ lit "- " ++ lit "Set up"]
  /\ extract_headings (List.repeat HASH 7 ++ lit " deep") 25 = []
  /\ extract_headings (List.repeat HASH 0 ++ lit "plain text") 25 = []
  /\ extract_headings (List.repeat HASH 2 ++ lit "tag") 25 = [].
Proof.
  assert (Hplain : forall s,
             forallb (fun c => negb (is_linebreak c)) s = true -> plain s).
  { intros s H c Hc. rewrite forallb_forall in H. specialize (H _ Hc).
    destruct (is_linebreak c); [discriminate | reflexivity]. }
  split; [|split; [|split]].
  - apply (proj1 heading_line_entry 3%nat (lit " ") (lit "Set up") (lit "  ")
             (lit "Set u") (lit "et up") 83%N 112%N 25);
      try reflexivity; try lia; try discriminate.
    apply Hplain. reflexivity.
  - apply (proj2 heading_line_entry 7%nat (lit " deep") 25).
    + reflexivity.
    + right. left. lia.
    + apply Hplain. reflexivity.
  - apply (proj2 heading_line_entry 0%nat (lit "plain text") 25).
    + reflexivity.
    + left. reflexivity.
    + apply Hplain. reflexivity.
  - apply (proj2 heading_line_entry 2%nat (lit "tag") 25).
    + reflexivity.
    + right. right. reflexivity.
    + apply Hplain. reflexivity.
Defined.

Lemma scan_headings_take (max_headings : Z) (lines out : list str) :
  len out < max_headings \/ out = [] ->
  scan_headings max_headings lines out
  = out ++ firstn (Z.to_nat (Z.max 1 (max_headings - len out)))
             (all_headings lines).
Proof.
  revert out. induction lines as [|line lines IH]; intros out Hout.
  - simpl. rewrite firstn_nil, app_nil_r. reflexivity.
  - cbn [scan_headings all_headings flat_map].
    fold (all_headings lines).
    destruct (re_match _HEADING_RE line) as [groups|]; [|apply IH; assumption].
    cbn [app].
    destruct (Z.geb_spec (len (out ++ [heading_entry groups])) max_headings)
      as [Hge|Hlt].
    + rewrite len_app in Hge. change (len [heading_entry groups]) with 1 in Hge.
      replace (Z.to_nat (Z.max 1 (max_headings - len out))) with 1%nat.
      * reflexivity.
      * destruct Hout as [Hout| ->]; [lia|]. unfold len in *. simpl in *. lia.
    + rewrite IH by (left; assumption).
      rewrite len_app in *. change (len [heading_entry groups]) with 1 in *.
      pose proof (len_nonneg out).
      replace (Z.to_nat (Z.max 1 (max_headings - len out)))
        with (S (Z.to_nat (Z.max 1 (max_headings - (len out + 1))))) by lia.
      rewrite <- app_assoc. reflexivity.
Qed.

(** X14. [extract_headings] gives the entries of the first
    [max(1, max_headings)] heading lines of the text, in their order: the
    limit is tested after an entry is added, so a limit of zero or less
    still lets the first heading through. *)
Theorem headings_up_to_limit (md_text : str) (max_headings : Z) :
  extract_headings md_text max_headings
  = firstn (Z.to_nat (Z.max 1 max_headings))
      (all_headings (splitlines md_text))
  /\ len (extract_headings md_text max_headings) <= Z.max 1 max_headings
  /\ (all_headings (splitlines md_text) <> [] ->
      extract_headings md_text max_headings <> []).
Proof.
  assert (E : extract_headings md_text max_headings
              = firstn (Z.to_nat (Z.max 1 max_headings))
                  (all_headings (splitlines md_text))).
  { unfold extract_headings.
    rewrite scan_headings_take by (right; reflexivity).
    change (len []) with 0. rewrite Z.sub_0_r. reflexivity. }
  split; [exact E|]. rewrite E. split.
  - unfold len. rewrite length_firstn. lia.
  - destruct (all_headings (splitlines md_text)) as [|x xs]; [congruence|].
    intros _.
    replace (Z.to_nat (Z.max 1 max_headings))
      with (S (Z.to_nat (Z.max 1 max_headings) - 1)) by lia.
    discriminate.
Qed.

Lemma headings_up_to_limit_witness :
  let md := lit "# A" ++ LF :: lit "text" ++ LF :: lit "### B c  "
              ++ LF :: lit "## D" in
  all_headings (splitlines md) <> []
  /\ extract_headings md 0 = [lit "- A"]
  /\ extract_headings md 0 <> [].
Proof.
  cbv zeta.
  assert (H : all_headings
                (splitlines (lit "# A" ++ LF :: lit "text" ++ LF ::
                               lit "### B c  " ++ LF :: lit "## D")) <> [])
    by (vm_compute; discriminate).
  split; [exact H|]. split; [reflexivity|].
  exact (proj2 (proj2 (headings_up_to_limit _ 0)) H).
Defined.

(** ** File lists *)

Section SortBy.

Variable A : Type.
Variable key : A -> str.

Local Abbreviation key_le := (fun a b : A => str_le (key a) (key b)).

Lemma str_le_trans (a b c : str) : str_le a b -> str_le b c -> str_le a c.
Proof.
  unfold str_le. intros Hab Hbc.
  destruct (str_ltb c a) eqn:E; [|reflexivity].
  destruct (str_ltb_cotrans _ _ b E); congruence.
Qed.

Lemma insert_by_hd (x y : A) (l : list A) :
  HdRel key_le y l -> key_le y x -> HdRel key_le y (insert_by key x l).
Proof.
  intros Hl Hx. destruct l as [|z l]; simpl.
  - constructor. assumption.
  - destruct (str_ltb (key z) (key x)); constructor;
      [inversion Hl|]; assumption.
Qed.

Lemma insert_by_sorted (x : A) (l : list A) :
  Sorted key_le l -> Sorted key_le (insert_by key x l).
Proof.
  induction 1 as [|y l Hs IH Hhd]; simpl.
  - constructor; constructor.
  - destruct (str_ltb (key y) (key x)) eqn:E.
    + constructor; [assumption|]. apply insert_by_hd; [assumption|].
      unfold str_le. apply str_ltb_asym. assumption.
    + constructor; [constructor; assumption|]. constructor. exact E.
Qed.

Lemma sort_by_sorted (l : list A) : StronglySorted key_le (sort_by key l).
Proof.
  apply Sorted_StronglySorted.
  - intros a b c. apply str_le_trans.
  - induction l as [|x l IH]; simpl; [constructor|].
    apply insert_by_sorted. assumption.
Qed.

Lemma insert_by_perm (x : A) (l : list A) :
  Permutation (insert_by key x l) (x :: l).
Proof.
  induction l as [|y l IH]; simpl; [reflexivity|].
  destruct (str_ltb (key y) (key x)); [|reflexivity].
  rewrite IH. apply perm_swap.
Qed.

Lemma sort_by_perm (l : list A) : Permutation (sort_by key l) l.
Proof.
  induction l as [|x l IH]; simpl; [reflexivity|].
  rewrite insert_by_perm. constructor. assumption.
Qed.

End SortBy.

Section FileListFacts.

Variable fnmatchcase : str -> str -> bool.
Variable filter_path : candidate -> list str.
Variable focus_rel names globs : list str.

Lemma collect_files_spec (found : list candidate)
    (files : list (list str)) :
  collect_files fnmatchcase filter_path focus_rel names globs found
  = Return files ->
  forall rel,
    In rel files <->
    exists c, In c found /\ c_is_file c = Return true
              /\ rel = focus_rel ++ c_sub c
              /\ _should_skip fnmatchcase (filter_path c) false names globs
                 = Return false.
Proof.
  revert files. induction found as [|p found IH]; intros files H rel.
  - inversion H; subst. split; [intros [] | intros [c [[] _]]].
  - cbn [collect_files] in H.
    apply bind_Return in H. destruct H as [file [Ef H]].
    destruct file; simpl negb in H; cbv iota in H.
    + apply bind_Return in H. destruct H as [skip [Hskip H]].
      apply bind_Return in H. destruct H as [rest [Hrest H]].
      inversion H; subst; clear H. specialize (IH _ Hrest rel).
      split.
      * intros Hin.
        assert (Hcase : (skip = false /\ rel = focus_rel ++ c_sub p)
                        \/ In rel rest).
        { destruct skip; [right; assumption|].
          destruct Hin as [<-|Hin]; [left; split; reflexivity | right;
                                                              assumption]. }
        destruct Hcase as [[-> ->]|Hin'].
        -- exists p. repeat split; try assumption. left. reflexivity.
        -- apply IH in Hin'. destruct Hin' as [c [Hc Hrestc]].
           exists c. split; [right; assumption | assumption].
      * intros [c [[<-|Hc] [Hfile [Erel Hs]]]].
        -- subst rel. rewrite Hs in Hskip. inversion Hskip; subst.
           left. reflexivity.
        -- assert (Hin : In rel rest)
             by (apply IH; exists c; repeat split; assumption).
           destruct skip; [assumption | right; assumption].
    + specialize (IH _ H rel). rewrite IH. split.
      * intros [c [Hc Hrestc]]. exists c. split; [right; assumption |
                                                  assumption].
      * intros [c [[<-|Hc] [Hfile Hrestc]]]; [congruence|].
        exists c. split; [assumption | split; assumption].
Qed.

(** Under an excluded focus every file is skipped by its name, before any
    pattern is read: the loop ends with no file, or with what [is_file()]
    raises. *)
Lemma collect_files_excluded (found : list candidate) :
  (forall c, exists part, In part (filter_path c) /\ In part names) ->
  match collect_files fnmatchcase filter_path focus_rel names globs found
  with
  | Return files => files = []
  | Raise e => exists c, In c found /\ c_is_file c = Raise e
  end.
Proof.
  intros Hex. induction found as [|p found IH]; [reflexivity|].
  cbn [collect_files]. destruct (c_is_file p) as [file|e] eqn:Ef;
    cbn [bind].
  - assert (Hrest : match collect_files fnmatchcase filter_path focus_rel
                            names globs found with
                    | Return files => files = []
                    | Raise e => exists c, In c (p :: found)
                                           /\ c_is_file c = Raise e
                    end).
    { destruct (collect_files fnmatchcase filter_path focus_rel names globs
                  found) as [files|e]; [assumption|].
      destruct IH as [c [Hc He]]. exists c. split; [right|]; assumption. }
    destruct file; simpl negb; cbv iota; [|exact Hrest].
    rewrite (should_skip_excluded_name fnmatchcase _ false _ globs (Hex p)).
    cbn [bind].
    destruct (collect_files fnmatchcase filter_path focus_rel names globs
                found) as [files|e]; cbn [bind]; assumption.
  - exists p. split; [left; reflexivity | assumption].
Qed.

End FileListFacts.

Lemma sorted_members (A : Type) (key : A -> str) (kept : list A) (x : A) :
  In x (sort_by key kept) <-> In x kept.
Proof.
  split; apply Permutation_in; [|symmetry]; apply sort_by_perm.
Qed.

(** X15. When the scan returns, the list of [iter_python_files] (and of
    [iter_markdown_files], the same loop from the root) holds exactly the
    paths [rglob] yields for which [is_file()] answers true and the
    exclusion filter, asked as for a non-directory, answers false; the
    filter is asked about the path relative to the root, and in
    [codebase_snapshot.py] about the absolute path instead when the file,
    once resolved, lies outside the root.  No path of the list has an
    excluded name among its segments, and the list is in the order of the
    lowered texts of the full paths. *)
Theorem file_list_filtered_and_sorted
    (lower : str -> str) (fnmatchcase : str -> str -> bool)
    (root_text : str) (root_parts focus_rel names globs : list str)
    (found : list candidate) :
  (forall files,
      iter_python_files lower fnmatchcase root_text focus_rel names globs
        found = Return files ->
      StronglySorted (fun a b => str_le (lower (full_str root_text a))
                                       (lower (full_str root_text b))) files
      /\ (forall rel,
            In rel files <->
            exists c, In c found /\ c_is_file c = Return true
                      /\ rel = focus_rel ++ c_sub c
                      /\ _should_skip fnmatchcase rel false names globs
                         = Return false)
      /\ (forall rel part, In rel files -> In part rel -> ~ In part names)
      /\ (focus_rel = [] ->
          iter_markdown_files lower fnmatchcase root_text names globs found
          = Return files))
  /\ (forall files,
        CodebaseSnapshot.iter_python_files lower fnmatchcase root_parts
          focus_rel names globs found = Return files ->
        StronglySorted
          (fun a b => str_le (lower (path_str (root_parts ++ a)))
                             (lower (path_str (root_parts ++ b)))) files
        /\ (forall rel,
              In rel files <->
              exists c, In c found /\ c_is_file c = Return true
                        /\ rel = focus_rel ++ c_sub c
                        /\ _should_skip fnmatchcase
                             (if c_within c then rel else root_parts ++ rel)
                             false names globs
                           = Return false)
        /\ (forall rel part, In rel files -> In part rel ->
                             ~ In part names)).
Proof.
  split.
  - unfold iter_python_files, iter_markdown_files. intros files H.
    apply bind_Return in H. destruct H as [kept [Hkept H]].
    inversion H; subst; clear H.
    pose proof (collect_files_spec _ _ _ _ _ _ Hkept) as Hspec.
    assert (Hmem : forall rel,
               In rel kept <->
               exists c, In c found /\ c_is_file c = Return true
                         /\ rel = focus_rel ++ c_sub c
                         /\ _should_skip fnmatchcase rel false names globs
                            = Return false).
    { intros rel. rewrite Hspec. split;
        intros [c [Hc [Hf [Er Hs]]]]; exists c; subst rel;
        repeat split; assumption. }
    split; [apply sort_by_sorted|]. split; [|split].
    + intros rel. rewrite sorted_members. apply Hmem.
    + intros rel part Hrel Hpart. apply sorted_members, Hmem in Hrel.
      destruct Hrel as [c [_ [_ [_ Hs]]]].
      eapply should_skip_kept_segments; eassumption.
    + intros ->. rewrite Hkept. reflexivity.
  - unfold CodebaseSnapshot.iter_python_files, snapshot_iter_python_files.
    intros files H.
    apply bind_Return in H. destruct H as [kept [Hkept H]].
    inversion H; subst; clear H.
    pose proof (collect_files_spec _ _ _ _ _ _ Hkept) as Hspec.
    assert (Hmem : forall rel,
               In rel kept <->
               exists c, In c found /\ c_is_file c = Return true
                         /\ rel = focus_rel ++ c_sub c
                         /\ _should_skip fnmatchcase
                              (if c_within c then rel
                               else root_parts ++ rel)
                              false names globs
                            = Return false).
    { intros rel. rewrite Hspec. unfold snapshot_filter_path. split;
        intros [c [Hc [Hf [Er Hs]]]]; exists c; subst rel;
        repeat split; assumption. }
    split; [apply sort_by_sorted|]. split.
    + intros rel. rewrite sorted_members. apply Hmem.
    + intros rel part Hrel Hpart. apply sorted_members, Hmem in Hrel.
      destruct Hrel as [c [_ [_ [_ Hs]]]].
      destruct (c_within c).
      * eapply should_skip_kept_segments; eassumption.
      * eapply should_skip_kept_segments; [exact Hs|].
        apply in_or_app. right. assumption.
Qed.

(** X16. When the path of the focus holds an excluded name, no pattern
    is ever consulted, in either tool (the absolute path holds the parts
    of the focus too): not even an empty pattern makes the scan raise.
    The list of [iter_python_files] is empty whatever [rglob] yields,
    when [is_file()] answers for every path; the one exception the scan
    can raise is what [is_file()] raises for one of them. *)
Theorem excluded_focus_scans_nothing
    (lower : str -> str) (fnmatchcase : str -> str -> bool)
    (root_text : str) (root_parts focus_rel names globs : list str)
    (found : list candidate) :
  (exists part, In part focus_rel /\ In part names) ->
  ((forall c, In c found -> exists b, c_is_file c = Return b) ->
   iter_python_files lower fnmatchcase root_text focus_rel names globs
     found = Return []
   /\ CodebaseSnapshot.iter_python_files lower fnmatchcase root_parts
        focus_rel names globs found = Return [])
  /\ (forall e,
        iter_python_files lower fnmatchcase root_text focus_rel names globs
          found = Raise e
        \/ CodebaseSnapshot.iter_python_files lower fnmatchcase root_parts
             focus_rel names globs found = Raise e ->
        exists c, In c found /\ c_is_file c = Raise e)
  /\ (forall files,
        iter_python_files lower fnmatchcase root_text focus_rel names globs
          found = Return files
        \/ CodebaseSnapshot.iter_python_files lower fnmatchcase root_parts
             focus_rel names globs found = Return files ->
        files = []).
Proof.
  intros [part [Hf Hn]].
  pose proof (@collect_files_excluded fnmatchcase
                (fun p => focus_rel ++ c_sub p) focus_rel names globs found)
    as H1.
  pose proof (@collect_files_excluded fnmatchcase
                (snapshot_filter_path root_parts focus_rel) focus_rel names
                globs found) as H2.
  assert (X1 : forall c : candidate, exists part0,
             In part0 (focus_rel ++ c_sub c) /\ In part0 names).
  { intros c. exists part. split; [apply in_or_app; left|]; assumption. }
  assert (X2 : forall c : candidate, exists part0,
             In part0 (snapshot_filter_path root_parts focus_rel c)
             /\ In part0 names).
  { intros c. exists part. split; [|assumption].
    unfold snapshot_filter_path. destruct (c_within c).
    - apply in_or_app. left. assumption.
    - apply in_or_app. right. apply in_or_app. left. assumption. }
  specialize (H1 X1). specialize (H2 X2).
  unfold CodebaseSnapshot.iter_python_files, snapshot_iter_python_files,
    iter_python_files.
  destruct (collect_files fnmatchcase (fun p => focus_rel ++ c_sub p)
              focus_rel names globs found) as [files1|e1];
    destruct (collect_files fnmatchcase
                (snapshot_filter_path root_parts focus_rel) focus_rel names
                globs found) as [files2|e2];
    cbn [bind]; subst; cbn [sort_by].
  - split; [intros _; split; reflexivity|].
    split; [intros e [H|H]; discriminate|].
    intros files [H|H]; injection H as <-; reflexivity.
  - destruct H2 as [c [Hc He]].
    split; [intros Hall; destruct (Hall c Hc); congruence|].
    split.
    + intros e [H|H]; [discriminate|]. injection H as <-.
      exists c. split; assumption.
    + intros files [H|H]; [injection H as <-; reflexivity | discriminate].
  - destruct H1 as [c [Hc He]].
    split; [intros Hall; destruct (Hall c Hc); congruence|].
    split.
    + intros e [H|H]; [|discriminate]. injection H as <-.
      exists c. split; assumption.
    + intros files [H|H]; [discriminate | injection H as <-; reflexivity].
  - destruct H1 as [c1 [Hc1 He1]]. destruct H2 as [c2 [Hc2 He2]].
    split; [intros Hall; destruct (Hall c1 Hc1); congruence|].
    split.
    + intros e [H|H]; injection H as <-;
        [exists c1 | exists c2]; split; assumption.
    + intros files [H|H]; discriminate.
Qed.

Lemma file_list_filtered_and_sorted_witness :
  exists files,
    iter_python_files lower_ascii fnmatch_plain (lit "/repo") [lit "a"]
      sample_names sample_globs sample_found = Return files
    /\ files = [[lit "a"; lit "Main.py"]; [lit "a"; lit "sub"; lit "tool.py"]]
    /\ StronglySorted
         (fun a b => str_le (lower_ascii (full_str (lit "/repo") a))
                            (lower_ascii (full_str (lit "/repo") b))) files
    /\ (forall rel part, In rel files -> In part rel ->
                         ~ In part sample_names)
    /\ exists files',
         CodebaseSnapshot.iter_python_files lower_ascii fnmatch_plain
           [[SEP]; lit "srv"; lit "build"] [lit "a"]
           (lit "build" :: sample_names) sample_globs sample_found_link
         = Return files'
         /\ files' = files
         /\ (forall rel part, In rel files' -> In part rel ->
                              ~ In part (lit "build" :: sample_names)).
Proof.
  eexists. split; [vm_compute; reflexivity|]. split; [reflexivity|].
  pose proof (proj1 (@file_list_filtered_and_sorted lower_ascii
                       fnmatch_plain (lit "/repo") [] [lit "a"]
                       sample_names sample_globs sample_found)
                _ eq_refl) as [Hs [_ [Hn _]]].
  split; [exact Hs|]. split; [exact Hn|].
  eexists. split; [vm_compute; reflexivity|]. split; [reflexivity|].
  exact (proj2 (proj2 (proj2 (@file_list_filtered_and_sorted lower_ascii
                                fnmatch_plain [] [[SEP]; lit "srv";
                                                  lit "build"]
                                [lit "a"] (lit "build" :: sample_names)
                                sample_globs sample_found_link)
                         _ eq_refl))).
Defined.

Lemma excluded_focus_scans_nothing_witness :
  (exists part, In part [lit "node_modules"; lit "pkg"]
                /\ In part sample_names)
  /\ (forall c, In c sample_found -> exists b, c_is_file c = Return b)
  /\ iter_python_files lower_ascii fnmatch_plain (lit "/repo")
       [lit "node_modules"; lit "pkg"] sample_names [[]] sample_found
     = Return []
  /\ CodebaseSnapshot.iter_python_files lower_ascii fnmatch_plain
       [[SEP]; lit "repo"] [lit "node_modules"; lit "pkg"] sample_names
       [[]] sample_found = Return []
  /\ iter_python_files lower_ascii fnmatch_plain (lit "/repo")
       [lit "node_modules"; lit "pkg"] sample_names [[]]
       sample_found_denied = Raise PermissionError.
Proof.
  assert (H : exists part, In part [lit "node_modules"; lit "pkg"]
                           /\ In part sample_names).
  { exists (lit "node_modules"). split; left; reflexivity. }
  assert (Hall : forall c, In c sample_found ->
                           exists b, c_is_file c = Return b).
  { intros c Hc. simpl in Hc. decompose [or] Hc; subst;
      try (eexists; reflexivity). contradiction. }
  split; [exact H|]. split; [exact Hall|].
  destruct (proj1 (@excluded_focus_scans_nothing lower_ascii fnmatch_plain
                     (lit "/repo") [[SEP]; lit "repo"] _ _ [[]]
                     sample_found H) Hall) as [H1 H2].
  split; [exact H1|]. split; [exact H2|]. vm_compute. reflexivity.
Defined.

(** ** The docstring section of a report *)

Section ReportFacts.

Variable ast_parse : str -> result module_.
Variable generate_tokens : str -> result tokgen.
Variable literal_eval : str -> result pyvalue.
Variable tokenize_open : list str -> result str.
Variable read_text : list str -> result str.

Local Abbreviation extract_at rel :=
  (CodebaseSnapshot.extract_module_docstring ast_parse generate_tokens
     literal_eval tokenize_open read_text rel).
Local Abbreviation blocks_of :=
  (docstring_blocks ast_parse generate_tokens literal_eval
     tokenize_open read_text).
Local Abbreviation no_doc :=
  (no_docstring ast_parse generate_tokens literal_eval
     tokenize_open read_text).

Lemma docstring_blocks_cons (missing_only : bool) (max_lines max_chars : Z)
    (rel : list str) (py_files : list (list str))
    (missing blocks : list str) :
  blocks_of missing_only max_lines max_chars (rel :: py_files)
  = Return (missing, blocks) ->
  exists doc missing' blocks',
    extract_at rel = Return doc
    /\ blocks_of missing_only max_lines max_chars py_files
       = Return (missing', blocks')
    /\ missing = match doc with
                 | None => path_str rel :: missing'
                 | Some _ => missing'
                 end
    /\ blocks = match doc with
                | Some _ =>
                    if missing_only then blocks'
                    else rendered_block rel doc max_lines max_chars
                           :: blocks'
                | None =>
                    rendered_block rel None max_lines max_chars :: blocks'
                end.
Proof.
  cbn [docstring_blocks].
  destruct (extract_at rel) as [doc|e]; [|discriminate].
  cbn [bind].
  destruct (blocks_of missing_only max_lines max_chars py_files)
    as [[missing' blocks']|e]; [|discriminate].
  cbn [bind fst snd]. intros H.
  exists doc, missing', blocks'.
  destruct doc as [d|], missing_only; cbn in H; injection H as <- <-;
    repeat split; reflexivity.
Qed.

Lemma no_doc_true (rel : list str) :
  no_doc rel = true <-> extract_at rel = Return None.
Proof.
  unfold no_docstring.
  destruct (extract_at rel) as [[d|]|e]; split; intros H;
    try discriminate; reflexivity.
Qed.

(** X17. When the loop over the Python files ends, [missing] holds the
    paths of exactly the files for which [extract] answered [Missing], in
    the order of the scan; without [--missing-only] there is one block for
    each file scanned, with [--missing-only] the blocks are those of the
    files in [missing], each with the no-docstring body; and the exit
    status under [--fail-on-missing] is 2 exactly when some scanned file
    has no docstring, and 0 without the flag. *)
Theorem report_lists_missing_files (missing_only : bool)
    (max_lines max_chars : Z) (py_files : list (list str))
    (missing blocks : list str) :
  blocks_of missing_only max_lines max_chars py_files
  = Return (missing, blocks) ->
  missing = map path_str (filter no_doc py_files)
  /\ (missing_only = false -> List.length blocks = List.length py_files)
  /\ (missing_only = true ->
      blocks = map (fun rel => rendered_block rel None max_lines max_chars)
                 (filter no_doc py_files))
  /\ (exit_status true missing = 2 <->
      exists rel, In rel py_files /\ extract_at rel = Return None)
  /\ (exit_status true missing = 0 <->
      forall rel, In rel py_files -> exists text,
        extract_at rel = Return (Some text))
  /\ exit_status false missing = 0.
Proof.
  intros H.
  assert (Hm : missing = map path_str (filter no_doc py_files)
               /\ (missing_only = false ->
                   List.length blocks = List.length py_files)
               /\ (missing_only = true ->
                   blocks = map (fun rel =>
                                   rendered_block rel None max_lines
                                     max_chars)
                              (filter no_doc py_files))
               /\ forall rel, In rel py_files -> exists doc,
                    extract_at rel = Return doc).
  { revert missing blocks H.
    induction py_files as [|rel files IH]; intros missing blocks H.
    - cbn in H. injection H as <- <-. repeat split; try reflexivity.
      intros rel [].
    - apply docstring_blocks_cons in H.
      destruct H as [doc [missing' [blocks' [Hd [Hr [-> ->]]]]]].
      destruct (IH _ _ Hr) as [-> [Hall [Honly Hret]]].
      assert (Hn : no_doc rel
                   = match doc with None => true | Some _ => false end).
      { unfold no_docstring. rewrite Hd. destruct doc; reflexivity. }
      cbn [filter]. rewrite Hn.
      assert (Hret' : forall rel0, In rel0 (rel :: files) -> exists doc0,
                 extract_at rel0 = Return doc0).
      { intros rel0 [<-|Hin]; [exists doc; assumption | auto]. }
      destruct doc as [d|], missing_only; cbn [map List.length];
        repeat split; try assumption; try discriminate; intros Hf;
        try (f_equal; apply Hall; assumption);
        try (f_equal; apply Honly; assumption);
        apply Honly; assumption. }
  destruct Hm as [Hmiss [Hall [Honly Hret]]].
  split; [assumption|]. split; [assumption|]. split; [assumption|].
  assert (Hne : (exists rel, In rel py_files /\ extract_at rel = Return None)
                <-> missing <> []).
  { rewrite Hmiss. split.
    - intros [rel [Hin Hd]] Hnil.
      assert (Hf : In rel (filter no_doc py_files)).
      { apply filter_In. split; [assumption|]. apply no_doc_true, Hd. }
      destruct (filter no_doc py_files); [destruct Hf | discriminate].
    - intros Hnn. destruct (filter no_doc py_files) as [|rel l] eqn:E;
        [exfalso; apply Hnn; reflexivity|].
      assert (Hf : In rel (filter no_doc py_files))
        by (rewrite E; left; reflexivity).
      apply filter_In in Hf. destruct Hf as [Hin Hn].
      exists rel. split; [assumption|]. apply no_doc_true, Hn. }
  split; [|split].
  - rewrite Hne. unfold exit_status. cbn [andb].
    destruct missing; split; intros H0; try congruence; lia.
  - split.
    + intros H0 rel Hin. destruct (Hret rel Hin) as [[text|] Hd].
      * exists text. assumption.
      * exfalso. assert (Hn : missing <> [])
          by (apply Hne; exists rel; split; assumption).
        unfold exit_status in H0. cbn [andb] in H0.
        destruct missing; [congruence | lia].
    + intros Hf. unfold exit_status. cbn [andb].
      destruct missing as [|m ms] eqn:E; [reflexivity|]. exfalso.
      assert (Hn : missing <> []) by (rewrite E; discriminate).
      rewrite <- E in Hne. apply Hne in Hn. destruct Hn as [rel [Hin Hd]].
      destruct (Hf rel Hin) as [text Ht]. congruence.
  - reflexivity.
Qed.

Lemma blocks_raise_iff (missing_only : bool)
    (max_lines max_chars : Z) (py_files : list (list str)) :
  (exists e, blocks_of missing_only max_lines max_chars py_files = Raise e)
  <-> exists rel e, In rel py_files /\ extract_at rel = Raise e.
Proof.
  induction py_files as [|rel files IH].
  - split; [intros [e H]; discriminate | intros [rel [e [[] _]]]].
  - cbn [docstring_blocks]. split.
    + intros [e H]. destruct (extract_at rel) as [doc|e'] eqn:Hd.
      * cbn [bind] in H.
        destruct (blocks_of missing_only max_lines max_chars files)
          as [rest|e''] eqn:Hr.
        -- cbn [bind] in H.
           destruct (missing_only && _); discriminate.
        -- destruct (proj1 IH (ex_intro _ e'' eq_refl))
             as [rel' [e3 [Hin He]]].
           exists rel', e3. split; [right|]; assumption.
      * exists rel, e'. split; [left; reflexivity | assumption].
    + intros [rel' [e [[<-|Hin] He]]].
      * rewrite He. exists e. reflexivity.
      * destruct (extract_at rel) as [doc|e'].
        -- cbn [bind].
           destruct (proj2 IH (ex_intro _ rel' (ex_intro _ e (conj Hin He))))
             as [e2 ->].
           exists e2. reflexivity.
        -- exists e'. reflexivity.
Qed.

(** X18. The loop has no handler of its own: it raises exactly when,
    for one of the files scanned, the file cannot be read (both readings
    raise) or [extract] raises on its text (the parser rejects it and the
    tokenizer throws before a token that is not skipped: an unterminated
    triple-quoted text is enough); then no report is written, whatever the
    other files hold. *)
Theorem one_failing_file_aborts_report (missing_only : bool)
    (max_lines max_chars : Z) (py_files : list (list str)) :
  (exists e, blocks_of missing_only max_lines max_chars py_files = Raise e)
  <-> exists rel e,
        In rel py_files
        /\ ((exists e0, tokenize_open rel = Raise e0
                        /\ read_text rel = Raise e)
            \/ (exists source e1 trivia,
                  _read_python_source tokenize_open read_text rel
                  = Return source
                  /\ ast_parse source = Raise e1
                  /\ generate_tokens source
                     = Return (yield_all trivia (Throw e))
                  /\ all_trivia trivia)).
Proof.
  rewrite blocks_raise_iff. split.
  - intros [rel [e [Hin H]]]. exists rel, e. split; [assumption|].
    apply (proj1 (path_extract_raises_iff _ _ _ _ _ _ _) H).
  - intros [rel [e [Hin H]]]. exists rel, e. split; [assumption|].
    apply (proj2 (path_extract_raises_iff _ _ _ _ _ _ _) H).
Qed.

Lemma len_rendered_block (rel : list str) (doc : option str)
    (max_lines max_chars : Z) :
  20 <= max_chars ->
  len (rendered_block rel doc max_lines max_chars)
  <= len (path_str rel) + max_chars + 19.
Proof.
  intros HC. unfold rendered_block, header, body.
  destruct doc as [d|].
  - pose proof (truncate_len_bound d max_lines HC) as Ht.
    set (t := truncate d max_lines max_chars) in *.
    unfold len in *.
    repeat (rewrite ?length_app; cbn [List.length]).
    change (List.length (lit "### ")) with 4%nat.
    change (List.length (lit "```text")) with 7%nat.
    change (List.length (lit "```")) with 3%nat. lia.
  - unfold len.
    repeat (rewrite ?length_app; cbn [List.length]).
    change (List.length (lit "### ")) with 4%nat.
    change (List.length (lit "_No module docstring found._")) with 28%nat.
    lia.
Qed.

(** X19. With a character limit of at least 20, the blocks of the
    docstring section stand, one for one and in order, for the files
    scanned (for the files without docstring under [--missing-only]);
    each block is the rendered block of its file, starts with the header
    of that file, and has at most [max_chars + 19] characters more than
    the path in that header, whatever the docstring is. *)
Theorem docstring_blocks_bounded (missing_only : bool)
    (max_lines max_chars : Z) (py_files : list (list str))
    (missing blocks : list str) :
  20 <= max_chars ->
  blocks_of missing_only max_lines max_chars py_files
  = Return (missing, blocks) ->
  Forall2 (fun rel block =>
             (exists doc,
                 extract_at rel = Return doc
                 /\ block = rendered_block rel doc max_lines max_chars)
             /\ (exists rest, block = lit "### " ++ path_str rel ++ rest)
             /\ len block <= len (path_str rel) + max_chars + 19)
    (if missing_only then filter no_doc py_files else py_files) blocks.
Proof.
  intros HC. revert missing blocks.
  induction py_files as [|rel files IH]; intros missing blocks H.
  - cbn in H. injection H as <- <-. destruct missing_only; constructor.
  - apply docstring_blocks_cons in H.
    destruct H as [doc [missing' [blocks' [Hd [Hr [-> ->]]]]]].
    specialize (IH _ _ Hr).
    assert (Hn : no_doc rel
                 = match doc with None => true | Some _ => false end).
    { unfold no_docstring. rewrite Hd. destruct doc; reflexivity. }
    assert (Hhere : (exists doc0,
                        extract_at rel = Return doc0
                        /\ rendered_block rel doc max_lines max_chars
                           = rendered_block rel doc0 max_lines max_chars)
                    /\ (exists rest,
                           rendered_block rel doc max_lines max_chars
                           = lit "### " ++ path_str rel ++ rest)
                    /\ len (rendered_block rel doc max_lines max_chars)
                       <= len (path_str rel) + max_chars + 19).
    { split; [exists doc; split; [assumption | reflexivity]|].
      split; [|apply len_rendered_block; assumption].
      unfold rendered_block, header. eexists.
      rewrite <- app_assoc. reflexivity. }
    cbn [filter]. rewrite Hn.
    destruct doc as [d|], missing_only;
      try (constructor; [exact Hhere | exact IH]).
    exact IH.
Qed.

End ReportFacts.

Lemma report_lists_missing_files_witness :
  exists missing blocks,
    docstring_blocks cpython_parse cpython_tokens cpython_eval
      sample_open sample_read_text true 60 4000 sample_py_files
    = Return (missing, blocks)
    /\ missing = [lit "a/sub/tool.py"; lit "setup.py"]
    /\ List.length blocks = 2%nat
    /\ exit_status true missing = 2.
Proof.
  eexists. eexists. split; [vm_compute; reflexivity|].
  split; [reflexivity|]. split; [reflexivity|].
  pose proof (@report_lists_missing_files cpython_parse cpython_tokens
                cpython_eval sample_open sample_read_text true 60 4000
                sample_py_files
                _ _ eq_refl) as [_ [_ [_ [H2 _]]]].
  apply H2. exists [lit "setup.py"].
  split; [right; right; left; reflexivity | reflexivity].
Defined.

Lemma docstring_blocks_bounded_witness :
  exists missing blocks,
    docstring_blocks cpython_parse cpython_tokens cpython_eval
      sample_open sample_read_text false 60 20 sample_py_files
    = Return (missing, blocks)
    /\ List.length blocks = 3%nat
    /\ Forall2 (fun rel block =>
                  (exists doc,
                      CodebaseSnapshot.extract_module_docstring
                        cpython_parse cpython_tokens cpython_eval
                        sample_open sample_read_text rel = Return doc
                      /\ block = rendered_block rel doc 60 20)
                  /\ (exists rest,
                         block = lit "### " ++ path_str rel ++ rest)
                  /\ len block <= len (path_str rel) + 20 + 19)
         sample_py_files blocks.
Proof.
  eexists. eexists. split; [vm_compute; reflexivity|].
  split; [reflexivity|].
  apply (@docstring_blocks_bounded cpython_parse cpython_tokens
           cpython_eval sample_open sample_read_text false 60 20
           sample_py_files _ _ ltac:(lia) eq_refl).
Defined.

(** ** Slugs *)

Section SlugFacts.

Local Abbreviation other := (fun c => negb (is_lower_alnum c)).

Lemma lstrip_chr_spec (ch : char) (s : str) :
  exists a, s = a ++ lstrip_chr ch s /\ Forall (eq ch) a
            /\ forall r, lstrip_chr ch s <> ch :: r.
Proof.
  induction s as [|c s [a [E [Ha Hhd]]]]; simpl.
  - exists []. split; [reflexivity|]. split; [constructor | discriminate].
  - destruct (N.eqb_spec c ch) as [->|Hne].
    + exists (ch :: a). split; [simpl; rewrite E at 1; reflexivity|].
      split; [constructor; [reflexivity | assumption] | assumption].
    + exists []. split; [reflexivity|]. split; [constructor|].
      intros r H. inversion H. congruence.
Qed.

Lemma rstrip_chr_spec (ch : char) (s : str) :
  exists b, s = rstrip_chr ch s ++ b /\ Forall (eq ch) b
            /\ forall r, rstrip_chr ch s <> r ++ [ch].
Proof.
  induction s as [|c s [b [E [Hb Hlast]]]]; simpl.
  - exists []. split; [reflexivity|]. split; [constructor|].
    intros r. destruct r; discriminate.
  - destruct (rstrip_chr ch s) as [|x xs] eqn:Er.
    + destruct (N.eqb_spec c ch) as [->|Hne].
      * exists (ch :: b). simpl in E. subst s.
        split; [reflexivity|].
        split; [constructor; [reflexivity | assumption]|].
        intros r. destruct r; discriminate.
      * exists b. simpl in E. subst s. split; [reflexivity|].
        split; [assumption|].
        intros [|y r] H; inversion H; [congruence|].
        destruct r; discriminate.
    + exists b. split; [simpl; rewrite E at 1; reflexivity|].
      split; [assumption|].
      intros [|y r] H; inversion H; subst.
      apply (Hlast r). assumption.
Qed.

Lemma strip_chr_spec (ch : char) (s : str) :
  exists a b,
    s = a ++ strip_chr ch s ++ b
    /\ Forall (eq ch) a /\ Forall (eq ch) b
    /\ (forall r, strip_chr ch s <> ch :: r)
    /\ (forall r, strip_chr ch s <> r ++ [ch]).
Proof.
  unfold strip_chr.
  destruct (rstrip_chr_spec ch s) as [b [Eb [Hb Hlast]]].
  destruct (lstrip_chr_spec ch (rstrip_chr ch s)) as [a [Ea [Ha Hhd]]].
  exists a, b. split; [rewrite app_assoc, <- Ea; assumption|].
  split; [assumption|]. split; [assumption|]. split; [assumption|].
  intros r H. apply (Hlast (a ++ r)).
  rewrite Ea at 1. rewrite H, app_assoc. reflexivity.
Qed.

(** A text that neither starts nor ends with [ch] is left as it is. *)
Lemma strip_chr_fixed (ch : char) (s : str) :
  (forall r, s <> ch :: r) -> (forall r, s <> r ++ [ch]) ->
  strip_chr ch s = s.
Proof.
  intros Hhd Hlast.
  destruct (strip_chr_spec ch s) as [a [b [E [Ha [Hb _]]]]].
  destruct a as [|x a].
  - destruct b as [|y b] using rev_ind.
    + rewrite app_nil_r in E. symmetry. exact E.
    + exfalso. apply Forall_app in Hb. destruct Hb as [_ Hy].
      inversion Hy; subst. apply (Hlast (strip_chr y s ++ b)).
      rewrite E at 1. simpl. rewrite app_assoc. reflexivity.
  - exfalso. inversion Ha; subst. apply (Hhd (a ++ strip_chr x s ++ b)).
    exact E.
Qed.

Lemma no_double_dash_spec (s : str) :
  no_double_dash s = true -> forall a b, s <> a ++ DASH :: DASH :: b.
Proof.
  intros H a. revert s H. induction a as [|x a IH]; intros s H b E; subst s.
  - cbn in H. discriminate.
  - cbn [app no_double_dash] in H. apply andb_true_iff in H.
    destruct H as [_ H]. exact (IH _ H b eq_refl).
Qed.

Lemma no_double_dash_app (x y : str) :
  no_double_dash (x ++ y) = true ->
  no_double_dash x = true /\ no_double_dash y = true.
Proof.
  induction x as [|c x IH]; intros H; [split; [reflexivity | exact H]|].
  cbn [app no_double_dash] in H. apply andb_true_iff in H.
  destruct H as [Hc H]. destruct (IH H) as [Hx Hy].
  split; [|assumption]. cbn [no_double_dash]. rewrite Hx, andb_true_r.
  destruct x as [|d x]; [reflexivity | exact Hc].
Qed.

Lemma no_double_dash_cons (c : char) (s : str) :
  c <> DASH -> no_double_dash (c :: s) = no_double_dash s.
Proof.
  intros Hc. cbn [no_double_dash].
  apply N.eqb_neq in Hc. rewrite Hc.
  destruct s; reflexivity.
Qed.

Lemma no_double_dash_dash (c : char) (s : str) :
  c <> DASH -> no_double_dash (DASH :: c :: s) = no_double_dash s.
Proof.
  intros Hc. change (no_double_dash (DASH :: c :: s))
    with (negb (N.eqb DASH DASH && N.eqb c DASH)
          && no_double_dash (c :: s)).
  rewrite (no_double_dash_cons s Hc).
  apply N.eqb_neq in Hc. rewrite Hc, andb_false_r. reflexivity.
Qed.

Lemma alnum_not_dash (c : char) : is_lower_alnum c = true -> c <> DASH.
Proof. intros H ->. discriminate. Qed.

Lemma slug_char_not_alnum (c : char) :
  slug_char c -> is_lower_alnum c = false -> c = DASH.
Proof. intros [H|H] Hn; [congruence | assumption]. Qed.


Lemma close_run_first (run : str) :
  Forall (fun c => is_lower_alnum c = false) run ->
  (run = [] /\ close_run 1 [DASH] run = [])
  \/ (run <> [] /\ close_run 1 [DASH] run = [DASH]).
Proof.
  intros _. destruct run as [|c run]; [left | right]; split;
    try reflexivity; discriminate.
Qed.

(** The first substitution: what is left are letters, digits and single
    dashes, and the letters and digits are those of the text. *)
Lemma sub_runs_other (s run : str) :
  let r := sub_runs other 1 [DASH] run s in
  Forall slug_char r
  /\ no_double_dash r = true
  /\ (run <> [] -> exists r', r = DASH :: r')
  /\ filter is_lower_alnum r = filter is_lower_alnum s.
Proof.
  revert run. induction s as [|c s IH]; intros run; cbn zeta.
  - cbn [sub_runs]. destruct run as [|x run].
    + repeat split; try constructor. intros H. congruence.
    + change (close_run 1 [DASH] (x :: run)) with [DASH].
      repeat split; try (constructor; [right; reflexivity | constructor]).
      intros _. exists []. reflexivity.
  - cbn [sub_runs]. destruct (is_lower_alnum c) eqn:Ec; cbn [negb].
    + destruct (IH []) as [Hall [Hnd [_ Hf]]].
      assert (Hc : c <> DASH) by (apply alnum_not_dash; assumption).
      destruct run as [|x run].
      * change (close_run 1 [DASH] []) with (@nil char). cbn [app].
        split; [constructor; [left; assumption | assumption]|].
        split; [rewrite (no_double_dash_cons _ Hc); assumption|].
        split; [intros H; congruence|].
        cbn [filter]. rewrite Ec, Hf. reflexivity.
      * change (close_run 1 [DASH] (x :: run)) with [DASH]. cbn [app].
        split; [constructor; [right; reflexivity|];
                constructor; [left; assumption | assumption]|].
        split; [rewrite (no_double_dash_dash _ Hc); assumption|].
        split; [intros _; eexists; reflexivity|].
        cbn [filter]. change (is_lower_alnum DASH) with false. cbn iota.
        rewrite Ec, Hf. reflexivity.
    + destruct (IH (run ++ [c])) as [Hall [Hnd [Hhd Hf]]].
      split; [assumption|]. split; [assumption|].
      split; [intros _; apply Hhd; destruct run; discriminate|].
      cbn [filter]. rewrite Ec. assumption.
Qed.

(** On such a text the second substitution finds nothing to replace. *)
Lemma sub_runs_dash_fixed (s run : str) :
  run = [] \/ run = [DASH] ->
  no_double_dash (run ++ s) = true ->
  sub_runs (N.eqb DASH) 2 [DASH] run s = run ++ s.
Proof.
  revert run. induction s as [|c s IH]; intros run Hrun Hnd.
  - cbn [sub_runs]. rewrite app_nil_r.
    destruct Hrun as [->| ->]; reflexivity.
  - cbn [sub_runs]. destruct (N.eqb_spec DASH c) as [<-|Hne].
    + destruct Hrun as [->| ->].
      * apply (IH [DASH]); [right; reflexivity | exact Hnd].
      * cbn in Hnd. discriminate.
    + assert (Hs : no_double_dash s = true).
      { apply no_double_dash_app in Hnd. destruct Hnd as [_ Hnd].
        rewrite no_double_dash_cons in Hnd by congruence. assumption. }
      rewrite (IH [] (or_introl eq_refl) Hs).
      destruct Hrun as [->| ->]; reflexivity.
Qed.

(** And the first one too, once the text is made of slug characters. *)
Lemma sub_runs_other_fixed (s run : str) :
  run = [] \/ run = [DASH] ->
  Forall slug_char s ->
  no_double_dash (run ++ s) = true ->
  sub_runs other 1 [DASH] run s = run ++ s.
Proof.
  revert run. induction s as [|c s IH]; intros run Hrun Hall Hnd.
  - cbn [sub_runs]. rewrite app_nil_r.
    destruct Hrun as [->| ->]; reflexivity.
  - inversion Hall as [|? ? Hc Hs]; subst.
    cbn [sub_runs]. destruct (is_lower_alnum c) eqn:Ec; cbn [negb].
    + assert (Hne : c <> DASH) by (apply alnum_not_dash; assumption).
      assert (Hs' : no_double_dash s = true).
      { apply no_double_dash_app in Hnd. destruct Hnd as [_ Hnd].
        rewrite no_double_dash_cons in Hnd by assumption. assumption. }
      rewrite (IH [] (or_introl eq_refl) Hs Hs').
      destruct Hrun as [->| ->]; reflexivity.
    + pose proof (slug_char_not_alnum Hc Ec) as ->.
      destruct Hrun as [->| ->].
      * apply (IH [DASH]); [right; reflexivity | assumption | exact Hnd].
      * cbn in Hnd. discriminate.
Qed.

Lemma slugify_eq (lower : str -> str) (text : str) :
  slugify lower text
  = if truthy (slug_text lower text) then slug_text lower text
    else lit "session".
Proof. reflexivity. Qed.

Lemma slug_text_spec (lower : str -> str) (text : str) :
  let s := slug_text lower text in
  Forall slug_char s
  /\ no_double_dash s = true
  /\ (forall r, s <> DASH :: r)
  /\ (forall r, s <> r ++ [DASH])
  /\ filter is_lower_alnum s = filter is_lower_alnum (lower (strip text)).
Proof.
  cbn zeta. unfold slug_text.
  destruct (sub_runs_other (lower (strip text)) []) as [Hall [Hnd [_ Hf]]].
  cbn zeta in *.
  rewrite (sub_runs_dash_fixed _ (or_introl eq_refl) Hnd).
  cbn [app]. set (r := sub_runs other 1 [DASH] [] (lower (strip text))) in *.
  destruct (strip_chr_spec DASH r) as [a [b [E [Ha [Hb [Hhd Hlast]]]]]].
  set (s := strip_chr DASH r) in *.
  rewrite E in Hall, Hnd, Hf.
  apply Forall_app in Hall. destruct Hall as [_ Hall].
  apply Forall_app in Hall. destruct Hall as [Hall _].
  apply no_double_dash_app in Hnd. destruct Hnd as [_ Hnd].
  apply no_double_dash_app in Hnd. destruct Hnd as [Hnd _].
  repeat split; try assumption.
  rewrite <- Hf, !filter_app.
  assert (Hd : forall l, Forall (eq DASH) l -> filter is_lower_alnum l = []).
  { induction 1 as [|x l <- _ IHl]; [reflexivity | exact IHl]. }
  rewrite (Hd a Ha), (Hd b Hb), app_nil_r. reflexivity.
Qed.

Lemma lit_session_shape :
  Forall slug_char (lit "session")
  /\ no_double_dash (lit "session") = true
  /\ (forall r, lit "session" <> DASH :: r)
  /\ (forall r, lit "session" <> r ++ [DASH]).
Proof.
  split; [repeat constructor; left; reflexivity|].
  split; [reflexivity|]. split; [discriminate|].
  intros r H. apply (f_equal (fun l => last l 0%N)) in H.
  rewrite last_last in H. discriminate.
Qed.

Lemma slug_is_a_safe_name_aux (lower : str -> str) (text : str) :
  let s := slugify lower text in
  s <> []
  /\ Forall slug_char s
  /\ (forall r, s <> DASH :: r)
  /\ (forall r, s <> r ++ [DASH])
  /\ no_double_dash s = true.
Proof.
  cbn zeta. rewrite slugify_eq.
  destruct (slug_text_spec lower text) as [Hall [Hnd [Hhd [Hlast _]]]].
  cbn zeta in *.
  destruct (slug_text lower text) as [|c s] eqn:E; cbn [truthy].
  - destruct lit_session_shape as [H1 [H2 [H3 H4]]].
    split; [discriminate|]. repeat split; assumption.
  - split; [discriminate|]. repeat split; assumption.
Qed.

(** X20. For every text, and whatever [str.lower] does, the slug is not
    empty, is made of the characters [a-z], [0-9] and [-] only, neither
    starts nor ends with a dash, and has no two dashes side by side. *)
Theorem slug_is_a_safe_name (lower : str -> str) (text : str) :
  let s := slugify lower text in
  s <> []
  /\ Forall slug_char s
  /\ (forall r, s <> DASH :: r)
  /\ (forall r, s <> r ++ [DASH])
  /\ (forall a b, s <> a ++ DASH :: DASH :: b).
Proof.
  destruct (slug_is_a_safe_name_aux lower text) as [H1 [H2 [H3 [H4 H5]]]].
  cbn zeta. repeat split; try assumption.
  apply no_double_dash_spec. assumption.
Qed.

(** X21. The slug keeps the letters [a-z] and the digits of the lowered,
    stripped title, all of them and in their order, and nothing else but
    dashes; a title that has none of them gets the slug [session]. *)
Theorem slug_keeps_letters_and_digits (lower : str -> str) (text : str) :
  let kept := filter is_lower_alnum (lower (strip text)) in
  (kept = [] -> slugify lower text = lit "session")
  /\ (kept <> [] -> filter is_lower_alnum (slugify lower text) = kept).
Proof.
  cbn zeta. rewrite slugify_eq.
  destruct (slug_text_spec lower text) as [Hall [Hnd [Hhd [Hlast Hf]]]].
  cbn zeta in *. rewrite <- Hf.
  destruct (slug_text lower text) as [|c s] eqn:E; cbn [truthy].
  - split; [reflexivity|]. intros H. exfalso. apply H. reflexivity.
  - split; [|reflexivity]. intros Hk. exfalso.
    inversion Hall as [|? ? Hc Hs]; subst.
    cbn [filter] in Hk. destruct (is_lower_alnum c) eqn:Ec; [discriminate|].
    pose proof (slug_char_not_alnum Hc Ec) as ->.
    apply (Hhd s). reflexivity.
Qed.

Lemma lstrip_fixed (s : str) :
  Forall (fun c => is_space c = false) s -> lstrip s = s.
Proof.
  intros H. destruct H as [|c s Hc Hs]; [reflexivity|].
  cbn [lstrip]. rewrite Hc. reflexivity.
Qed.

Lemma rstrip_fixed (s : str) :
  Forall (fun c => is_space c = false) s -> rstrip s = s.
Proof.
  induction 1 as [|c s Hc Hs IH]; [reflexivity|].
  cbn [rstrip]. rewrite IH, Hc. destruct s; reflexivity.
Qed.

Lemma slug_char_not_space (c : char) : slug_char c -> is_space c = false.
Proof.
  intros [H| ->]; [|reflexivity].
  assert (Hall : forallb (fun n => implb (is_lower_alnum n)
                                     (negb (is_space n)))
                   (List.map N.of_nat (seq 0 123)) = true)
    by (vm_compute; reflexivity).
  rewrite forallb_forall in Hall.
  assert (Hc : (c <= 122)%N).
  { unfold is_lower_alnum in H. apply orb_true_iff in H.
    destruct H as [H|H]; apply andb_true_iff in H; destruct H as [_ H];
      apply N.leb_le in H; lia. }
  specialize (Hall c). rewrite H in Hall. cbn [implb] in Hall.
  apply negb_true_iff, Hall.
  apply in_map_iff. exists (N.to_nat c).
  split; [apply N2Nat.id|]. apply in_seq. lia.
Qed.

(** X22. When [str.lower] leaves the letters [a-z], the digits and the
    dash as they are, the slug of a slug is that slug. *)
Theorem slugify_idempotent (lower : str -> str) (text : str) :
  (forall s, Forall slug_char s -> lower s = s) ->
  slugify lower (slugify lower text) = slugify lower text.
Proof.
  intros Hlow.
  destruct (slug_is_a_safe_name_aux lower text)
    as [Hne [Hall [Hhd [Hlast Hnd]]]].
  set (s := slugify lower text) in *.
  rewrite (slugify_eq lower s). unfold slug_text.
  assert (Hsp : Forall (fun c => is_space c = false) s).
  { eapply Forall_impl; [|exact Hall]. apply slug_char_not_space. }
  unfold strip. rewrite (rstrip_fixed Hsp), (lstrip_fixed Hsp).
  rewrite (Hlow s Hall).
  rewrite (sub_runs_other_fixed (or_introl eq_refl) Hall Hnd).
  cbn [app].
  rewrite (sub_runs_dash_fixed s (or_introl eq_refl) Hnd).
  cbn [app]. rewrite (strip_chr_fixed Hhd Hlast).
  destruct s; [congruence | reflexivity].
Qed.

End SlugFacts.

Lemma lower_ascii_slug (s : str) : Forall slug_char s -> lower_ascii s = s.
Proof.
  induction 1 as [|c s Hc Hs IH]; [reflexivity|].
  unfold lower_ascii in *. cbn [List.map]. rewrite IH. f_equal.
  destruct (N.leb 65 c && N.leb c 90) eqn:E; [|reflexivity]. exfalso.
  apply andb_true_iff in E. destruct E as [E1 E2].
  apply N.leb_le in E1, E2.
  destruct Hc as [H| ->]; [|unfold DASH in *; lia].
  unfold is_lower_alnum in H. apply orb_true_iff in H.
  destruct H as [H|H]; apply andb_true_iff in H; destruct H as [H1 H2];
    apply N.leb_le in H1, H2; lia.
Qed.

Lemma slugify_idempotent_witness :
  (forall s, Forall slug_char s -> lower_ascii s = s)
  /\ slugify lower_ascii (lit "  Fix Auth -- retry logic!! ")
     = lit "fix-auth-retry-logic"
  /\ slugify lower_ascii (lit "fix-auth-retry-logic")
     = lit "fix-auth-retry-logic".
Proof.
  split; [exact lower_ascii_slug|]. split; [reflexivity|].
  exact (slugify_idempotent lower_ascii (lit "  Fix Auth -- retry logic!! ")
           lower_ascii_slug).
Defined.

(** ** Session indexes *)

Lemma digits_aux_small (fuel : nat) (n : Z) (acc : str) :
  n < 10 -> digits_aux (S fuel) n acc = Z.to_N (48 + n mod 10) :: acc.
Proof.
  intros H. cbn [digits_aux]. apply Z.ltb_lt in H. rewrite H. reflexivity.
Qed.

Lemma digits_aux_step (fuel : nat) (n : Z) (acc : str) :
  10 <= n ->
  digits_aux (S fuel) n acc
  = digits_aux fuel (n / 10) (Z.to_N (48 + n mod 10) :: acc).
Proof.
  intros H. cbn [digits_aux].
  destruct (Z.ltb_spec n 10); [lia | reflexivity].
Qed.

(** Fuel beyond the number of digits changes nothing. *)
Lemma digits_aux_fuel (f1 f2 : nat) (n : Z) (acc : str) :
  0 <= n < 10 ^ Z.of_nat (S f1) -> n < 10 ^ Z.of_nat (S f2) ->
  digits_aux (S f1) n acc = digits_aux (S f2) n acc.
Proof.
  revert f2 n acc. induction f1 as [|f1 IH]; intros f2 n acc H1 H2.
  - change (10 ^ Z.of_nat 1) with 10 in H1.
    rewrite !digits_aux_small by lia. reflexivity.
  - destruct (Z.lt_ge_cases n 10) as [Hs|Hb].
    + rewrite !digits_aux_small by assumption. reflexivity.
    + destruct f2 as [|f2]; [change (10 ^ Z.of_nat 1) with 10 in H2; lia|].
      rewrite (@digits_aux_step (S f1) n acc Hb),
        (@digits_aux_step (S f2) n acc Hb).
      rewrite (Nat2Z.inj_succ (S f1)), Z.pow_succ_r in H1 by lia.
      rewrite (Nat2Z.inj_succ (S f2)), Z.pow_succ_r in H2 by lia.
      apply IH.
      * split; [apply Z.div_pos; lia|].
        apply Z.div_lt_upper_bound; lia.
      * apply Z.div_lt_upper_bound; lia.
Qed.

Lemma digits_fuel_enough (n : Z) :
  0 <= n -> n < 10 ^ Z.of_nat (S (Z.to_nat (Z.log2 n))).
Proof.
  intros H. pose proof (Z.log2_nonneg n) as Hl.
  rewrite Nat2Z.inj_succ, Z2Nat.id by assumption.
  destruct (Z.eq_dec n 0) as [->|Hn]; [reflexivity|].
  destruct (Z.log2_spec n ltac:(lia)) as [_ Hup].
  eapply Z.lt_le_trans; [exact Hup|].
  apply Z.pow_le_mono_l. lia.
Qed.

(** The four characters of an index below 10000. *)
Lemma format_0d_four (n : Z) :
  0 <= n <= 9999 ->
  format_0d 4 n
  = [digit_char (n / 1000); digit_char (n / 100 mod 10);
     digit_char (n / 10 mod 10); digit_char (n mod 10)].
Proof.
  intros H. unfold format_0d.
  destruct (Z.ltb_spec n 0) as [|_]; [lia|].
  unfold digits.
  rewrite (@digits_aux_fuel _ 3 n []);
    [|split; [lia | apply digits_fuel_enough; lia]
     |change (10 ^ Z.of_nat 4) with 10000; lia].
  unfold digit_char.
  destruct (Z.lt_ge_cases n 10) as [H1|H1].
  { rewrite digits_aux_small by assumption. cbn [List.length Nat.sub repeat app].
    rewrite (Z.div_small n 1000), (Z.div_small n 100), (Z.div_small n 10)
      by lia. reflexivity. }
  rewrite digits_aux_step by assumption.
  assert (E1 : n / 10 / 10 = n / 100) by (rewrite Z.div_div by lia; reflexivity).
  assert (E2 : n / 100 / 10 = n / 1000) by (rewrite Z.div_div by lia; reflexivity).
  destruct (Z.lt_ge_cases (n / 10) 10) as [H2|H2].
  { rewrite digits_aux_small by assumption. cbn [List.length Nat.sub repeat app].
    assert (n / 100 = 0) by (rewrite <- E1; apply Z.div_small;
                             split; [apply Z.div_pos; lia | assumption]).
    assert (n / 1000 = 0) by (rewrite <- E2; replace (n / 100) with 0;
                              reflexivity).
    replace (n / 1000) with 0. replace (n / 100) with 0. reflexivity. }
  rewrite digits_aux_step by assumption. rewrite E1.
  destruct (Z.lt_ge_cases (n / 100) 10) as [H3|H3].
  { rewrite digits_aux_small by assumption. cbn [List.length Nat.sub repeat app].
    assert (n / 1000 = 0) by (rewrite <- E2; apply Z.div_small;
                              split; [apply Z.div_pos; lia | assumption]).
    replace (n / 1000) with 0. reflexivity. }
  rewrite digits_aux_step by assumption. rewrite E2.
  assert (H4 : n / 1000 < 10) by (apply Z.div_lt_upper_bound; lia).
  rewrite digits_aux_small by assumption.
  cbn [List.length Nat.sub repeat app].
  rewrite (Z.mod_small (n / 1000) 10)
    by (split; [apply Z.div_pos; lia | assumption]).
  reflexivity.
Qed.

Lemma four_digits_value (n : Z) :
  0 <= n <= 9999 ->
  ((n / 1000 * 10 + n / 100 mod 10) * 10 + n / 10 mod 10) * 10 + n mod 10
  = n.
Proof.
  intros H.
  pose proof (Z.div_mod n 10 ltac:(lia)).
  pose proof (Z.div_mod (n / 10) 10 ltac:(lia)) as H1.
  pose proof (Z.div_mod (n / 100) 10 ltac:(lia)) as H2.
  rewrite Z.div_div in H1 by lia. rewrite Z.div_div in H2 by lia.
  change (10 * 10) with 100 in H1. change (100 * 10) with 1000 in H2.
  lia.
Qed.

Lemma digits_aux_all (fuel : nat) (n : Z) (acc : str) :
  0 <= n ->
  Forall (fun c => (48 <= c <= 57)%N) acc ->
  Forall (fun c => (48 <= c <= 57)%N) (digits_aux fuel n acc).
Proof.
  revert n acc. induction fuel as [|fuel IH]; intros n acc Hn Hacc;
    [assumption|].
  cbn [digits_aux].
  assert (Hd : Forall (fun c => (48 <= c <= 57)%N)
                 (Z.to_N (48 + n mod 10) :: acc)).
  { constructor; [|assumption].
    pose proof (Z.mod_pos_bound n 10 ltac:(lia)). lia. }
  destruct (n <? 10); [assumption|].
  apply IH; [apply Z.div_pos; lia | assumption].
Qed.

Lemma digits_aux_length (k fuel : nat) (n : Z) (acc : str) :
  (k <= fuel)%nat -> 10 ^ Z.of_nat k <= 10 * n ->
  (k + List.length acc <= List.length (digits_aux fuel n acc))%nat.
Proof.
  revert fuel n acc. induction k as [|k IH]; intros fuel n acc Hk Hn.
  - cbn [Nat.add]. clear. revert n acc.
    induction fuel as [|fuel IH]; intros n acc; [apply Nat.le_refl|].
    cbn [digits_aux]. destruct (n <? 10).
    + cbn [List.length]. lia.
    + eapply Nat.le_trans; [|apply IH]. cbn [List.length]. lia.
  - destruct fuel as [|fuel]; [lia|].
    rewrite Nat2Z.inj_succ, Z.pow_succ_r in Hn by lia.
    cbn [digits_aux]. destruct (Z.ltb_spec n 10) as [Hs|Hb].
    + destruct k as [|k].
      * cbn [List.length]. lia.
      * exfalso. rewrite Nat2Z.inj_succ, Z.pow_succ_r in Hn by lia.
        pose proof (Z.pow_pos_nonneg 10 (Z.of_nat k) ltac:(lia) ltac:(lia)).
        lia.
    + specialize (IH fuel (n / 10) (Z.to_N (48 + n mod 10) :: acc)
                    ltac:(lia)).
      cbn [List.length] in IH.
      assert (Hq : 10 ^ Z.of_nat k <= 10 * (n / 10)).
      { destruct k as [|k]; [change (10 ^ Z.of_nat 0) with 1;
                             pose proof (Z.div_pos n 10); 
                             assert (1 <= n / 10)
                               by (apply Z.div_le_lower_bound; lia); lia|].
        rewrite Nat2Z.inj_succ, Z.pow_succ_r in * by lia.
        assert (10 ^ Z.of_nat k <= n / 10)
          by (apply Z.div_le_lower_bound; lia).
        lia. }
      specialize (IH Hq). lia.
Qed.

(** From 10000 on the index has five digits or more. *)
Lemma format_0d_long (n : Z) :
  10000 <= n ->
  exists a b c d e rest,
    format_0d 4 n = a :: b :: c :: d :: e :: rest /\ (48 <= e <= 57)%N.
Proof.
  intros H. unfold format_0d.
  destruct (Z.ltb_spec n 0) as [|_]; [lia|].
  pose proof (@digits_aux_all (S (Z.to_nat (Z.log2 n))) n [] ltac:(lia)
                (Forall_nil _)) as Hall.
  assert (Hfuel : (5 <= S (Z.to_nat (Z.log2 n)))%nat).
  { pose proof (Z.log2_le_mono 16 n ltac:(lia)) as Hl.
    change (Z.log2 16) with 4 in Hl. lia. }
  pose proof (@digits_aux_length 5 _ n [] Hfuel
                ltac:(change (10 ^ Z.of_nat 5) with 100000; lia)) as Hlen.
  fold (digits n) in Hall, Hlen.
  destruct (digits n) as [|a [|b [|c [|d [|e rest]]]]];
    cbn [List.length] in Hlen; try lia.
  cbn [List.length Nat.sub repeat app].
  exists a, b, c, d, e, rest. split; [reflexivity|].
  inversion Hall as [|? ? _ H1]; subst. inversion H1 as [|? ? _ H2]; subst.
  inversion H2 as [|? ? _ H3]; subst. inversion H3 as [|? ? _ H4]; subst.
  inversion H4; subst. assumption.
Qed.

Section IndexFacts.

Variable decimal : char -> option Z.

Lemma index_of_range (name : str) (idx : Z) :
  digit_values decimal -> index_of decimal name = Some idx ->
  0 <= idx <= 9999.
Proof.
  intros Hd. unfold index_of.
  destruct name as [|a [|b [|c [|d [|e rest]]]]]; try discriminate.
  destruct (decimal a) as [x|] eqn:Ea; [|discriminate].
  destruct (decimal b) as [y|] eqn:Eb; [|discriminate].
  destruct (decimal c) as [z|] eqn:Ec; [|discriminate].
  destruct (decimal d) as [w|] eqn:Ed; [|discriminate].
  destruct (N.eqb e DASH); [|discriminate].
  intros H. injection H as <-.
  pose proof (Hd _ _ Ea). pose proof (Hd _ _ Eb).
  pose proof (Hd _ _ Ec). pose proof (Hd _ _ Ed). lia.
Qed.

Lemma max_index_spec (names : list str) (max_idx : Z) :
  let r := max_index decimal max_idx names in
  max_idx <= r
  /\ (forall name idx, In name names -> index_of decimal name = Some idx ->
                       idx <= r)
  /\ (r = max_idx
      \/ exists name, In name names /\ index_of decimal name = Some r).
Proof.
  revert max_idx. induction names as [|name names IH]; intros max_idx;
    cbn zeta.
  - cbn [max_index]. split; [lia|]. split; [intros ? ? []|].
    left. reflexivity.
  - cbn [max_index]. destruct (index_of decimal name) as [idx|] eqn:E.
    + destruct (IH (Z.max max_idx idx)) as [Hle [Hall Hex]]. cbn zeta in *.
      split; [lia|]. split.
      * intros name' idx' [<-|Hin] H'.
        -- rewrite E in H'. injection H' as <-. lia.
        -- exact (Hall _ _ Hin H').
      * destruct Hex as [Hr|[name' [Hin H']]].
        -- destruct (Z.max_spec max_idx idx) as [[_ Hm]|[_ Hm]];
             rewrite Hm in Hr |- *.
           ++ right. exists name. split; [left; reflexivity|].
              rewrite Hr. exact E.
           ++ left. exact Hr.
        -- right. exists name'. split; [right|]; assumption.
    + destruct (IH max_idx) as [Hle [Hall Hex]]. cbn zeta in *.
      split; [assumption|]. split.
      * intros name' idx' [<-|Hin] H'; [congruence|].
        exact (Hall _ _ Hin H').
      * destruct Hex as [Hr|[name' [Hin H']]]; [left; assumption|].
        right. exists name'. split; [right|]; assumption.
Qed.

(** The result depends on the indexes found, not on their order. *)
Lemma max_index_same_names (names names' : list str) :
  (forall name, In name names -> In name names') ->
  max_index decimal 0 names <= max_index decimal 0 names'.
Proof.
  intros Hsub.
  destruct (max_index_spec names 0) as [_ [_ Hex]].
  destruct (max_index_spec names' 0) as [Hle [Hall _]]. cbn zeta in *.
  destruct Hex as [->|[name [Hin H]]]; [assumption|].
  exact (Hall _ _ (Hsub _ Hin) H).
Qed.

Lemma next_index_permutation (names names' : list str) :
  Permutation names names' ->
  next_index decimal names' = next_index decimal names.
Proof.
  intros HP. unfold next_index. f_equal. apply Z.le_antisymm.
  - apply max_index_same_names. intros name.
    apply Permutation_in. apply Permutation_sym. assumption.
  - apply max_index_same_names. intros name.
    apply Permutation_in. assumption.
Qed.

Lemma max_index_cons_some (name : str) (names : list str) (idx : Z) :
  index_of decimal name = Some idx ->
  max_index decimal 0 (name :: names)
  = Z.max idx (max_index decimal 0 names).
Proof.
  intros E.
  destruct (max_index_spec (name :: names) 0) as [Hle [Hall Hex]].
  destruct (max_index_spec names 0) as [Hle' [Hall' Hex']]. cbn zeta in *.
  set (r := max_index decimal 0 (name :: names)) in *.
  set (r' := max_index decimal 0 names) in *.
  assert (H1 : idx <= r) by (apply (Hall name); [left; reflexivity | exact E]).
  assert (H2 : r' <= r).
  { destruct Hex' as [->|[n [Hin H]]]; [assumption|].
    apply (Hall n); [right|]; assumption. }
  assert (H3 : r <= Z.max idx r').
  { destruct Hex as [->|[n [[<-|Hin] H]]].
    - lia.
    - rewrite E in H. injection H as ->. lia.
    - pose proof (Hall' _ _ Hin H). lia. }
  lia.
Qed.

Lemma max_index_cons_none (name : str) (names : list str) :
  index_of decimal name = None ->
  max_index decimal 0 (name :: names) = max_index decimal 0 names.
Proof. intros E. cbn [max_index]. rewrite E. reflexivity. Qed.

(** X23. When the digit values are 0 to 9, the next index lies between 1
    and 10000, is above the index of every name that starts with four
    digits and a dash, is 1 or one more than the index of such a name, and
    does not depend on the order in which [glob] yields the names. *)
Theorem next_index_is_fresh (names : list str) :
  digit_values decimal ->
  1 <= next_index decimal names <= 10000
  /\ (forall name idx, In name names -> index_of decimal name = Some idx ->
                       idx < next_index decimal names)
  /\ (next_index decimal names = 1
      \/ exists name, In name names
           /\ index_of decimal name = Some (next_index decimal names - 1))
  /\ (forall names', Permutation names names' ->
                     next_index decimal names' = next_index decimal names).
Proof.
  intros Hd. unfold next_index.
  destruct (max_index_spec names 0) as [Hle [Hall Hex]]. cbn zeta in *.
  split; [|split; [|split]].
  - destruct Hex as [->|[name [Hin H]]]; [lia|].
    pose proof (index_of_range _ Hd H). lia.
  - intros name idx Hin H. pose proof (Hall _ _ Hin H). lia.
  - destruct Hex as [->|[name [Hin H]]]; [left; reflexivity|].
    right. exists name. split; [assumption|].
    replace (max_index decimal 0 names + 1 - 1)
      with (max_index decimal 0 names) by lia. assumption.
  - apply next_index_permutation.
Qed.

Lemma index_of_four (n : Z) (rest : str) :
  reads_ascii decimal -> 0 <= n <= 9999 ->
  index_of decimal (format_0d 4 n ++ DASH :: rest) = Some n.
Proof.
  intros Hr Hn. rewrite (format_0d_four Hn). cbn [app index_of].
  assert (Hq : forall v, 0 <= v <= 9 -> decimal (digit_char v) = Some v)
    by exact Hr.
  rewrite (Hq (n / 1000))
    by (split; [apply Z.div_pos; lia|];
        assert (n / 1000 < 10) by (apply Z.div_lt_upper_bound; lia); lia).
  rewrite !Hq by (pose proof (Z.mod_pos_bound (n / 100) 10 ltac:(lia));
                  pose proof (Z.mod_pos_bound (n / 10) 10 ltac:(lia));
                  pose proof (Z.mod_pos_bound n 10 ltac:(lia)); lia).
  rewrite N.eqb_refl, (four_digits_value Hn). reflexivity.
Qed.

Lemma index_of_long (n : Z) (rest : str) :
  10000 <= n -> index_of decimal (format_0d 4 n ++ DASH :: rest) = None.
Proof.
  intros Hn.
  destruct (format_0d_long Hn) as [a [b [c [d [e [more [-> He]]]]]]].
  cbn [app index_of].
  assert (Hne : N.eqb e DASH = false)
    by (apply N.eqb_neq; unfold DASH; lia).
  rewrite Hne.
  destruct (decimal a), (decimal b), (decimal c), (decimal d); reflexivity.
Qed.

Lemma filename_prefix (idx : option Z) (today slug : str)
    (stamp : option str) :
  exists rest, filename idx today slug stamp = prefix idx ++ today ++ rest.
Proof.
  destruct stamp as [stamp|]; unfold filename; eexists;
    rewrite <- ?app_assoc; reflexivity.
Qed.

(** X24. The index written in a file name is read back: with [idx] the
    next index of a directory, the name [main] gives the new file starts
    with [idx] in four digits and, while [idx] is below 10000, [next_index]
    reads it as [idx], so that the next index of the directory with the new
    file is [idx + 1]; at 10000 the name has five digits, is not read as an
    index, and the next index stays 10000. *)
Theorem session_index_round_trip (names names' : list str)
    (today slug : str) (stamp : option str) :
  digit_values decimal -> reads_ascii decimal ->
  let idx := next_index decimal names in
  let name := filename (Some idx) today slug stamp in
  Permutation (name :: names) names' ->
  next_index decimal names' = Z.min (idx + 1) 10000
  /\ (idx < 10000 -> index_of decimal name = Some idx)
  /\ (idx = 10000 -> index_of decimal name = None).
Proof.
  intros Hd Hr idx name HP.
  assert (Hidx : 1 <= idx <= 10000).
  { unfold idx, next_index.
    destruct (max_index_spec names 0) as [Hle [_ Hex]]. cbn zeta in *.
    destruct Hex as [->|[n [Hin H]]]; [lia|].
    pose proof (index_of_range _ Hd H). lia. }
  destruct (filename_prefix (Some idx) today slug stamp) as [rest E].
  fold name in E. cbn [prefix] in E. rewrite <- app_assoc in E.
  cbn [app] in E.
  assert (H1 : idx < 10000 -> index_of decimal name = Some idx).
  { intros Hlt. rewrite E. apply index_of_four; [assumption | lia]. }
  assert (H2 : idx = 10000 -> index_of decimal name = None).
  { intros Heq. rewrite E. apply index_of_long. lia. }
  split; [|split; assumption].
  rewrite (next_index_permutation HP). unfold next_index at 1.
  destruct (Z.eq_dec idx 10000) as [Heq|Hne].
  - rewrite (@max_index_cons_none name names (H2 Heq)).
    assert (Hi : idx = max_index decimal 0 names + 1) by reflexivity.
    clearbody idx. lia.
  - rewrite (@max_index_cons_some name names idx (H1 ltac:(lia))).
    assert (Hi : idx = max_index decimal 0 names + 1) by reflexivity.
    clearbody idx. lia.
Qed.

(** X25. The name of a session made with [--no-index] starts with the
    date, whose year has four digits and is followed by a dash: it is read
    as an index, the year, and in a directory that holds such a file the
    next index is above the year. *)
Theorem unindexed_session_counts_as_year (year month day : Z)
    (slug : str) (stamp : option str) (names : list str) :
  reads_ascii decimal -> 1 <= year <= 9999 ->
  let name := filename None (isoformat year month day) slug stamp in
  index_of decimal name = Some year
  /\ (In name names -> year < next_index decimal names).
Proof.
  intros Hr Hy name.
  destruct (filename_prefix None (isoformat year month day) slug stamp)
    as [rest E].
  fold name in E. cbn [prefix app] in E. unfold isoformat in E.
  rewrite <- app_assoc in E. cbn [app] in E.
  assert (H : index_of decimal name = Some year).
  { rewrite E. apply index_of_four; [assumption | lia]. }
  split; [assumption|].
  intros Hin. unfold next_index.
  destruct (max_index_spec names 0) as [_ [Hall _]]. cbn zeta in *.
  pose proof (Hall _ _ Hin H). lia.
Qed.

End IndexFacts.

Lemma decimal_ascii_values : digit_values decimal_ascii.
Proof.
  intros c v. unfold decimal_ascii.
  destruct (N.leb 48 c && N.leb c 57) eqn:E; [|discriminate].
  apply andb_true_iff in E. destruct E as [E1 E2].
  apply N.leb_le in E1, E2. intros H. injection H as <-. lia.
Qed.

Lemma decimal_ascii_reads : reads_ascii decimal_ascii.
Proof.
  intros v Hv. unfold decimal_ascii.
  assert (E1 : N.leb 48 (Z.to_N (48 + v)) = true) by (apply N.leb_le; lia).
  assert (E2 : N.leb (Z.to_N (48 + v)) 57 = true) by (apply N.leb_le; lia).
  rewrite E1, E2. cbn [andb]. f_equal. lia.
Qed.

Lemma next_index_is_fresh_witness :
  digit_values decimal_ascii
  /\ next_index decimal_ascii sample_sessions = 8
  /\ (forall name idx, In name sample_sessions ->
                       index_of decimal_ascii name = Some idx ->
                       idx < next_index decimal_ascii sample_sessions).
Proof.
  split; [exact decimal_ascii_values|]. split; [reflexivity|].
  exact (proj1 (proj2 (@next_index_is_fresh decimal_ascii sample_sessions
                         decimal_ascii_values))).
Defined.

Lemma session_index_round_trip_witness :
  digit_values decimal_ascii /\ reads_ascii decimal_ascii
  /\ Permutation
       (filename (Some (next_index decimal_ascii sample_sessions))
          (isoformat 2026 11 4) (lit "fix-auth") None :: sample_sessions)
       (sample_sessions ++ [lit "0008-2026-11-04--fix-auth.md"])
  /\ next_index decimal_ascii
       (sample_sessions ++ [lit "0008-2026-11-04--fix-auth.md"]) = 9.
Proof.
  assert (HP : Permutation
                 (filename (Some (next_index decimal_ascii sample_sessions))
                    (isoformat 2026 11 4) (lit "fix-auth") None
                  :: sample_sessions)
                 (sample_sessions ++ [lit "0008-2026-11-04--fix-auth.md"])).
  { change (filename (Some (next_index decimal_ascii sample_sessions))
              (isoformat 2026 11 4) (lit "fix-auth") None)
      with (lit "0008-2026-11-04--fix-auth.md").
    apply Permutation_cons_append. }
  split; [exact decimal_ascii_values|]. split; [exact decimal_ascii_reads|].
  split; [exact HP|].
  exact (proj1 (@session_index_round_trip decimal_ascii sample_sessions _
                  (isoformat 2026 11 4) (lit "fix-auth") None
                  decimal_ascii_values decimal_ascii_reads HP)).
Defined.

Lemma unindexed_session_counts_as_year_witness :
  reads_ascii decimal_ascii /\ 1 <= 2026 <= 9999
  /\ index_of decimal_ascii
       (filename None (isoformat 2026 11 4) (lit "fix-auth") None)
     = Some 2026.
Proof.
  split; [exact decimal_ascii_reads|]. split; [lia|].
  exact (proj1 (@unindexed_session_counts_as_year decimal_ascii 2026 11 4
                  (lit "fix-auth") None [] decimal_ascii_reads
                  ltac:(lia))).
Defined.

(** ** Connectors *)

Section Connectors.

Variable lower : str -> str.
Variable fnmatchcase : str -> str -> bool.
Variable iterdir : list str -> listing.
Variable exclude_dirs : list str.
Variable exclude_globs : list str.

Local Abbreviation trace_levels' :=
  (trace_levels lower fnmatchcase iterdir exclude_dirs exclude_globs).
Local Abbreviation connected' :=
  (connected lower fnmatchcase iterdir exclude_dirs exclude_globs).

Lemma trace_connected (n : nat) (dir : list str) (prefix : str)
    (items : list item) :
  trace_levels' n dir prefix = Return items -> Forall connected' items.
Proof.
  revert dir prefix items. induction n as [|n IH]; intros dir prefix items H.
  - inversion H; subst. constructor.
  - cbn [trace_levels] in H. destruct (iterdir dir) as [|es] eqn:Els.
    { inversion H; subst. constructor; [exact I | constructor]. }
    apply bind_Return in H. destruct H as [filtered [Hf H]].
    assert (Hgen : forall l before its,
               sort_entries lower filtered = before ++ l ->
               emit_trace (trace_levels' n) dir prefix l = Return its ->
               Forall connected' its).
    { clear items H. induction l as [|p rest IHrest]; intros before its E H.
      - inversion H; subst. constructor.
      - apply emit_trace_cons in H.
        destruct H as [sub [more [Hsub [Hmore ->]]]].
        constructor; [|apply Forall_app; split].
        + exists dir, rest, prefix. split; [reflexivity|].
          split; [|reflexivity].
          exists es, filtered, before. repeat split; assumption.
        + destruct (is_dir p); [|inversion Hsub; constructor].
          eapply IH. exact Hsub.
        + apply (IHrest (before ++ [p])); [|assumption].
          rewrite <- app_assoc. exact E. }
    exact (Hgen _ [] _ eq_refl H).
Qed.

End Connectors.

Lemma corner_is_not_branch : corner <> branch.
Proof. discriminate. Qed.

(** X26. The connector of a line tells the place of the entry among its
    siblings: the entry stands in the sorted listing of what the filter
    keeps of its directory, and its line has the corner when nothing comes
    after it there, and the branch (a different text) otherwise. *)
Theorem corner_marks_last_sibling
    (lower : str -> str) (fnmatchcase : str -> str -> bool)
    (iterdir : list str -> listing) (names globs : list str)
    (label : str) (max_depth : Z) (lines : list str) :
  build_tree_lines lower fnmatchcase iterdir names globs label max_depth
  = Return lines ->
  corner <> branch
  /\ exists items,
       build_tree_trace lower fnmatchcase iterdir names globs max_depth
       = Return items
       /\ lines = label :: List.map item_line items
       /\ forall rel p line, In (Shown rel p line) items ->
            exists parent after pre,
              rel = parent ++ [d_name p]
              /\ placed lower fnmatchcase iterdir names globs parent p after
              /\ line = pre ++ (if is_nil after then corner else branch)
                            ++ d_name p
                            ++ (if is_dir p then [SEP] else []).
Proof.
  intros H. split; [exact corner_is_not_branch|].
  destruct (build_tree_lines_trace _ _ _ _ _ _ _ H) as [items [Ht El]].
  exists items. split; [assumption|]. split; [assumption|].
  pose proof (trace_connected _ _ _ _ _ _ _ _ Ht) as HF.
  rewrite Forall_forall in HF. intros rel p line Hit.
  exact (HF _ Hit).
Qed.

Lemma corner_marks_last_sibling_witness :
  exists lines,
    build_tree_lines lower_ascii fnmatch_plain sample_state sample_names
      sample_globs (lit "/repo") 3 = Return lines
    /\ exists items,
         build_tree_trace lower_ascii fnmatch_plain sample_state
           sample_names sample_globs 3 = Return items
         /\ lines = lit "/repo" :: List.map item_line items
         /\ forall rel p line, In (Shown rel p line) items ->
              exists parent after pre,
                rel = parent ++ [d_name p]
                /\ placed lower_ascii fnmatch_plain sample_state
                     sample_names sample_globs parent p after
                /\ line = pre ++ (if is_nil after then corner else branch)
                              ++ d_name p
                              ++ (if is_dir p then [SEP] else []).
Proof.
  eexists. split; [vm_compute; reflexivity|].
  apply corner_marks_last_sibling. vm_compute. reflexivity.
Defined.

(** ** When the extractor raises *)

(** X1. [extract] on a text raises an exception exactly when the parser
    rejects the text and the tokenizer throws that exception before it
    yields a token that is not skipped; in every other case it returns.
    [extract] of [codebase_snapshot.py], which takes a path, raises
    exactly in one case more: both readings of the file raise, and the
    exception of the second reaches the caller. *)
Theorem extract_raises_exactly
    (ast_parse : str -> result module_)
    (generate_tokens : str -> result tokgen)
    (literal_eval : str -> result pyvalue)
    (tokenize_open read_text : list str -> result str) :
  (forall source e,
      extract_module_docstring ast_parse generate_tokens literal_eval source
      = Raise e
      <-> exists e1 trivia,
            ast_parse source = Raise e1
            /\ generate_tokens source = Return (yield_all trivia (Throw e))
            /\ all_trivia trivia)
  /\ (forall source,
        (forall e1 trivia e,
            ast_parse source = Raise e1 ->
            generate_tokens source = Return (yield_all trivia (Throw e)) ->
            ~ all_trivia trivia) ->
        exists r,
          extract_module_docstring ast_parse generate_tokens literal_eval
            source = Return r)
  /\ (forall path e,
        CodebaseSnapshot.extract_module_docstring ast_parse generate_tokens
          literal_eval tokenize_open read_text path = Raise e
        <-> (exists e0, tokenize_open path = Raise e0
                        /\ read_text path = Raise e)
            \/ (exists source e1 trivia,
                  _read_python_source tokenize_open read_text path
                  = Return source
                  /\ ast_parse source = Raise e1
                  /\ generate_tokens source
                     = Return (yield_all trivia (Throw e))
                  /\ all_trivia trivia)).
Proof.
  split; [intros; apply extract_raises_iff|]. split.
  - intros source Hno.
    destruct (extract_module_docstring ast_parse generate_tokens
                literal_eval source) as [r|e] eqn:E;
      [exists r; reflexivity|].
    exfalso. apply extract_raises_iff in E.
    destruct E as [e1 [trivia [Hp [Hg Ht]]]].
    exact (Hno e1 trivia e Hp Hg Ht).
  - intros. apply path_extract_raises_iff.
Qed.

(** ** Nothing within reach is missing from the output *)

(** X8. Every directory the walk can come to within the depth is
    rendered in full in the lines that [build_tree_lines] returns: when
    the directory cannot be read, its placeholder line is among them, and
    otherwise each of its entries that passes the filter has a line among
    them, which ends with the name of the entry, followed by the separator
    exactly when the entry is a directory. *)
Theorem reached_entries_are_shown
    (lower : str -> str) (fnmatchcase : str -> str -> bool)
    (iterdir : list str -> listing) (names globs : list str)
    (label : str) (max_depth : Z) (lines : list str) (dir : list str) :
  build_tree_lines lower fnmatchcase iterdir names globs label max_depth
  = Return lines ->
  reached fnmatchcase iterdir names globs dir ->
  len dir < max_depth ->
  exists items,
    build_tree_trace lower fnmatchcase iterdir names globs max_depth
    = Return items
    /\ lines = label :: List.map item_line items
    /\ (iterdir dir = PermissionDenied ->
        exists pre,
          In (Denied dir (pre ++ corner ++ denied)) items
          /\ In (pre ++ corner ++ denied) lines)
    /\ (forall es filtered p,
          iterdir dir = Entries es ->
          filter_entries fnmatchcase names globs dir es = Return filtered ->
          In p filtered ->
          exists pre,
            let line := pre ++ d_name p
                            ++ (if is_dir p then [SEP] else []) in
            In (Shown (dir ++ [d_name p]) p line) items
            /\ In line lines).
Proof.
  intros H Hr Hlen.
  destruct (build_tree_lines_trace _ _ _ _ _ _ _ H) as [items [Ht El]].
  exists items. split; [assumption|]. split; [assumption|].
  pose proof (trace_drawn _ _ _ _ _ _ _ _ Ht) as HF.
  rewrite Forall_forall in HF.
  destruct (@reached_entries_in_trace lower fnmatchcase iterdir names globs
              max_depth items dir Ht Hr Hlen) as [Hden Hshown].
  assert (Hline : forall it, In it items -> In (item_line it) lines).
  { intros it Hit. rewrite El. right. apply in_map. assumption. }
  split.
  - intros Hd. destruct (Hden Hd) as [line Hin].
    destruct (HF _ Hin) as [pre [E _]]. subst line.
    exists pre. split; [assumption|]. exact (Hline _ Hin).
  - intros es filtered p Hes Hf Hp.
    destruct (Hshown es filtered p Hes Hf Hp) as [line Hin].
    destruct (HF _ Hin) as [pre [conn [parent [E _]]]]. subst line.
    exists (pre ++ conn). cbv zeta. rewrite <- app_assoc.
    split; [assumption|]. exact (Hline _ Hin).
Qed.

Lemma reached_entries_are_shown_witness :
  exists lines,
    build_tree_lines lower_ascii fnmatch_plain sample_state sample_names
      sample_globs (lit "/repo") 3 = Return lines
    /\ reached fnmatch_plain sample_state sample_names sample_globs
         [lit "a"; lit "locked"]
    /\ len [lit "a"; lit "locked"] < 3
    /\ sample_state [lit "a"; lit "locked"] = PermissionDenied
    /\ exists pre, In (pre ++ corner ++ denied) lines.
Proof.
  eexists. split; [vm_compute; reflexivity|].
  split; [exact sample_reached_locked|].
  split; [reflexivity|]. split; [reflexivity|].
  destruct (@reached_entries_are_shown lower_ascii fnmatch_plain
              sample_state sample_names sample_globs (lit "/repo") 3 _
              [lit "a"; lit "locked"] eq_refl sample_reached_locked
              eq_refl) as [items [_ [_ [Hden _]]]].
  destruct (Hden eq_refl) as [pre [_ Hin]].
  exists pre. exact Hin.
Defined.
